(** * ShellPack: a shallow embedding of the backup / restore core

  The development follows [src/shellpack/core.py], [src/shellpack/backup.py]
  and [src/shellpack/restore.py].

  - A Python [str] is a list of code points.  The embedding covers the
    code points U+0000..U+00FF, one [ascii] per code point, which is
    enough to tell apart [str.isdigit], [str.isalnum] and [int] on
    non-ASCII input (for instance U+00B2, SUPERSCRIPT TWO).
  - A [pathlib.Path] is the list of its components.
  - Interactive routines run in a small monad threading the pending
    standard input and the trace of effects (status lines, log appends,
    directory creations, file writes, sub-processes), with [SystemExit]
    and [ValueError] as exceptional outcomes.
  - The machine the program runs on (which files exist, what a
    sub-process answers, the clock) is a record of oracles, [world]. *)

From Stdlib Require Import String Ascii List Bool Arith ZArith NArith Lia.
From Stdlib Require Import Permutation Sorted.
Import ListNotations.

Open Scope string_scope.
Open Scope nat_scope.
Open Scope list_scope.

(** ** Python strings *)

Definition str := list ascii.

Definition lit (s : string) : str := list_ascii_of_string s.

Definition str_eqb (a b : str) : bool :=
  if list_eq_dec ascii_dec a b then true else false.

Module PyStr.

(** Code point of a character. *)
Definition ord (c : ascii) : nat := nat_of_ascii c.

Definition between (lo hi : nat) (c : ascii) : bool :=
  (lo <=? ord c) && (ord c <=? hi).

Definition is_ascii_upper := between 65 90.
Definition is_ascii_lower := between 97 122.
Definition is_ascii_digit := between 48 57.

Definition is_ascii_alnum (c : ascii) : bool :=
  is_ascii_upper c || is_ascii_lower c || is_ascii_digit c.

(** [str.isdecimal] on one character: Unicode category Nd.  Below U+0100
    these are the ASCII digits. *)
Definition char_isdecimal (c : ascii) : bool := is_ascii_digit c.

(** [str.isdigit] on one character: Nd or Numeric_Type=Digit.  Below
    U+0100 that adds the superscripts U+00B2, U+00B3 and U+00B9. *)
Definition char_isdigit (c : ascii) : bool :=
  is_ascii_digit c || (ord c =? 178) || (ord c =? 179) || (ord c =? 185).

(** [str.isnumeric] on one character: adds the vulgar fractions
    U+00BC..U+00BE. *)
Definition char_isnumeric (c : ascii) : bool :=
  char_isdigit c || between 188 190 c.

(** [str.isalpha] on one character: categories Lu, Ll, Lt, Lm, Lo. *)
Definition char_isalpha (c : ascii) : bool :=
  is_ascii_upper c || is_ascii_lower c
  || (ord c =? 170) || (ord c =? 181) || (ord c =? 186)
  || between 192 214 c || between 216 246 c || between 248 255 c.

Definition char_isalnum (c : ascii) : bool :=
  char_isalpha c || char_isdecimal c || char_isdigit c || char_isnumeric c.

(** [str.isspace] on one character, which is also what [str.strip()] and
    [str.split()] without argument remove. *)
Definition char_isspace (c : ascii) : bool :=
  between 9 13 c || between 28 32 c || (ord c =? 133) || (ord c =? 160).

(** Line boundaries of [str.splitlines]. *)
Definition char_islinebreak (c : ascii) : bool :=
  between 10 13 c || between 28 30 c || (ord c =? 133).

(** [s.isalnum()], [s.isdigit()]: every character qualifies and there is
    at least one. *)
Definition isalnum (s : str) : bool :=
  negb (Nat.eqb (length s) 0) && forallb char_isalnum s.

Definition isdigit (s : str) : bool :=
  negb (Nat.eqb (length s) 0) && forallb char_isdigit s.

Fixpoint lstrip (s : str) : str :=
  match s with
  | c :: r => if char_isspace c then lstrip r else s
  | [] => []
  end.

Definition rstrip (s : str) : str := rev (lstrip (rev s)).

(** [s.strip()] *)
Definition strip (s : str) : str := rstrip (lstrip s).

(** [s.lower()]: below U+0100 the upper-case letters are A-Z, U+00C0..U+00D6
    and U+00D8..U+00DE, each 32 below its lower-case form. *)
Definition char_lower (c : ascii) : ascii :=
  if is_ascii_upper c || between 192 214 c || between 216 222 c
  then ascii_of_nat (ord c + 32) else c.

Definition lower (s : str) : str := map char_lower s.

(** [s.split()]: maximal runs of non-space characters.  [cur] holds the
    pending run, reversed. *)
Fixpoint split_aux (cur : str) (s : str) : list str :=
  match s with
  | [] => match cur with [] => [] | _ => [rev cur] end
  | c :: r =>
      if char_isspace c
      then match cur with [] => split_aux [] r | _ => rev cur :: split_aux [] r end
      else split_aux (c :: cur) r
  end.

Definition split (s : str) : list str := split_aux [] s.

(** [s.splitlines()]: cut at every line boundary, CR LF counting as one,
    with no empty last line.  [cur] holds the pending line, reversed,
    and [pending] tells whether a line is open. *)
Fixpoint splitlines_aux (cur : str) (pending : bool) (s : str) : list str :=
  match s with
  | [] => if pending then [rev cur] else []
  | c :: r =>
      if char_islinebreak c
      then rev cur ::
           match r with
           | c' :: r' =>
               if (ord c =? 13) && (ord c' =? 10)
               then splitlines_aux [] false r'
               else splitlines_aux [] false r
           | [] => []
           end
      else splitlines_aux (c :: cur) true r
  end.

Definition splitlines (s : str) : list str := splitlines_aux [] false s.

(** [s.replace(c, "")] for a one-character [c]. *)
Definition remove_char (c : ascii) (s : str) : str :=
  filter (fun x => negb (Ascii.eqb x c)) s.

(** [s.startswith(p)] *)
Fixpoint startswith (s p : str) : bool :=
  match p, s with
  | [], _ => true
  | a :: p', b :: s' => Ascii.eqb a b && startswith s' p'
  | _ :: _, [] => false
  end.

(** [p in s] for strings. *)
Fixpoint contains (s p : str) : bool :=
  startswith s p ||
  match s with
  | [] => false
  | _ :: r => contains r p
  end.

Definition digit_val (c : ascii) : Z := Z.of_nat (ord c - 48).

(** [int(s)], base ten, for a string [s] on which [s.isdigit()] holds:
    the value when every character is a decimal digit (category Nd), and
    [None], a [ValueError], otherwise. *)
Definition int (s : str) : option Z :=
  if negb (Nat.eqb (length s) 0) && forallb char_isdecimal s
  then Some (fold_left (fun acc c => 10 * acc + digit_val c)%Z s 0%Z)
  else None.

Definition digit_char (d : nat) : ascii := ascii_of_nat (48 + d mod 10).

(** [str(n)] for a natural number. *)
Fixpoint of_nat_aux (fuel n : nat) (acc : str) : str :=
  match fuel with
  | 0 => acc
  | S fuel' =>
      let acc' := digit_char n :: acc in
      if n <? 10 then acc' else of_nat_aux fuel' (n / 10) acc'
  end.

Definition of_nat (n : nat) : str := of_nat_aux (S n) n [].

(** [sep.join(l)] *)
Fixpoint join (sep : str) (l : list str) : str :=
  match l with
  | [] => []
  | [x] => x
  | x :: r => x ++ sep ++ join sep r
  end.

(** Order of [str] under [<]: by code point, shorter prefix first. *)
Definition compare (a b : str) : comparison := list_compare Ascii.compare a b.

Definition leb (a b : str) : bool :=
  match compare a b with Gt => false | _ => true end.

End PyStr.

(** ** The clock *)

Record datetime := {
  year : nat; month : nat; day : nat;
  hour : nat; minute : nat; second : nat
}.

Definition pad2 (n : nat) : str :=
  [PyStr.digit_char (n / 10); PyStr.digit_char n].

(** [%Y]: [datetime.now()] has a four-digit year. *)
Definition pad4 (n : nat) : str :=
  [PyStr.digit_char (n / 1000); PyStr.digit_char (n / 100);
   PyStr.digit_char (n / 10); PyStr.digit_char n].

(** [strftime('%Y%m%d-%H%M%S')] *)
Definition strftime_compact (t : datetime) : str :=
  pad4 (year t) ++ pad2 (month t) ++ pad2 (day t) ++ lit "-"
  ++ pad2 (hour t) ++ pad2 (minute t) ++ pad2 (second t).

(** [strftime('%Y%m%d')] *)
Definition strftime_date (t : datetime) : str :=
  pad4 (year t) ++ pad2 (month t) ++ pad2 (day t).

(** ** [sanitize_name] *)

Module Sanitize.

(** The characters outside [[^a-zA-Z0-9._-]]. *)
Definition allowed (c : ascii) : bool :=
  PyStr.is_ascii_alnum c
  || Ascii.eqb c "."%char || Ascii.eqb c "_"%char || Ascii.eqb c "-"%char.

Definition is_dot (c : ascii) : bool := Ascii.eqb c "."%char.

(** [re.sub(r"[^a-zA-Z0-9._-]", "", name)] *)
Definition strip_disallowed (name : str) : str := filter allowed name.

(** [re.sub(r"\.\.+", ".", name)], scanning left to right: a match starts
    at a dot followed by a dot, emits one dot and swallows the rest of the
    run.  [in_run] tells that the previous character was a dot, so the
    current dot, if any, belongs to a run already answered for. *)
Fixpoint collapse_dots_from (in_run : bool) (name : str) : str :=
  match name with
  | [] => []
  | c :: r =>
      if is_dot c
      then if in_run then collapse_dots_from true r
           else c :: collapse_dots_from true r
      else c :: collapse_dots_from false r
  end.

Definition collapse_dots (name : str) : str := collapse_dots_from false name.

Definition fallback_name (now : datetime) : str :=
  lit "backup-" ++ strftime_compact now.

Definition sanitize_name (now : datetime) (name : str) : str :=
  let name := strip_disallowed name in
  let name := collapse_dots name in
  let name := if 100 <? length name then firstn 100 name else name in
  match name with
  | [] => fallback_name now
  | _ => name
  end.

(** A string has two dots in a row. *)
Fixpoint has_dotdot (s : str) : bool :=
  match s with
  | a :: ((b :: _) as r) => (is_dot a && is_dot b) || has_dotdot r
  | _ => false
  end.

End Sanitize.


(** ** Paths *)

Definition path := list str.

(** [p / name] *)
Definition pjoin (p : path) (name : string) : path := p ++ [lit name].

Notation "p // name" := (pjoin p name) (at level 40, left associativity).

(** [str(p)] for an absolute path. *)
Definition path_str (p : path) : str := lit "/" ++ PyStr.join (lit "/") p.

(** [p.name] and [p.parent] *)
Definition path_name (p : path) : str := last p [].
Definition path_parent (p : path) : path := removelast p.

Module PyPath.

(** Paths compare by their components. *)
Definition compare (p q : path) : comparison := list_compare PyStr.compare p q.

Definition leb (p q : path) : bool :=
  match compare p q with Gt => false | _ => true end.

End PyPath.

(** ** [sorted]

    A stable sort under the key's order; insertion from the right keeps an
    element before the equal ones that followed it. *)

Section Sorted.

Context {A K : Type} (key : A -> K) (leb : K -> K -> bool).

Fixpoint insert_sorted (x : A) (l : list A) : list A :=
  match l with
  | [] => [x]
  | y :: r => if leb (key x) (key y) then x :: y :: r else y :: insert_sorted x r
  end.

Definition py_sorted (l : list A) : list A := fold_right insert_sorted [] l.

End Sorted.

(** ** SHA-256 ([hashlib.sha256]), after FIPS 180-4 *)

Module Sha256.

Local Open Scope N_scope.

Definition mask32 : N := 0xFFFFFFFF.
Definition add32 (a b : N) : N := N.land (a + b) mask32.
Definition rotr (n x : N) : N :=
  N.lor (N.shiftr x n) (N.land (N.shiftl x (32 - n)) mask32).
Definition not32 (x : N) : N := N.lxor x mask32.

Definition Ch (x y z : N) : N := N.lxor (N.land x y) (N.land (not32 x) z).
Definition Maj (x y z : N) : N :=
  N.lxor (N.lxor (N.land x y) (N.land x z)) (N.land y z).
Definition Sigma0 (x : N) : N := N.lxor (N.lxor (rotr 2 x) (rotr 13 x)) (rotr 22 x).
Definition Sigma1 (x : N) : N := N.lxor (N.lxor (rotr 6 x) (rotr 11 x)) (rotr 25 x).
Definition sigma0 (x : N) : N := N.lxor (N.lxor (rotr 7 x) (rotr 18 x)) (N.shiftr x 3).
Definition sigma1 (x : N) : N := N.lxor (N.lxor (rotr 17 x) (rotr 19 x)) (N.shiftr x 10).

(** The round constants and the initial hash value are the first 32 bits
    of the fractional parts of the cube roots of the first 64 primes, and
    of the square roots of the first 8. *)
Definition is_prime (n : nat) : bool :=
  (1 <? n)%nat && forallb (fun d => negb (Nat.eqb (n mod d) 0)) (seq 2 (n - 2)).

Definition primes_below (bound : nat) : list N :=
  map N.of_nat (filter is_prime (seq 2 (bound - 2))).

(** The integer cube root, one bit at a time from bit [bits - 1] down. *)
Fixpoint cube_root_bits (bits : nat) (x r : N) : N :=
  match bits with
  | O => r
  | S b =>
      let r' := r + N.shiftl 1 (N.of_nat b) in
      cube_root_bits b x (if r' * r' * r' <=? x then r' else r)
  end.

Definition frac32_cube_root (p : N) : N :=
  N.land (cube_root_bits 36 (N.shiftl p 96) 0) mask32.

Definition frac32_square_root (p : N) : N :=
  N.land (N.sqrt (N.shiftl p 64)) mask32.

Definition K : list N := map frac32_cube_root (primes_below 312).

Definition H0 : list N := map frac32_square_root (primes_below 20).

(** Big-endian bytes of a number, [n] of them. *)
Fixpoint be_bytes (n : nat) (x : N) : list N :=
  match n with
  | O => []
  | S n' => be_bytes n' (N.shiftr x 8) ++ [N.land x 0xFF]
  end.

(** The message followed by 0x80, zeros up to 56 modulo 64, and its length
    in bits on eight bytes. *)
Definition pad (msg : list N) : list N :=
  let len := N.of_nat (length msg) in
  let zeros := N.to_nat ((119 - len mod 64) mod 64) in
  msg ++ [0x80] ++ repeat 0 zeros ++ be_bytes 8 (8 * len).

Fixpoint words_of_bytes (n : nat) (bs : list N) : list N :=
  match n, bs with
  | S n', a :: b :: c :: d :: r =>
      (N.shiftl a 24 + N.shiftl b 16 + N.shiftl c 8 + d) :: words_of_bytes n' r
  | _, _ => []
  end.

(** The message schedule, most recent word first. *)
Fixpoint schedule (n : nat) (w : list N) : list N :=
  match n with
  | O => w
  | S n' =>
      let wt := add32 (add32 (sigma1 (nth 1 w 0)) (nth 6 w 0))
                      (add32 (sigma0 (nth 14 w 0)) (nth 15 w 0)) in
      schedule n' (wt :: w)
  end.

Definition round (st : list N) (kw : N * N) : list N :=
  match st with
  | [a; b; c; d; e; f; g; h] =>
      let t1 := add32 (add32 (add32 h (Sigma1 e)) (add32 (Ch e f g) (fst kw))) (snd kw) in
      let t2 := add32 (Sigma0 a) (Maj a b c) in
      [add32 t1 t2; a; b; c; add32 d t1; e; f; g]
  | _ => st
  end.

Definition compress (h : list N) (block : list N) : list N :=
  let w := rev (schedule 48 (rev (words_of_bytes 16 block))) in
  let st := fold_left round (combine K w) h in
  map (fun p => add32 (fst p) (snd p)) (combine h st).

Fixpoint blocks (n : nat) (bs : list N) : list (list N) :=
  match n with
  | O => []
  | S n' =>
      match bs with
      | [] => []
      | _ => firstn 64 bs :: blocks n' (skipn 64 bs)
      end
  end.

Definition digest (msg : list N) : list N :=
  let padded := pad msg in
  fold_left compress (blocks (length padded) padded) H0.

Definition hex_char (x : N) : ascii :=
  nth (N.to_nat x) (lit "0123456789abcdef") "0"%char.

Definition hex_word (x : N) : str :=
  flat_map (fun b => [hex_char (N.shiftr b 4); hex_char (N.land b 0xF)]) (be_bytes 4 x).

(** [hashlib.sha256(data).hexdigest()] *)
Definition hexdigest (data : list Byte.byte) : str :=
  flat_map hex_word (digest (map Byte.to_N data)).

End Sha256.

(** ** The machine *)

(** What [subprocess.run] came to. *)
Inductive proc_result :=
| Exited (rc : Z) (out err : str)
| TimedOut
| Crashed (msg : str).

(** An entry met by [Path.rglob]: a directory, or a file with its bytes
    ([None] when reading it raises). *)
Inductive node :=
| Dir
| File (data : option (list Byte.byte)).

Definition entry := (path * node)%type.

Record world := {
  is_file : path -> bool;
  is_dir : path -> bool;
  (** names under a directory, in the order the system lists them *)
  iterdir : path -> list str;
  (** everything below a directory, in the order the system lists it *)
  rglob : path -> list entry;
  (** [shutil.which(cmd) is not None] *)
  which : string -> bool;
  (** [subprocess.run(cmd, timeout=...)], 0 standing for no timeout *)
  run : list str -> nat -> proc_result;
  (** the exception, if any, of creating the parent and [shutil.copy2] *)
  copy2 : path -> path -> option str;
  (** the exception, if any, of writing a gzipped tar of a directory *)
  tar_gz : path -> path -> option str;
  (** the exception, if any, of [shutil.copytree] *)
  copytree : path -> path -> option str;
  (** the exception, if any, of opening a file for writing *)
  open_w : path -> option str;
  now : datetime;
  now_utc : datetime;
  (** [platform.system().lower()], [platform.machine().lower()],
      [platform.uname().release.lower()], [platform.node()] *)
  system : str;
  machine : str;
  release : str;
  node_name : str;
  (** [os.environ.get("USER")], and the base name of [$SHELL] *)
  env_user : option str;
  shell_name : str
}.

Record config := {
  temp_dir : path;
  manifest_file : string;
  verbose : bool;
  dry_run : bool;
  home : path
}.

(** ** Effects

    The trace lists, in order, what the program asks of the system.  Plain
    decorative [print] lines are left out. *)

Record manifest := {
  m_version : str;
  m_created : str;
  m_backup_name : str;
  m_backup_type : str;
  m_user : str;
  m_hostname : str;
  m_os : str;
  m_arch : str;
  m_package_manager : str;
  m_default_shell : str;
  m_shells : list str;
  m_checksum : str
}.

Inductive event :=
| EPrint (status : str) (message : str)   (* the line of [print_status] *)
| EError (message : str)                  (* the line of [print_error] *)
| EOut (line : str)                       (* a [print] the user chooses from *)
| ELog (level : str) (message : str)      (* [log]: append to the log file *)
| EMkdir (p : path)                       (* [mkdir(parents=True, exist_ok=True)] *)
| ECopyFile (src dest : path)             (* [shutil.copy2] *)
| ETar (archive src : path) (arcname : str)
| EWriteText (file : path) (content : str)
| EWriteJson (file : path) (m : manifest)
| ECopyTree (src dest : path)
| ERun (cmd : list str).

(** The event writes below the backup tree or elsewhere, other than by
    creating a directory or appending to the log. *)
Definition writes_file (e : event) : bool :=
  match e with
  | ECopyFile _ _ | ETar _ _ _ | EWriteText _ _ | EWriteJson _ _ | ECopyTree _ _ => true
  | _ => false
  end.

Definition runs_process (e : event) : bool :=
  match e with ERun _ => true | _ => false end.

(** The event is a status line with the given status. *)
Definition reports (status : string) (e : event) : bool :=
  match e with
  | EPrint st _ => str_eqb st (lit status)
  | _ => false
  end.

(** ** [core.py] *)

Definition VERSION : str := lit "2.0.0".

Definition log (level : string) (message : str) : list event :=
  [ELog (lit level) message].

Definition print_status (message : str) (status : string) : list event :=
  EPrint (lit status) message :: log "INFO" message.

Definition print_error (message : str) : list event :=
  EError message :: log "ERROR" message.

Definition run_command (w : world) (cmd : list str) (check : bool) (timeout : nat)
  : (Z * str * str) * list event :=
  match run w cmd timeout with
  | Exited rc out err =>
      ((rc, out, err),
       ERun cmd ::
       if check && negb (rc =? 0)%Z
       then log "ERROR" (lit "Command failed: " ++ PyStr.join (lit " ") cmd)
            ++ log "ERROR" (lit "stderr: " ++ err)
       else [])
  | TimedOut =>
      ((1%Z, [], lit "timeout"),
       ERun cmd :: log "ERROR" (lit "Command timed out: " ++ PyStr.join (lit " ") cmd))
  | Crashed e =>
      ((1%Z, [], e), ERun cmd :: log "ERROR" (lit "Command exception: " ++ e))
  end.

Definition command_exists (w : world) (cmd : string) : bool := which w cmd.

Definition detect_os (w : world) : str * str :=
  let machine := machine w in
  let arch :=
    if str_eqb machine (lit "x86_64") || str_eqb machine (lit "amd64") then lit "amd64"
    else if str_eqb machine (lit "arm64") || str_eqb machine (lit "aarch64") then lit "arm64"
    else if str_eqb machine (lit "armv7l") then lit "arm"
    else machine in
  if str_eqb (system w) (lit "darwin") then (lit "macos", arch)
  else if str_eqb (system w) (lit "linux") then
    if PyStr.contains (release w) (lit "microsoft") then (lit "wsl", arch)
    else (lit "linux", arch)
  else (system w, arch).

Definition detect_package_manager (w : world) (os_name : str) : str :=
  if str_eqb os_name (lit "macos") then lit "brew"
  else match find (command_exists w) ["apt"; "dnf"; "yum"; "pacman"; "zypper"; "apk"] with
       | Some pm => lit pm
       | None => lit "unknown"
       end.

Definition detect_shell (w : world) : str := shell_name w.

Definition get_hostname (w : world) : str :=
  match node_name w with [] => lit "unknown" | n => n end.

(** [calculate_checksum]: the digest of the bytes of every readable file
    not named [manifest.json], taken in the order of the sorted paths. *)
Definition hashed (e : entry) : bool :=
  match snd e with
  | File _ => negb (str_eqb (path_name (fst e)) (lit "manifest.json"))
  | Dir => false
  end.

Definition read_bytes (e : entry) : list Byte.byte :=
  match snd e with
  | File (Some data) => data
  | _ => []
  end.

Definition checksum_input (listing : list entry) : list Byte.byte :=
  flat_map read_bytes (filter hashed (py_sorted fst PyPath.leb listing)).

Definition calculate_checksum (w : world) (directory : path) : str :=
  Sha256.hexdigest (checksum_input (rglob w directory)).

Definition copy_file (w : world) (src dest : path) : bool * list event :=
  match copy2 w src dest with
  | None => (true, [EMkdir (path_parent dest); ECopyFile src dest])
  | Some e =>
      (false,
       [EMkdir (path_parent dest); ECopyFile src dest]
       ++ log "ERROR" (lit "Failed to copy " ++ path_str src ++ lit " -> "
                        ++ path_str dest ++ lit ": " ++ e))
  end.

Definition clone_repo (w : world) (cfg : config) (repo_url : str) (dest_dir : path)
  : bool * list event :=
  if dry_run cfg
  then (true, print_status (lit "[DRY RUN] Would clone: " ++ repo_url) "info")
  else
    let '((rc, _, err), evs) :=
      run_command w [lit "git"; lit "clone"; lit "--depth"; PyStr.of_nat 1;
                     repo_url; path_str dest_dir] false 0 in
    let pre := log "INFO" (lit "Cloning repository: " ++ repo_url ++ lit " -> "
                            ++ path_str dest_dir) ++ evs in
    if (rc =? 0)%Z
    then (true, pre ++ print_status (lit "Repository cloned") "ok")
    else (false, pre ++ log "ERROR" (lit "Clone failed: " ++ err)).

Definition init_repo (w : world) (dest_dir : path) (repo_url : str)
  : bool * list event :=
  let '((rc, _, _), evs) := run_command w [lit "git"; lit "init"] false 0 in
  if negb (rc =? 0)%Z
  then (false, EMkdir dest_dir :: evs)
  else
    (true,
     EMkdir dest_dir :: evs
     ++ snd (run_command w [lit "git"; lit "-C"; path_str dest_dir; lit "remote";
                            lit "add"; lit "origin"; repo_url] false 0)).

(** The [for branch in ("main", "master")] loop of [push_to_repo]; the
    second component is the last [err]. *)
Fixpoint push_branches (w : world) (repo_dir : path) (branches : list string) (err : str)
  : bool * str * list event :=
  match branches with
  | [] => (false, err, [])
  | branch :: rest =>
      let '((rc, _, err'), evs) :=
        run_command w [lit "git"; lit "-C"; path_str repo_dir; lit "push"; lit "-u";
                       lit "origin"; lit branch] false 60 in
      if (rc =? 0)%Z || PyStr.contains err' (lit "Everything up-to-date")
      then (true, err', evs)
      else let '(ok, e, evs') := push_branches w repo_dir rest err' in
           (ok, e, evs ++ evs')
  end.

Definition push_to_repo (w : world) (cfg : config) (repo_dir : path) (message : str)
  : bool * list event :=
  if dry_run cfg
  then (true, print_status (lit "[DRY RUN] Would push: " ++ message) "info")
  else
    let pre := log "INFO" (lit "Pushing to repository: " ++ message) in
    let '((rc, _, err), evs_add) :=
      run_command w [lit "git"; lit "-C"; path_str repo_dir; lit "add"; lit "-A"] false 0 in
    if negb (rc =? 0)%Z
    then (false, pre ++ evs_add ++ print_error (lit "git add failed: " ++ err))
    else
      let '((rc, _, err), evs_commit) :=
        run_command w [lit "git"; lit "-C"; path_str repo_dir; lit "commit"; lit "-m";
                       message] false 0 in
      let evs_diff :=
        if negb (rc =? 0)%Z
        then let '((rc2, _, _), evs) :=
               run_command w [lit "git"; lit "-C"; path_str repo_dir; lit "diff";
                              lit "--cached"; lit "--quiet"] false 0 in
             evs ++ if (rc2 =? 0)%Z then log "INFO" (lit "No changes to commit") else []
        else [] in
      let '(ok, _, evs_push) := push_branches w repo_dir ["main"; "master"] err in
      (ok,
       pre ++ evs_add ++ evs_commit ++ evs_diff ++ evs_push
       ++ if ok then []
          else print_error (lit "Push failed - check authentication and network")).

(** The host matched by [re.match(r"git@([^:]+):", repo_url)]. *)
Fixpoint until_colon (s : str) : option (str * str) :=
  match s with
  | [] => None
  | c :: r =>
      if Ascii.eqb c ":"%char then Some ([], r)
      else match until_colon r with
           | Some (h, t) => Some (c :: h, t)
           | None => None
           end
  end.

Definition scp_host (repo_url : str) : option str :=
  if PyStr.startswith repo_url (lit "git@")
  then match until_colon (skipn 4 repo_url) with
       | Some (c :: h, _) => Some (c :: h)
       | _ => None
       end
  else None.

Definition verify_ssh_connection (w : world) (repo_url : str) : bool * list event :=
  match scp_host repo_url with
  | None => (true, [])
  | Some host =>
      let '((_, out, err), evs) :=
        run_command w [lit "ssh"; lit "-T"; lit "-o"; lit "StrictHostKeyChecking=no";
                       lit "-o"; lit "ConnectTimeout=10"; lit "git@" ++ host] false 15 in
      let combined := PyStr.lower (out ++ err) in
      if PyStr.contains combined (lit "successfully authenticated")
         || PyStr.contains combined (lit "hi ")
      then (true, evs ++ print_status (lit "SSH connection verified") "ok")
      else (false, evs ++ print_error (lit "SSH authentication failed for " ++ host))
  end.

(** [strftime("%Y-%m-%dT%H:%M:%SZ")] *)
Definition strftime_iso (t : datetime) : str :=
  pad4 (year t) ++ lit "-" ++ pad2 (month t) ++ lit "-" ++ pad2 (day t) ++ lit "T"
  ++ pad2 (hour t) ++ lit ":" ++ pad2 (minute t) ++ lit ":" ++ pad2 (second t) ++ lit "Z".

Definition create_manifest (w : world) (cfg : config) (dest_dir : path)
    (backup_name backup_type : str) (shells : list str) (os_name arch pm : str)
  : bool * list event :=
  if dry_run cfg
  then (true, print_status (lit "[DRY RUN] Would create manifest") "info")
  else
    let m checksum :=
      {| m_version := VERSION;
         m_created := strftime_iso (now_utc w);
         m_backup_name := backup_name;
         m_backup_type := backup_type;
         m_user := match env_user w with Some u => u | None => lit "unknown" end;
         m_hostname := get_hostname w;
         m_os := os_name;
         m_arch := arch;
         m_package_manager := pm;
         m_default_shell := detect_shell w;
         m_shells := shells;
         m_checksum := checksum |} in
    let manifest_path := dest_dir // manifest_file cfg in
    match open_w w manifest_path with
    | Some e => (false, print_error (lit "Failed to write manifest: " ++ e))
    | None =>
        (true,
         EWriteJson manifest_path (m [])
         :: EWriteJson manifest_path (m (calculate_checksum w dest_dir))
         :: print_status (lit "Manifest created") "ok")
    end.

Definition check_dependencies (w : world) : bool * list event :=
  let required :=
    flat_map (fun dep =>
                if command_exists w dep then print_status (lit dep) "ok"
                else print_status (lit dep ++ lit " - MISSING") "error")
             ["git"; "curl"; "tar"] in
  let missing := filter (fun dep => negb (command_exists w dep)) ["git"; "curl"; "tar"] in
  let optional :=
    flat_map (fun dl =>
                if command_exists w (fst dl) then print_status (lit (snd dl)) "ok"
                else print_status (lit (snd dl) ++ lit " - not installed") "skip")
             [("jq", "jq (JSON parsing)"); ("ssh", "ssh")] in
  match missing with
  | [] => (true, required ++ optional)
  | _ =>
      (false,
       required ++ optional
       ++ print_error (lit "Missing required dependencies: "
                       ++ PyStr.join (lit " ") (map lit missing)))
  end.

(** ** Interaction

    Standard input is the list of what the user will type: a line, or an
    interrupt; once exhausted every read meets end of file.  [input]
    answers [None] for [EOFError] and [KeyboardInterrupt], which every
    caller catches together. *)

Inductive input_item :=
| Line (text : str)
| Interrupt.

Inductive category :=
| Fish | Bash | Zsh | Packages | Starship | GitConfig | Ssh | Conda | History | CloudCreds.

(** One step of an orchestrator: an effect of its own, or the call of a
    backup routine with what that routine did. *)
Inductive item :=
| Ev (e : event)
| Invoke (c : category) (body : list event).

Inductive exn :=
| SystemExit (code : Z)
| ValueError
| IndexError.

Inductive outcome (A : Type) :=
| Done (a : A)
| Raised (e : exn).

Arguments Done {A} a.
Arguments Raised {A} e.

Record state := {
  stdin : list input_item;
  trace : list item
}.

Definition M (A : Type) : Type := state -> outcome A * state.

Definition ret {A} (a : A) : M A := fun s => (Done a, s).

Definition bind {A B} (m : M A) (k : A -> M B) : M B :=
  fun s =>
    match m s with
    | (Done a, s') => k a s'
    | (Raised e, s') => (Raised e, s')
    end.

Definition raise {A} (e : exn) : M A := fun s => (Raised e, s).

Definition emit_items (l : list item) : M unit :=
  fun s => (Done tt, {| stdin := stdin s; trace := trace s ++ l |}).

Definition emit (l : list event) : M unit := emit_items (map Ev l).

Definition invoke (c : category) (body : list event) : M unit :=
  emit_items [Invoke c body].

Definition input : M (option str) :=
  fun s =>
    match stdin s with
    | [] => (Done None, s)
    | Line l :: rest => (Done (Some l), {| stdin := rest; trace := trace s |})
    | Interrupt :: rest => (Done None, {| stdin := rest; trace := trace s |})
    end.

Notation "x <- m ;; k" := (bind m (fun x => k))
  (at level 61, m at next level, right associativity).
Notation "m ;;; k" := (bind m (fun _ => k))
  (at level 61, right associativity).

Definition read_input (prompt : string) (default : str) : M str :=
  r <- input ;;
  match r with
  | Some l =>
      match PyStr.strip l with
      | [] => ret default
      | result => ret result
      end
  | None => ret default
  end.

Definition read_yes_no (prompt : str) (default : bool) : M bool :=
  r <- input ;;
  match r with
  | Some l =>
      match PyStr.lower (PyStr.strip l) with
      | [] => ret default
      | result => ret (str_eqb result (lit "y") || str_eqb result (lit "yes"))
      end
  | None => ret default
  end.

(** The numbered lines [read_choice] shows (colours off). *)
Fixpoint option_lines (i : nat) (options : list str) : list event :=
  match options with
  | [] => []
  | opt :: rest =>
      EOut (lit "      [" ++ PyStr.of_nat (i + 1) ++ lit "] " ++ opt)
      :: option_lines (S i) rest
  end.

(** The [while True] loop of [read_choice] over what is left of standard
    input, for [n] options: the outcome, the input left, what was shown. *)
Fixpoint read_choice_loop (n : nat) (inp : list input_item)
  : outcome Z * list input_item * list event :=
  match inp with
  | [] => (Done 1%Z, [], [])
  | Interrupt :: rest => (Done 1%Z, rest, [])
  | Line l :: rest =>
      let retry :=
        let '(o, rest', evs) := read_choice_loop n rest in
        (o, rest',
         print_error (lit "Invalid choice. Please enter 1-" ++ PyStr.of_nat n) ++ evs) in
      match PyStr.strip l with
      | [] => (Done 1%Z, rest, [])
      | result =>
          if PyStr.isdigit result
          then match PyStr.int result with
               | None => (Raised ValueError, rest, [])
               | Some v =>
                   if (1 <=? v)%Z && (v <=? Z.of_nat n)%Z
                   then (Done v, rest, [])
                   else retry
               end
          else retry
      end
  end.

Definition read_choice (prompt : string) (options : list str) : M Z :=
  fun s =>
    let '(o, rest, evs) := read_choice_loop (length options) (stdin s) in
    (o, {| stdin := rest;
           trace := trace s ++ map Ev (option_lines 0 options ++ evs) |}).

(** [l[i]]: a negative index counts from the end, and [None] stands for
    [IndexError]. *)
Definition py_index {A} (l : list A) (i : Z) : option A :=
  if (0 <=? i)%Z then nth_error l (Z.to_nat i)
  else if (- Z.of_nat (length l) <=? i)%Z
       then nth_error l (Z.to_nat (Z.of_nat (length l) + i))
       else None.

(** ** [backup.py]: the category routines *)

Module Backup.

Definition backup_fish (w : world) (cfg : config) (dest_dir : path) : list event :=
  let fish_dir := home cfg // ".config" // "fish" in
  if negb (is_dir w fish_dir)
  then print_status (lit "Fish config not found") "skip"
  else
    let shells_dir := dest_dir // "shells" // "fish" in
    EMkdir shells_dir ::
    if dry_run cfg
    then print_status (lit "[DRY RUN] Would backup Fish config") "info"
    else
      let archive := shells_dir // "fish_config.tar.gz" in
      ETar archive fish_dir (lit "fish") ::
      match tar_gz w archive fish_dir with
      | None => print_status (lit "Fish config") "ok"
      | Some e => print_error (lit "Fish backup failed: " ++ e)
      end.

(** The loop shared by [backup_bash] and [backup_zsh]: copy each listed
    file found in the home directory, unless in dry run, and count it. *)
Fixpoint copy_found (w : world) (cfg : config) (shells_dir : path) (files : list string)
  : list event * nat :=
  match files with
  | [] => ([], 0)
  | f :: rest =>
      let src := home cfg // f in
      let '(evs, found) := copy_found w cfg shells_dir rest in
      if is_file w src
      then ((if negb (dry_run cfg) then snd (copy_file w src (shells_dir // f)) else [])
            ++ evs, S found)
      else (evs, found)
  end.

Definition backup_bash (w : world) (cfg : config) (dest_dir : path) : list event :=
  let files := [".bashrc"; ".bash_aliases"; ".bash_profile"; ".profile"; ".bash_logout"] in
  let shells_dir := dest_dir // "shells" // "bash" in
  let '(evs, found) := copy_found w cfg shells_dir files in
  EMkdir shells_dir :: evs
  ++ if 0 <? found
     then print_status (lit "Bash config (" ++ PyStr.of_nat found ++ lit " files)") "ok"
     else print_status (lit "Bash config not found") "skip".

Definition backup_zsh (w : world) (cfg : config) (dest_dir : path) : list event :=
  let files := [".zshrc"; ".zprofile"; ".zshenv"; ".zlogin"; ".zlogout"] in
  let shells_dir := dest_dir // "shells" // "zsh" in
  let '(evs, found) := copy_found w cfg shells_dir files in
  let omz_dir := home cfg // ".oh-my-zsh" in
  EMkdir shells_dir :: evs
  ++ if is_dir w omz_dir
     then (if negb (dry_run cfg)
           then let archive := shells_dir // "ohmyzsh.tar.gz" in
                ETar archive omz_dir (lit ".oh-my-zsh") ::
                match tar_gz w archive omz_dir with
                | None => []
                | Some e => log "WARN" (lit "Oh-My-Zsh backup failed: " ++ e)
                end
           else [])
          ++ print_status (lit "Zsh config + Oh-My-Zsh") "ok"
     else if 0 <? found
     then print_status (lit "Zsh config (" ++ PyStr.of_nat found ++ lit " files)") "ok"
     else print_status (lit "Zsh config not found") "skip".

(** One query of a package manager: run it and, on exit status zero, write
    [render out] to [file]. *)
Definition export_list (w : world) (cmd : list string) (file : path) (render : str -> str)
  : list event :=
  let '((rc, out, _), evs) := run_command w (map lit cmd) false 0 in
  evs ++ if (rc =? 0)%Z then [EWriteText file (render out)] else [].

(** ["\n".join(l for l in out.splitlines() if "Listing..." not in l) + "\n"] *)
Definition drop_listing (out : str) : str :=
  PyStr.join (lit (String "010"%char ""))
    (filter (fun l => negb (PyStr.contains l (lit "Listing..."))) (PyStr.splitlines out))
  ++ lit (String "010"%char "").

Definition backup_packages (w : world) (cfg : config) (dest_dir : path) (pm : str)
  : list event :=
  let pkg_dir := dest_dir // "packages" in
  EMkdir pkg_dir ::
  if dry_run cfg
  then print_status (lit "[DRY RUN] Would backup package list (" ++ pm ++ lit ")") "info"
  else if str_eqb pm (lit "apt") then
    export_list w ["apt"; "list"; "--installed"] (pkg_dir // "apt_packages.txt") drop_listing
    ++ export_list w ["apt-mark"; "showmanual"] (pkg_dir // "apt_manual.txt") id
    ++ print_status (lit "APT packages") "ok"
  else if str_eqb pm (lit "brew") then
    export_list w ["brew"; "list"; "--formula"] (pkg_dir // "brew_formula.txt") id
    ++ export_list w ["brew"; "list"; "--cask"] (pkg_dir // "brew_cask.txt") id
    ++ export_list w ["brew"; "leaves"] (pkg_dir // "brew_leaves.txt") id
    ++ print_status (lit "Homebrew packages") "ok"
  else if str_eqb pm (lit "dnf") || str_eqb pm (lit "yum") then
    export_list w ["rpm"; "-qa"] (pkg_dir // "rpm_packages.txt") id
    ++ print_status (lit "RPM packages") "ok"
  else if str_eqb pm (lit "pacman") then
    export_list w ["pacman"; "-Qe"] (pkg_dir // "pacman_packages.txt") id
    ++ export_list w ["pacman"; "-Qm"] (pkg_dir // "pacman_aur.txt") id
    ++ print_status (lit "Pacman packages") "ok"
  else print_status (lit "Package manager not supported: " ++ pm) "skip".

Definition backup_starship (w : world) (cfg : config) (dest_dir : path) : list event :=
  let src := home cfg // ".config" // "starship.toml" in
  if negb (is_file w src)
  then print_status (lit "Starship config not found") "skip"
  else
    let cfg_dir := dest_dir // "config" in
    EMkdir cfg_dir ::
    (if negb (dry_run cfg) then snd (copy_file w src (cfg_dir // "starship.toml")) else [])
    ++ print_status (lit "Starship config") "ok".

Definition backup_git_config (w : world) (cfg : config) (dest_dir : path) : list event :=
  let src := home cfg // ".gitconfig" in
  if negb (is_file w src)
  then print_status (lit "Git config not found") "skip"
  else
    let cfg_dir := dest_dir // "config" in
    EMkdir cfg_dir ::
    (if negb (dry_run cfg) then snd (copy_file w src (cfg_dir // ".gitconfig")) else [])
    ++ print_status (lit "Git config") "ok".

Definition backup_ssh (w : world) (cfg : config) (dest_dir : path) : bool * list event :=
  let ssh_dir := home cfg // ".ssh" in
  if negb (is_dir w ssh_dir)
  then (true, print_status (lit "SSH directory not found") "skip")
  else
    let out_dir := dest_dir // "ssh" in
    if dry_run cfg
    then (true, EMkdir out_dir :: print_status (lit "[DRY RUN] Would backup SSH keys") "info")
    else
      let archive := out_dir // "ssh_backup.tar.gz" in
      match tar_gz w archive ssh_dir with
      | None =>
          (true,
           EMkdir out_dir :: ETar archive ssh_dir (lit ".ssh")
           :: print_status (lit "SSH keys") "ok")
      | Some e =>
          (false,
           EMkdir out_dir :: ETar archive ssh_dir (lit ".ssh")
           :: print_status (lit "SSH keys backup failed") "error"
           ++ log "ERROR" (lit "SSH backup error: " ++ e))
      end.

(** The environment names [backup_conda] reads off [conda env list]. *)
Definition conda_env_name (line : str) : option str :=
  let line := PyStr.strip line in
  match line with
  | [] => None
  | _ =>
      if PyStr.startswith line (lit "#") then None
      else
        let parts := PyStr.split line in
        let name := hd [] parts in
        if negb (str_eqb name (lit "*"))
           && PyStr.isalnum (PyStr.remove_char "_"%char (PyStr.remove_char "-"%char name))
        then Some name
        else None
  end.

Definition conda_env_names (out : str) : list str :=
  flat_map (fun line => match conda_env_name line with Some n => [n] | None => [] end)
           (PyStr.splitlines out).

(** The export loop: what it does and how many environments it wrote. *)
Fixpoint export_envs (w : world) (conda_bin : str) (conda_dir : path) (envs : list str)
  : list event * nat :=
  match envs with
  | [] => ([], 0)
  | env :: rest =>
      let '((rc, out, _), evs) :=
        run_command w [conda_bin; lit "env"; lit "export"; lit "-n"; env] false 30 in
      let '(evs', count) := export_envs w conda_bin conda_dir rest in
      if (rc =? 0)%Z
      then (evs ++ EWriteText (conda_dir ++ [env ++ lit ".yml"]) out :: evs', S count)
      else (evs ++ evs', count)
  end.

Definition conda_paths (cfg : config) : list path :=
  [home cfg // "miniconda3";
   home cfg // "anaconda3";
   home cfg // "miniforge3";
   map lit ["opt"; "homebrew"; "Caskroom"; "miniconda"; "base"];
   map lit ["usr"; "local"; "miniconda3"]].

Definition backup_conda (w : world) (cfg : config) (dest_dir : path) : bool * list event :=
  match find (fun p => is_file w (p // "bin" // "conda")) (conda_paths cfg) with
  | None => (true, print_status (lit "Conda not found") "skip")
  | Some conda_path =>
      let conda_dir := dest_dir // "conda" in
      if dry_run cfg
      then (true,
            EMkdir conda_dir
            :: print_status (lit "[DRY RUN] Would backup Conda environments") "info")
      else
        let conda_bin := path_str (conda_path // "bin" // "conda") in
        let '((rc, out, _), evs) :=
          run_command w [conda_bin; lit "env"; lit "list"] false 10 in
        if negb (rc =? 0)%Z
        then (true,
              EMkdir conda_dir :: evs
              ++ print_status (lit "Conda environments (timeout or error)") "warn")
        else
          let envs := conda_env_names out in
          let '(evs', count) := export_envs w conda_bin conda_dir envs in
          (true,
           EMkdir conda_dir :: evs ++ evs'
           ++ if 0 <? count
              then print_status (lit "Conda environments (" ++ PyStr.of_nat count ++ lit ")") "ok"
              else print_status (lit "Conda environments (none exported)") "warn")
  end.

(** The loop of [backup_history] over the two history files. *)
Fixpoint copy_histories (w : world) (cfg : config) (history_dir : path) (names : list string)
  : list event * bool :=
  match names with
  | [] => ([], false)
  | name :: rest =>
      let src := home cfg // name in
      let '(evs, found) := copy_histories w cfg history_dir rest in
      if is_file w src
      then let '(ok, evs0) := copy_file w src (history_dir // name) in
           (evs0 ++ evs, ok || found)
      else (evs, found)
  end.

Definition backup_history (w : world) (cfg : config) (dest_dir : path) : list event :=
  let history_dir := dest_dir // "history" in
  EMkdir history_dir ::
  if dry_run cfg
  then print_status (lit "[DRY RUN] Would backup shell history") "info"
  else
    let '(evs, found) := copy_histories w cfg history_dir [".bash_history"; ".zsh_history"] in
    let fish_hist := home cfg // ".local" // "share" // "fish" in
    let '(evs_fish, found) :=
      if is_dir w fish_hist
      then ([ECopyTree fish_hist (history_dir // "fish")],
            match copytree w fish_hist (history_dir // "fish") with
            | None => true
            | Some _ => found
            end)
      else ([], found) in
    evs ++ evs_fish
    ++ if found
       then print_status (lit "Shell history") "ok"
       else print_status (lit "Shell history (not found)") "skip".

(** The loop of [backup_cloud_creds] over the three credential stores. *)
Fixpoint archive_clouds (w : world) (cloud_dir : path)
    (stores : list (string * path * string)) : list event * nat :=
  match stores with
  | [] => ([], 0)
  | (name, src_path, arcname) :: rest =>
      let '(evs, found) := archive_clouds w cloud_dir rest in
      if is_dir w src_path
      then
        let archive := cloud_dir ++ [lit name ++ lit ".tar.gz"] in
        match tar_gz w archive src_path with
        | None => (ETar archive src_path (lit arcname) :: evs, S found)
        | Some e =>
            (ETar archive src_path (lit arcname)
             :: log "WARN" (lit "Cloud creds backup failed for " ++ lit name ++ lit ": " ++ e)
             ++ evs, found)
        end
      else (evs, found)
  end.

Definition backup_cloud_creds (w : world) (cfg : config) (dest_dir : path) : list event :=
  let cloud_dir := dest_dir // "config" // "cloud" in
  let '(evs, found) :=
    if negb (dry_run cfg)
    then archive_clouds w cloud_dir
           [("aws", home cfg // ".aws", ".aws");
            ("azure", home cfg // ".azure", ".azure");
            ("gcloud", home cfg // ".config" // "gcloud", "gcloud")]
    else ([], 0) in
  EMkdir cloud_dir :: evs
  ++ if (0 <? found) || dry_run cfg
     then print_status (lit "Cloud credentials (" ++ PyStr.of_nat found ++ lit ")") "ok"
     else print_status (lit "Cloud credentials not found") "skip".

(** A category routine by name, with the package manager [backup_packages]
    is given. *)
Definition run_category (c : category) (w : world) (cfg : config) (dest_dir : path) (pm : str)
  : list event :=
  match c with
  | Fish => backup_fish w cfg dest_dir
  | Bash => backup_bash w cfg dest_dir
  | Zsh => backup_zsh w cfg dest_dir
  | Packages => backup_packages w cfg dest_dir pm
  | Starship => backup_starship w cfg dest_dir
  | GitConfig => backup_git_config w cfg dest_dir
  | Ssh => snd (backup_ssh w cfg dest_dir)
  | Conda => snd (backup_conda w cfg dest_dir)
  | History => backup_history w cfg dest_dir
  | CloudCreds => backup_cloud_creds w cfg dest_dir
  end.

End Backup.

(** ** [backup.py]: the orchestrator *)

Module Orchestrator.

Import Backup.

(** What [do_backup] holds once the backup type has been chosen. *)
Record chosen := {
  os_name : str;
  arch : str;
  pm : str;
  repo_url : str;
  default_shell : str;
  backup_name : str;
  type_choice : Z
}.

(** [s.capitalize()] on the three shell names. *)
Definition capitalize (s : string) : str :=
  match lit s with
  | c :: r => ascii_of_nat (PyStr.ord c - 32) :: r
  | [] => []
  end.

(** [do_backup] up to the choice of the backup type. *)
Definition do_backup_ask (w : world) (cfg : config) : M chosen :=
  let '(ok, evs) := check_dependencies w in
  emit evs ;;;
  if negb ok then raise (SystemExit 1)
  else
    let '(os_name, arch) := detect_os w in
    let pm := detect_package_manager w os_name in
    emit (print_status (lit "Operating System: " ++ os_name ++ lit " (" ++ arch ++ lit ")") "info") ;;;
    emit (print_status (lit "Package Manager: " ++ pm) "info") ;;;
    repo_url <- read_input "Repository URL" [] ;;
    match repo_url with
    | [] => emit (print_error (lit "Repository URL is required")) ;;; raise (SystemExit 1)
    | _ =>
        let hostname :=
          filter (fun c => PyStr.char_isalnum c || Ascii.eqb c "-"%char)
                 (PyStr.lower (get_hostname w)) in
        let default_shell := detect_shell w in
        let date_stamp := strftime_date (now w) in
        let default_name := default_shell ++ lit "-" ++ hostname ++ lit "-" ++ date_stamp in
        backup_name <- read_input "Backup name" default_name ;;
        let backup_name := Sanitize.sanitize_name (now w) backup_name in
        type_choice <- read_choice "Select backup type"
                         [lit "Full backup (personal use)";
                          lit "Shareable backup (safe to share)"] ;;
        ret {| os_name := os_name; arch := arch; pm := pm; repo_url := repo_url;
               default_shell := default_shell; backup_name := backup_name;
               type_choice := type_choice |}
    end.

(** The shell selection loop. *)
Fixpoint select_shells (w : world) (names : list string) : M (list str) :=
  match names with
  | [] => ret []
  | shell_name :: rest =>
      if command_exists w shell_name
      then yes <- read_yes_no (lit "    Backup " ++ capitalize shell_name ++ lit "?") true ;;
           more <- select_shells w rest ;;
           ret (if yes then lit shell_name :: more else more)
      else select_shells w rest
  end.

(** The loop over the selected shells. *)
Definition backup_shells (w : world) (cfg : config) (backup_dir : path) (shells : list str)
  : list item :=
  flat_map (fun shell =>
              if str_eqb shell (lit "fish") then [Invoke Fish (backup_fish w cfg backup_dir)]
              else if str_eqb shell (lit "bash") then [Invoke Bash (backup_bash w cfg backup_dir)]
              else if str_eqb shell (lit "zsh") then [Invoke Zsh (backup_zsh w cfg backup_dir)]
              else [])
           shells.

(** [do_backup] from the choice of the backup type on.  The size estimate,
    which reads sizes and prints one line, is left out. *)
Definition do_backup_run (w : world) (cfg : config) (c : chosen) : M unit :=
  let is_shareable := (type_choice c =? 2)%Z in
  flags <-
    (if is_shareable
     then include_conda <- read_yes_no (lit "Include Conda environments?") true ;;
          ret (false, false, false, false, include_conda)
     else include_ssh <- read_yes_no (lit "Include SSH keys?") true ;;
          include_git_cfg <- read_yes_no (lit "Include Git config?") true ;;
          include_history <- read_yes_no (lit "Include shell history?") false ;;
          include_cloud_creds <-
            read_yes_no (lit "Include cloud credentials (AWS/Azure/GCP)?") false ;;
          include_conda <- read_yes_no (lit "Include Conda environments?") true ;;
          ret (include_ssh, include_git_cfg, include_history, include_cloud_creds,
               include_conda)) ;;
  let '(include_ssh, include_git_cfg, include_history, include_cloud_creds, include_conda) :=
    flags in
  shells_to_backup <- select_shells w ["fish"; "bash"; "zsh"] ;;
  emit [EMkdir (temp_dir cfg)] ;;;
  let backup_dir := temp_dir cfg // "backup" ++ [backup_name c] in
  emit (map (fun sub => EMkdir (backup_dir // sub))
            ["shells"; "packages"; "config"; "conda"; "ssh"]) ;;;
  emit_items (backup_shells w cfg backup_dir shells_to_backup) ;;;
  invoke Packages (backup_packages w cfg backup_dir (pm c)) ;;;
  invoke Starship (backup_starship w cfg backup_dir) ;;;
  (if include_git_cfg
   then invoke GitConfig (backup_git_config w cfg backup_dir)
   else emit (print_status (lit "Git config (excluded)") "skip")) ;;;
  (if include_ssh
   then let '(ok, evs) := backup_ssh w cfg backup_dir in
        invoke Ssh evs ;;;
        if negb ok then emit (print_error (lit "SSH backup failed, but continuing..."))
        else ret tt
   else emit (print_status (lit "SSH keys (excluded)") "skip")) ;;;
  (if include_conda
   then invoke Conda (snd (backup_conda w cfg backup_dir))
   else emit (print_status (lit "Conda environments (excluded)") "skip")) ;;;
  (if include_history
   then invoke History (backup_history w cfg backup_dir)
   else emit (print_status (lit "Shell history (excluded)") "skip")) ;;;
  (if include_cloud_creds
   then invoke CloudCreds (backup_cloud_creds w cfg backup_dir)
   else emit (print_status (lit "Cloud credentials (excluded)") "skip")) ;;;
  let backup_type := if is_shareable then lit "shareable" else lit "full" in
  emit (snd (create_manifest w cfg backup_dir (backup_name c) backup_type shells_to_backup
               (os_name c) (arch c) (pm c))) ;;;
  let git_dir := temp_dir cfg // "git" in
  (if PyStr.startswith (repo_url c) (lit "git@")
   then let '(ok, evs) := verify_ssh_connection w (repo_url c) in
        emit evs ;;;
        if negb ok then raise (SystemExit 1) else ret tt
   else ret tt) ;;;
  (let '(cloned, evs) := clone_repo w cfg (repo_url c) git_dir in
   emit evs ;;;
   if negb cloned
   then let '(ok, evs) := init_repo w git_dir (repo_url c) in
        emit evs ;;;
        if negb ok
        then emit (print_error (lit "Failed to initialize git repository")) ;;;
             raise (SystemExit 1)
        else ret tt
   else ret tt) ;;;
  let backups_dest := git_dir // "backups" in
  emit [EMkdir backups_dest; ECopyTree backup_dir (backups_dest ++ [backup_name c])] ;;;
  match copytree w backup_dir (backups_dest ++ [backup_name c]) with
  | Some e =>
      emit (print_error (lit "Failed to copy backup files: " ++ e)) ;;;
      raise (SystemExit 1)
  | None =>
      emit (print_status (lit "Backup files copied") "ok") ;;;
      let '(pushed, evs) :=
        push_to_repo w cfg git_dir (lit "Backup: " ++ backup_name c) in
      emit evs ;;;
      if pushed
      then emit (print_status (lit "Pushed to repository") "ok")
      else emit (print_error (lit "Failed to push to repository")) ;;;
           raise (SystemExit 1)
  end.

Definition do_backup (w : world) (cfg : config) : M unit :=
  c <- do_backup_ask w cfg ;;
  do_backup_run w cfg c.

(** ** [restore.py]: from the start of [do_restore] to the chosen backup *)

(** [sorted([d.name for d in backups_dir.iterdir() if d.is_dir()])] *)
Definition list_backups (w : world) (git_dir : path) : list str :=
  let backups_dir := git_dir // "backups" in
  if is_dir w backups_dir
  then py_sorted id PyStr.leb
         (filter (fun name => is_dir w (backups_dir ++ [name])) (iterdir w backups_dir))
  else [].

(** The listing and the choice, once the repository is cloned. *)
Definition select_backup (w : world) (git_dir : path) : M str :=
  let backups := list_backups w git_dir in
  match backups with
  | [] => emit (print_error (lit "No backups found in repository")) ;;; raise (SystemExit 1)
  | _ =>
      emit (print_status (lit "Found " ++ PyStr.of_nat (length backups) ++ lit " backup(s)") "ok") ;;;
      backup_choice <- read_choice "Choose backup to restore" backups ;;
      match py_index backups (backup_choice - 1) with
      | None => raise IndexError
      | Some backup_name =>
          emit (print_status (lit "Selected: " ++ backup_name) "info") ;;;
          ret backup_name
      end
  end.

Definition do_restore_select (w : world) (cfg : config) : M str :=
  let '(ok, evs) := check_dependencies w in
  emit evs ;;;
  if negb ok then raise (SystemExit 1)
  else
    let '(os_name, arch) := detect_os w in
    let pm := detect_package_manager w os_name in
    emit (print_status (lit "Operating System: " ++ os_name ++ lit " (" ++ arch ++ lit ")") "info") ;;;
    emit (print_status (lit "Package Manager: " ++ pm) "info") ;;;
    repo_url <- read_input "Repository URL" [] ;;
    match repo_url with
    | [] => emit (print_error (lit "Repository URL is required")) ;;; raise (SystemExit 1)
    | _ =>
        emit [EMkdir (temp_dir cfg)] ;;;
        let git_dir := temp_dir cfg // "git" in
        (if PyStr.startswith repo_url (lit "git@")
         then let '(ok, evs) := verify_ssh_connection w repo_url in
              emit evs ;;;
              if negb ok then raise (SystemExit 1) else ret tt
         else ret tt) ;;;
        let '(cloned, evs) := clone_repo w cfg repo_url git_dir in
        emit evs ;;;
        if negb cloned
        then emit (print_error (lit "Failed to clone repository")) ;;; raise (SystemExit 1)
        else select_backup w git_dir
    end.

End Orchestrator.

(** ** What git makes of the commands of [init_repo]

    Only what the claim on the fallback needs: which directories hold a
    repository.  [git init] creates one in the working directory of the
    process; [git -C dir remote add] creates none, and finds the
    repository of [dir] or of one of its ancestors. *)

Module Git.

Record view := {
  cwd : path;
  repos : list path
}.

Fixpoint is_prefix (p q : path) : bool :=
  match p, q with
  | [], _ => true
  | a :: p', b :: q' => str_eqb a b && is_prefix p' q'
  | _ :: _, [] => false
  end.

Definition discovers (g : view) (dir : path) : bool :=
  existsb (fun r => is_prefix r dir) (repos g).

Definition after (g : view) (e : event) : view :=
  match e with
  | ERun cmd =>
      if list_eq_dec (list_eq_dec ascii_dec) cmd [lit "git"; lit "init"]
      then {| cwd := cwd g; repos := cwd g :: repos g |}
      else g
  | _ => g
  end.

Definition replay (evs : list event) (g : view) : view := fold_left after evs g.

End Git.

(** ** Vocabulary of the statements *)

(** A regular file named [manifest.json], wherever it lies. *)
Definition is_manifest_file (e : entry) : bool :=
  match snd e with
  | File _ => str_eqb (path_name (fst e)) (lit "manifest.json")
  | Dir => false
  end.

Definition not_manifest_file (e : entry) : bool := negb (is_manifest_file e).

(** The listing as [calculate_checksum] walks it. *)
Definition sorted_entries (l : list entry) : list entry := py_sorted fst PyPath.leb l.

(** Replacing the entry at path [p]. *)
Definition put (p : path) (n : node) (e : entry) : entry :=
  if list_eq_dec (list_eq_dec ascii_dec) (fst e) p then (p, n) else e.

(** The step is the call of the given routine. *)
Definition calls (c : category) (i : item) : Prop :=
  match i with
  | Invoke c' _ => c' = c
  | Ev _ => False
  end.

(** The categories a shareable backup leaves out. *)
Definition sensitive (c : category) : bool :=
  match c with
  | Ssh | GitConfig | History | CloudCreds => true
  | _ => false
  end.

Definition is_sensitive_call (i : item) : bool :=
  match i with
  | Invoke c _ => sensitive c
  | Ev _ => false
  end.

Definition no_sensitive_call (i : item) : Prop := is_sensitive_call i = false.

(** A computation adds to the trace only steps satisfying [P]. *)
Definition keeps (P : item -> Prop) {A} (m : M A) : Prop :=
  forall s, Forall P (trace s) -> Forall P (trace (snd (m s))).

(** The program starts with what the user will type and an empty trace. *)
Definition initial (typed : list input_item) : state :=
  {| stdin := typed; trace := [] |}.

(** The backup type read by [do_backup], if the run gets that far. *)
Definition chosen_type (w : world) (cfg : config) (s : state) : option Z :=
  match fst (Orchestrator.do_backup_ask w cfg s) with
  | Done c => Some (Orchestrator.type_choice c)
  | Raised _ => None
  end.

(** What is allowed to a routine in dry run: status lines, log appends
    and directory creations. *)
Definition dry_event (e : event) : bool :=
  match e with
  | EPrint _ _ | EError _ | ELog _ _ | EMkdir _ => true
  | _ => false
  end.

(** The statuses of the status lines, in order. *)
Definition statuses (evs : list event) : list str :=
  flat_map (fun e => match e with EPrint st _ => [st] | _ => [] end) evs.

(** Some text is written to [file]. *)
Definition written (file : path) (evs : list event) : bool :=
  existsb (fun e =>
             match e with
             | EWriteText f _ =>
                 if list_eq_dec (list_eq_dec ascii_dec) f file then true else false
             | _ => false
             end) evs.

(** Running a command writes no file of the backup by itself. *)
Definition written_nothing_by_run (evs : list event) : bool :=
  forallb (fun e => negb (writes_file e)) evs.

(** The exit status [run_command] hands back. *)
Definition exit_status (w : world) (cmd : list string) (timeout : nat) : Z :=
  fst (fst (fst (run_command w (map lit cmd) false timeout))).

(** The queries of the two managers the claim on [backup_packages] names,
    each with the file it feeds, as the specification tabulates them. *)
Definition package_queries (pm : string) : list (list string * string) :=
  if String.eqb pm "apt"
  then [(["apt"; "list"; "--installed"], "apt_packages.txt");
        (["apt-mark"; "showmanual"], "apt_manual.txt")]
  else if String.eqb pm "pacman"
  then [(["pacman"; "-Qe"], "pacman_packages.txt");
        (["pacman"; "-Qm"], "pacman_aur.txt")]
  else [].

(** The specification's class for Conda names, [[A-Za-z0-9_-]+]. *)
Definition in_env_class (c : ascii) : bool :=
  PyStr.is_ascii_alnum c || Ascii.eqb c "_"%char || Ascii.eqb c "-"%char.

Definition matches_env_class (name : str) : bool :=
  negb (Nat.eqb (length name) 0) && forallb in_env_class name.

(** What [backup_conda] accepts in a name: letters and digits in the sense
    of [str.isalnum], hyphens and underscores. *)
Definition env_char (c : ascii) : bool :=
  PyStr.char_isalnum c || Ascii.eqb c "-"%char || Ascii.eqb c "_"%char.

(** ** A machine built from a list of files

    Used for the worked examples: the file system is a list of absolute
    entries, every executable exists, and sub-processes answer as the
    given function says. *)

Module Sample.

Definition path_eqb (p q : path) : bool :=
  if list_eq_dec (list_eq_dec ascii_dec) p q then true else false.

(** [d] is a proper ancestor of [p]. *)
Fixpoint below (d p : path) : bool :=
  match d, p with
  | [], _ :: _ => true
  | a :: d', b :: p' => str_eqb a b && below d' p'
  | _, _ => false
  end.

Definition machine (fs : list entry) (commands : list str -> nat -> proc_result) : world :=
  {| is_file := fun p =>
       existsb (fun e => path_eqb (fst e) p && match snd e with File _ => true | Dir => false end) fs;
     is_dir := fun p =>
       existsb (fun e => path_eqb (fst e) p && match snd e with Dir => true | File _ => false end) fs;
     iterdir := fun d =>
       map (fun e => path_name (fst e))
           (filter (fun e => path_eqb (path_parent (fst e)) d
                             && negb (Nat.eqb (length (fst e)) 0)) fs);
     rglob := fun d => filter (fun e => below d (fst e)) fs;
     which := fun _ => true;
     run := commands;
     copy2 := fun _ _ => None;
     tar_gz := fun _ _ => None;
     copytree := fun _ _ => None;
     open_w := fun _ => None;
     now := Build_datetime 2024 2 15 10 30 0;
     now_utc := Build_datetime 2024 2 15 9 30 0;
     system := lit "linux";
     machine := lit "x86_64";
     release := lit "6.1.0";
     node_name := lit "host1";
     env_user := Some (lit "alice");
     shell_name := lit "bash" |}.

Definition failing : list str -> nat -> proc_result :=
  fun _ _ => Exited 1 [] (lit "failed").

Definition succeeding : list str -> nat -> proc_result :=
  fun _ _ => Exited 0 [] [].

Definition settings (dry : bool) : config :=
  {| temp_dir := map lit ["tmp"; "shellpack_1"];
     manifest_file := "manifest.json";
     verbose := false;
     dry_run := dry;
     home := map lit ["home"; "alice"] |}.

Definition bytes (s : string) : list Byte.byte := list_byte_of_string s.

Definition backup_root : path := map lit ["tmp"; "shellpack_1"; "backup"; "b1"].

(** A staged backup: two shell files below [backup_root]. *)
Definition staged : list entry :=
  [(backup_root // "shells", Dir);
   (backup_root // "shells" // "bash", Dir);
   (backup_root // "shells" // "bash" // ".bashrc", File (Some (bytes "alias ll=ls")));
   (backup_root // "shells" // "bash" // ".profile", File (Some (bytes "umask 022")))].

(** The same with an empty file added. *)
Definition staged_plus_empty : list entry :=
  (backup_root // "shells" // "bash" // ".bash_logout", File (Some [])) :: staged.

(** The same listed in another order. *)
Definition staged_reordered : list entry := rev staged.

(** The same with one file changed. *)
Definition staged_edited : list entry :=
  [(backup_root // "shells", Dir);
   (backup_root // "shells" // "bash", Dir);
   (backup_root // "shells" // "bash" // ".bashrc", File (Some (bytes "alias ll=ls -l")));
   (backup_root // "shells" // "bash" // ".profile", File (Some (bytes "umask 022")))].

(** The same with manifests at the root and deeper. *)
Definition staged_with_manifests : list entry :=
  (backup_root // "manifest.json", File (Some (bytes "{}")))
  :: (backup_root // "shells" // "bash" // "manifest.json", File (Some (bytes "x")))
  :: staged.

(** A home directory with bash and starship files and nothing else. *)
Definition home_fs : list entry :=
  [(map lit ["home"; "alice"], Dir);
   (map lit ["home"; "alice"; ".bashrc"], File (Some (bytes "alias ll=ls")));
   (map lit ["home"; "alice"; ".config"], Dir);
   (map lit ["home"; "alice"; ".config"; "starship.toml"], File (Some (bytes "add_newline = false")))].

(** A cloned repository holding two backups (scenario B), listed out of
    order, and a stray file. *)
Definition repo_fs : list entry :=
  [(map lit ["tmp"; "shellpack_1"; "git"], Dir);
   (map lit ["tmp"; "shellpack_1"; "git"; "backups"], Dir);
   (map lit ["tmp"; "shellpack_1"; "git"; "backups"; "zsh-host2-20240215"], Dir);
   (map lit ["tmp"; "shellpack_1"; "git"; "backups"; "README.md"], File (Some (bytes "backups")));
   (map lit ["tmp"; "shellpack_1"; "git"; "backups"; "bash-host1-20240101"], Dir)].

Definition git_dir : path := map lit ["tmp"; "shellpack_1"; "git"].

(** A shareable backup in dry run: the URL, the default name, type 2, no
    Conda, and every shell. *)
Definition typed_shareable : list input_item :=
  [Line (lit "https://example.org/alice/backups.git"); Line []; Line (lit "2");
   Line (lit "n"); Line (lit "y"); Line (lit "y"); Line (lit "y")].

(** A full backup in dry run with every category accepted. *)
Definition typed_full : list input_item :=
  [Line (lit "https://example.org/alice/backups.git"); Line []; Line (lit "1");
   Line (lit "y"); Line (lit "y"); Line (lit "y"); Line (lit "y"); Line (lit "y")].

End Sample.

(** ** Further vocabulary *)

(** The exit status and the error text [run_command] hands back for a
    command given as it is run. *)
Definition rc_of (w : world) (cmd : list str) (timeout : nat) : Z :=
  fst (fst (fst (run_command w cmd false timeout))).

Definition err_of (w : world) (cmd : list str) (timeout : nat) : str :=
  snd (fst (run_command w cmd false timeout)).

Definition out_of (w : world) (cmd : list str) (timeout : nat) : str :=
  snd (fst (fst (run_command w cmd false timeout))).

(** The commands of [push_to_repo]. *)
Definition git_in (repo_dir : path) (args : list str) : list str :=
  lit "git" :: lit "-C" :: path_str repo_dir :: args.

Definition push_cmd (repo_dir : path) (branch : string) : list str :=
  git_in repo_dir [lit "push"; lit "-u"; lit "origin"; lit branch].

Definition add_cmd (repo_dir : path) : list str :=
  git_in repo_dir [lit "add"; lit "-A"].

Definition commit_cmd (repo_dir : path) (message : str) : list str :=
  git_in repo_dir [lit "commit"; lit "-m"; message].

Definition diff_cmd (repo_dir : path) : list str :=
  git_in repo_dir [lit "diff"; lit "--cached"; lit "--quiet"].

(** A push counts as done when it exits with zero or the remote says
    everything is up to date. *)
Definition push_accepted (w : world) (repo_dir : path) (branch : string) : bool :=
  (rc_of w (push_cmd repo_dir branch) 60 =? 0)%Z
  || PyStr.contains (err_of w (push_cmd repo_dir branch) 60) (lit "Everything up-to-date").

(** The processes started, in order. *)
Definition processes (evs : list event) : list (list str) :=
  flat_map (fun e => match e with ERun cmd => [cmd] | _ => [] end) evs.

(** The files copied, in order. *)
Definition copies (evs : list event) : list (path * path) :=
  flat_map (fun e => match e with ECopyFile s d => [(s, d)] | _ => [] end) evs.

(** The texts written, in order. *)
Definition texts (evs : list event) : list (path * str) :=
  flat_map (fun e => match e with EWriteText f c => [(f, c)] | _ => [] end) evs.

(** The routines called, in order. *)
Definition calls_of (tr : list item) : list category :=
  flat_map (fun i => match i with Invoke c _ => [c] | Ev _ => [] end) tr.

(** The place of a category in the order of [do_backup]. *)
Definition rank (c : category) : nat :=
  match c with
  | Fish => 0 | Bash => 1 | Zsh => 2 | Packages => 3 | Starship => 4
  | GitConfig => 5 | Ssh => 6 | Conda => 7 | History => 8 | CloudCreds => 9
  end.

(** A triple over traces: from a trace satisfying [P], the computation
    ends normally with a value and a trace satisfying [Q], or raises an
    exception with a trace satisfying [E]. *)
Definition triple {A} (P : list item -> Prop) (m : M A)
    (Q : A -> list item -> Prop) (E : exn -> list item -> Prop) : Prop :=
  forall s, P (trace s) ->
            match m s with
            | (Done a, s') => Q a (trace s')
            | (Raised e, s') => E e (trace s')
            end.

(** A string is clean for [sanitize_name]. *)
Definition clean_name (name : str) : Prop :=
  name <> [] /\ forallb Sanitize.allowed name = true
  /\ Sanitize.has_dotdot name = false /\ length name <= 100.

(** The package managers [detect_package_manager] looks for, in order. *)
Definition managers : list string := ["apt"; "dnf"; "yum"; "pacman"; "zypper"; "apk"].


(** What a prompt prints: status lines, errors, option lines, log appends. *)
Definition dry_talk (e : event) : bool :=
  match e with
  | EPrint _ _ | EError _ | EOut _ | ELog _ _ => true
  | _ => false
  end.

(** The routines called so far came in the order of [rank], each once,
    and all of them come before place [n]. *)
Definition in_order_below (n : nat) (tr : list item) : Prop :=
  StronglySorted lt (map rank (calls_of tr))
  /\ Forall (fun c => rank c < n) (calls_of tr).

(** [r] is [names] with some entries left out. *)
Fixpoint is_subseq (r : list str) (names : list string) {struct names} : bool :=
  match names with
  | [] => match r with [] => true | _ :: _ => false end
  | n :: names' =>
      match r with
      | [] => true
      | x :: r' => (str_eqb x (lit n) && is_subseq r' names') || is_subseq r names'
      end
  end.

(** The command is an [ssh] call. *)
Definition is_ssh (cmd : list str) : bool :=
  match cmd with
  | c :: _ => str_eqb c (lit "ssh")
  | [] => false
  end.

(** What [do_backup] itself does in dry run, outside the routines: it
    prints and logs, creates directories, copies the staged tree and
    probes the SSH connection. *)
Definition dry_top (e : event) : bool :=
  match e with
  | EPrint _ _ | EError _ | EOut _ | ELog _ _ | EMkdir _ | ECopyTree _ _ => true
  | ERun cmd => is_ssh cmd
  | _ => false
  end.

Definition dry_item (i : item) : bool :=
  match i with
  | Ev e => dry_top e
  | Invoke _ body => forallb dry_event body
  end.

(** The staged tree has been copied. *)
Definition copies_tree (tr : list item) : bool :=
  existsb (fun i => match i with Ev (ECopyTree _ _) => true | _ => false end) tr.

(** The invariant of a dry run, with the copy of the tree once [c] is set. *)
Definition dry_inv (c : bool) (tr : list item) : Prop :=
  forallb dry_item tr = true /\ (c = true -> copies_tree tr = true).

(** The machine [w] with the command [cmd] not installed. *)
Definition without (cmd : string) (w : world) : world :=
  {| is_file := is_file w; is_dir := is_dir w; iterdir := iterdir w; rglob := rglob w;
     which := fun c => negb (String.eqb c cmd) && which w c;
     run := run w; copy2 := copy2 w; tar_gz := tar_gz w; copytree := copytree w;
     open_w := open_w w; now := now w; now_utc := now_utc w; system := system w;
     machine := machine w; release := release w; node_name := node_name w;
     env_user := env_user w; shell_name := shell_name w |}.

(** All of [git], [curl] and [tar] are installed. *)
Definition has_required (w : world) : bool :=
  command_exists w "git" && command_exists w "curl" && command_exists w "tar".

(** The files of the home directory that [backup_bash] and [backup_zsh]
    look for and find. *)
Definition found_in_home (w : world) (cfg : config) (files : list string) : list string :=
  filter (fun f => is_file w (home cfg // f)) files.

(** The commands of [backup_conda]. *)
Definition conda_list_cmd (conda_bin : str) : list str :=
  [conda_bin; lit "env"; lit "list"].

Definition conda_export_cmd (conda_bin env : str) : list str :=
  [conda_bin; lit "env"; lit "export"; lit "-n"; env].

(** The environments whose export exits with zero. *)
Definition exported (w : world) (conda_bin : str) (envs : list str) : list str :=
  filter (fun env => (rc_of w (conda_export_cmd conda_bin env) 30 =? 0)%Z) envs.

(** A home directory with a Miniconda installation, and a [conda] that
    lists two environments and exports only [base]. *)
Definition conda_fs : list entry :=
  [(map lit ["home"; "alice"], Dir);
   (map lit ["home"; "alice"; "miniconda3"], Dir);
   (map lit ["home"; "alice"; "miniconda3"; "bin"], Dir);
   (map lit ["home"; "alice"; "miniconda3"; "bin"; "conda"], File None)].

Definition conda_commands : list str -> nat -> proc_result :=
  fun cmd _ =>
    match cmd with
    | [_; _; sub] =>
        if str_eqb sub (lit "list")
        then Exited 0 (lit "# conda environments:" ++ ["010"%char]
                       ++ lit "base     *  /home/alice/miniconda3" ++ ["010"%char]
                       ++ lit "ml-2024     /home/alice/miniconda3/envs/ml-2024"
                       ++ ["010"%char]) []
        else Exited 2 [] []
    | [_; _; _; _; env] =>
        if str_eqb env (lit "base") then Exited 0 (lit "name: base") []
        else Exited 1 [] (lit "failed")
    | _ => Exited 2 [] []
    end.

(** [str(conda_path / "bin" / "conda")] *)
Definition conda_bin_of (conda_path : path) : str :=
  path_str (conda_path // "bin" // "conda").

(** The operation raised no exception. *)
Definition succeeds {A} (o : option A) : bool :=
  match o with
  | None => true
  | Some _ => false
  end.

(** The history file [name] exists and its copy succeeds. *)
Definition history_copied (w : world) (cfg : config) (dest : path) (name : string) : bool :=
  is_file w (home cfg // name)
  && succeeds (copy2 w (home cfg // name) (dest // "history" // name)).

(** The fish history directory exists and its copy succeeds. *)
Definition fish_history_copied (w : world) (cfg : config) (dest : path) : bool :=
  is_dir w (home cfg // ".local" // "share" // "fish")
  && succeeds (copytree w (home cfg // ".local" // "share" // "fish")
                 (dest // "history" // "fish")).

(** A path component that names an entry of its directory: it is not
    empty, holds no slash, and is neither [.] nor [..]. *)
Definition plain (s : str) : bool :=
  negb (Nat.eqb (length s) 0)
  && forallb (fun c => negb (Ascii.eqb c "/"%char)) s
  && negb (str_eqb s (lit ".."))
  && negb (str_eqb s (lit ".")).

(** What the event creates or overwrites, the log apart. *)
Definition target (e : event) : option path :=
  match e with
  | EMkdir p => Some p
  | ECopyFile _ dest => Some dest
  | ETar archive _ _ => Some archive
  | EWriteText file _ => Some file
  | EWriteJson file _ => Some file
  | ECopyTree _ dest => Some dest
  | _ => None
  end.

(** [p] is [d] or lies below it. *)
Definition under (d p : path) : Prop :=
  exists rest, p = d ++ rest /\ forallb plain rest = true.

Definition writes_under (d : path) (e : event) : Prop :=
  match target e with
  | Some p => under d p
  | None => True
  end.




(** ** [cli.py]: the command line *)

Module Cli.

(** What [main] goes on to do once the arguments are read.
    [UnknownCommand arg] stands for the error line on [arg] followed by
    [SystemExit(1)]. *)
Inductive action :=
| ShowHelp
| ShowVersion
| DoBackup
| DoRestore
| UnknownCommand (arg : str).

Definition set_verbose (cfg : config) : config :=
  {| temp_dir := temp_dir cfg; manifest_file := manifest_file cfg; verbose := true;
     dry_run := dry_run cfg; home := home cfg |}.

Definition set_dry_run (cfg : config) : config :=
  {| temp_dir := temp_dir cfg; manifest_file := manifest_file cfg; verbose := verbose cfg;
     dry_run := true; home := home cfg |}.

(** The loop of [main] over the arguments: the settings as they stand
    when the loop is left, and what is called then. *)
Fixpoint main (args : list str) (cfg : config) : config * action :=
  match args with
  | [] => (cfg, ShowHelp)
  | arg :: rest =>
      if str_eqb arg (lit "--verbose") || str_eqb arg (lit "-v")
      then main rest (set_verbose cfg)
      else if str_eqb arg (lit "--dry-run")
      then main rest (set_dry_run cfg)
      else if str_eqb arg (lit "--help") || str_eqb arg (lit "-h") || str_eqb arg (lit "help")
      then (cfg, ShowHelp)
      else if str_eqb arg (lit "--version") || str_eqb arg (lit "version")
      then (cfg, ShowVersion)
      else if str_eqb arg (lit "backup")
      then (cfg, DoBackup)
      else if str_eqb arg (lit "restore")
      then (cfg, DoRestore)
      else (cfg, UnknownCommand arg)
  end.

(** The argument is one of the two options. *)
Definition is_option (arg : str) : bool :=
  str_eqb arg (lit "--verbose") || str_eqb arg (lit "-v") || str_eqb arg (lit "--dry-run").

(** What is called on a first argument that is no option. *)
Definition action_of (arg : str) : action :=
  snd (main [arg] {| temp_dir := []; manifest_file := ""; verbose := false;
                     dry_run := false; home := [] |}).

End Cli.

(** ** [core.py]: [retry_with_backoff] *)

Module Retry.

(** What one call of [func] does: it returns, raises an [Exception], or
    raises something that is no [Exception] (a [KeyboardInterrupt], a
    [SystemExit]), which [except Exception] lets through. *)
Inductive attempt (A : Type) :=
| Returns (a : A)
| Fails (e : str)
| Escapes (e : str).

Arguments Returns {A} a.
Arguments Fails {A} e.
Arguments Escapes {A} e.

Inductive step :=
| Call (n : nat)          (* [func()], at the attempt of that number *)
| Warn (message : str)    (* [log("WARN", ...)] *)
| Sleep (seconds : Z).    (* [time.sleep] *)

(** How [retry_with_backoff] ends.  [RaisedNone] is the [TypeError] of
    [raise None]; [SleepRefused] is the [ValueError] of [time.sleep] on a
    negative number; [OutOfFuel] is the model running out of steps. *)
Inductive result (A : Type) :=
| Value (a : A)
| Reraised (e : str)
| RaisedNone
| SleepRefused
| OutOfFuel.

Arguments Value {A} a.
Arguments Reraised {A} e.
Arguments RaisedNone {A}.
Arguments SleepRefused {A}.
Arguments OutOfFuel {A}.

Section Loop.

Context {A : Type}.
Variable func : nat -> attempt A.
Variables (max_attempts : nat) (max_delay : Z).

(** The [while] loop, one iteration per unit of fuel. *)
Fixpoint loop (fuel : nat) (attempt : nat) (current_delay : Z) (last_exc : option str)
  : result A * list step :=
  match fuel with
  | O => (OutOfFuel, [])
  | S fuel' =>
      if attempt <=? max_attempts
      then
        match func attempt with
        | Returns a => (Value a, [Call attempt])
        | Escapes e => (Reraised e, [Call attempt])
        | Fails e =>
            let warn :=
              Warn (lit "Attempt " ++ PyStr.of_nat attempt ++ lit "/"
                    ++ PyStr.of_nat max_attempts ++ lit " failed: " ++ e) in
            if attempt <? max_attempts
            then
              if (current_delay <? 0)%Z
              then (SleepRefused, [Call attempt; warn])
              else
                let '(r, steps) :=
                  loop fuel' (S attempt) (Z.min (current_delay * 2) max_delay) (Some e) in
                (r, Call attempt :: warn :: Sleep current_delay :: steps)
            else
              let '(r, steps) := loop fuel' (S attempt) current_delay (Some e) in
              (r, Call attempt :: warn :: steps)
        end
      else
        (match last_exc with Some e => Reraised e | None => RaisedNone end, [])
  end.

End Loop.

(** [retry_with_backoff(func, max_attempts, delay, max_delay)]; [func n]
    is what the [n]-th call of [func] does.  The loop runs while
    [attempt <= max_attempts] from [attempt = 1], so a [max_attempts]
    below one counts as zero. *)
Definition retry_with_backoff {A} (func : nat -> attempt A)
    (max_attempts delay max_delay : Z) : result A * list step :=
  loop func (Z.to_nat max_attempts) max_delay (S (Z.to_nat max_attempts)) 1 delay None.

(** The attempts made and the pauses taken, in order. *)
Definition calls (steps : list step) : list nat :=
  flat_map (fun s => match s with Call n => [n] | _ => [] end) steps.

Definition sleeps (steps : list step) : list Z :=
  flat_map (fun s => match s with Sleep d => [d] | _ => [] end) steps.

(** The pause after the [i]-th failure, counting from zero. *)
Fixpoint backoff (delay max_delay : Z) (i : nat) : Z :=
  match i with
  | O => delay
  | S j => Z.min (backoff delay max_delay j * 2) max_delay
  end.

(** A [func] that fails [n] times and then returns [a]. *)
Definition flaky {A} (n : nat) (a : A) : nat -> attempt A :=
  fun i => if i <=? n then Fails (lit "down") else Returns a.

End Retry.

(** ** [core.py]: the rollback stack *)

Module Rollback.

(** [add_rollback_action]: the stack afterwards and the log line. *)
Definition add_rollback_action (stack : list str) (action : str) : list str * list event :=
  (stack ++ [action], log "DEBUG" (lit "Added rollback action: " ++ action)).

(** [execute_rollback]: the stack afterwards and what is done.  Each
    action is handed to the shell, [/bin/sh -c action]. *)
Definition execute_rollback (stack : list str) : list str * list event :=
  match stack with
  | [] => ([], [])
  | _ =>
      ([],
       flat_map (fun action =>
                   log "INFO" (lit "Executing rollback: " ++ action)
                   ++ [ERun [lit "/bin/sh"; lit "-c"; action]])
                (rev stack)
       ++ print_status (lit "Rollback completed") "ok")
  end.

(** Adding the actions one after the other. *)
Definition add_all (stack : list str) (actions : list str) : list str :=
  fold_left (fun st a => fst (add_rollback_action st a)) actions stack.

End Rollback.

(** ** [restore.py]: the routines that copy files back *)

Module Restore.

(** The loop shared by [restore_bash] and [restore_zsh]: copy each listed
    file found in the backup to the home directory, unless in dry run,
    and count it. *)
Fixpoint copy_back (w : world) (cfg : config) (from : path) (files : list string)
  : list event * nat :=
  match files with
  | [] => ([], 0)
  | f :: rest =>
      let src := from // f in
      let '(evs, found) := copy_back w cfg from rest in
      if is_file w src
      then ((if negb (dry_run cfg) then snd (copy_file w src (home cfg // f)) else [])
            ++ evs, S found)
      else (evs, found)
  end.

Definition restore_bash (w : world) (cfg : config) (src_dir : path) : list event :=
  let files := [".bashrc"; ".bash_aliases"; ".bash_profile"; ".profile"; ".bash_logout"] in
  let '(evs, found) := copy_back w cfg (src_dir // "shells" // "bash") files in
  evs
  ++ if 0 <? found
     then print_status (lit "Bash config (" ++ PyStr.of_nat found ++ lit " files)") "ok"
     else print_status (lit "Bash config not in backup") "skip".

Definition restore_starship (w : world) (cfg : config) (src_dir : path) : list event :=
  let src := src_dir // "config" // "starship.toml" in
  if negb (is_file w src)
  then print_status (lit "Starship config not in backup") "skip"
  else if dry_run cfg
  then print_status (lit "[DRY RUN] Would restore Starship config") "info"
  else
    let dest := home cfg // ".config" in
    EMkdir dest :: snd (copy_file w src (dest // "starship.toml"))
    ++ print_status (lit "Starship config") "ok".

Definition restore_git_config (w : world) (cfg : config) (src_dir : path) : list event :=
  let src := src_dir // "config" // ".gitconfig" in
  if negb (is_file w src)
  then print_status (lit "Git config not in backup") "skip"
  else if dry_run cfg
  then print_status (lit "[DRY RUN] Would restore Git config") "info"
  else
    snd (copy_file w src (home cfg // ".gitconfig"))
    ++ print_status (lit "Git config") "ok".

(** The loop of [restore_history] over the two history files. *)
Fixpoint copy_histories_back (w : world) (cfg : config) (history_dir : path)
    (names : list string) : list event * bool :=
  match names with
  | [] => ([], false)
  | name :: rest =>
      let src := history_dir // name in
      let '(evs, found) := copy_histories_back w cfg history_dir rest in
      if is_file w src
      then (snd (copy_file w src (home cfg // name)) ++ evs, true)
      else (evs, found)
  end.

Definition restore_history (w : world) (cfg : config) (src_dir : path) : list event :=
  let history_dir := src_dir // "history" in
  if negb (is_dir w history_dir)
  then print_status (lit "Shell history not in backup") "skip"
  else if dry_run cfg
  then print_status (lit "[DRY RUN] Would restore shell history") "info"
  else
    let '(evs, found) :=
      copy_histories_back w cfg history_dir [".bash_history"; ".zsh_history"] in
    let fish_src := history_dir // "fish" in
    let '(evs_fish, found) :=
      if is_dir w fish_src
      then
        let fish_dest := home cfg // ".local" // "share" // "fish" in
        ([EMkdir fish_dest; ECopyTree fish_src fish_dest],
         match copytree w fish_src fish_dest with
         | None => true
         | Some _ => found
         end)
      else ([], found) in
    evs ++ evs_fish
    ++ if found
       then print_status (lit "Shell history") "ok"
       else print_status (lit "Shell history (nothing to restore)") "skip".

(** The shells offered as default by [do_restore]: those with a
    directory in the backup, or [bash] when there is none. *)
Definition available_shells (w : world) (backup_dir : path) : list str :=
  match filter (fun s => is_dir w (backup_dir // "shells" // s)) ["fish"; "bash"; "zsh"] with
  | [] => [lit "bash"]
  | l => map lit l
  end.

(** The choice of the default shell in [do_restore]. *)
Definition select_default_shell (w : world) (backup_dir : path) : M str :=
  let available := available_shells w backup_dir in
  shell_choice <- read_choice "Select default shell" available ;;
  match py_index available (shell_choice - 1) with
  | None => raise IndexError
  | Some default_shell => ret default_shell
  end.

End Restore.

(** ** Vocabulary for the way back *)

(** The files and trees copied, each with where it goes, in order. *)
Definition moves (evs : list event) : list (path * path) :=
  flat_map (fun e => match e with
                     | ECopyFile s d => [(s, d)]
                     | ECopyTree s d => [(s, d)]
                     | _ => []
                     end) evs.

Definition swap (m : path * path) : path * path := (snd m, fst m).

(** Each listed file is in the backup, under [stored], exactly when it
    was in the home directory of the machine backed up. *)
Definition holds_files (w w' : world) (cfg : config) (stored : path) (files : list string)
  : bool :=
  forallb (fun f => Bool.eqb (is_file w' (stored // f)) (is_file w (home cfg // f))) files.

(** A clone holding the backup of [Sample.home_fs]: the bash
    configuration, the Starship configuration and an empty history. *)
Definition stored_fs : list entry :=
  [(Sample.backup_root, Dir);
   (Sample.backup_root // "shells", Dir);
   (Sample.backup_root // "shells" // "bash", Dir);
   (Sample.backup_root // "shells" // "bash" // ".bashrc",
    File (Some (Sample.bytes "alias ll=ls")));
   (Sample.backup_root // "config", Dir);
   (Sample.backup_root // "config" // "starship.toml",
    File (Some (Sample.bytes "add_newline = false")));
   (Sample.backup_root // "history", Dir)].
(** * Properties *)

Lemma str_eqb_eq (a b : str) : str_eqb a b = true <-> a = b.
Proof.
  unfold str_eqb. destruct (list_eq_dec ascii_dec a b); split; congruence.
Qed.

Lemma str_eqb_refl (a : str) : str_eqb a a = true.
Proof. apply str_eqb_eq. reflexivity. Qed.

Lemma str_eqb_neq (a b : str) : str_eqb a b = false <-> a <> b.
Proof.
  unfold str_eqb. destruct (list_eq_dec ascii_dec a b); split; congruence.
Qed.

(** ** Orders *)

(** A three-way comparison that decides equality, is antisymmetric and
    transitive gives a total order through "not greater". *)
Section CompareOrder.

Context {K : Type} (cmp : K -> K -> comparison).
Hypothesis cmp_eq : forall x y, cmp x y = Eq <-> x = y.
Hypothesis cmp_opp : forall x y, cmp y x = CompOpp (cmp x y).
Hypothesis cmp_trans : forall x y z c, cmp x y = c -> cmp y z = c -> cmp x z = c.

Definition le_of (x y : K) : bool :=
  match cmp x y with Gt => false | _ => true end.

Lemma le_of_total (x y : K) : le_of x y = true \/ le_of y x = true.
Proof.
  unfold le_of. rewrite (cmp_opp x y). destruct (cmp x y); simpl; auto.
Qed.

Lemma le_of_antisym (x y : K) : le_of x y = true -> le_of y x = true -> x = y.
Proof.
  unfold le_of. rewrite (cmp_opp x y).
  destruct (cmp x y) eqn:E; simpl; try discriminate.
  intros _ _. apply cmp_eq. exact E.
Qed.

Lemma le_of_trans (x y z : K) : le_of x y = true -> le_of y z = true -> le_of x z = true.
Proof.
  unfold le_of.
  destruct (cmp x y) eqn:Exy; try discriminate; intros _;
    destruct (cmp y z) eqn:Eyz; try discriminate; intros _.
  - apply cmp_eq in Exy. subst y. rewrite Eyz. reflexivity.
  - apply cmp_eq in Exy. subst y. rewrite Eyz. reflexivity.
  - apply cmp_eq in Eyz. subst z. rewrite Exy. reflexivity.
  - rewrite (cmp_trans x y z Lt Exy Eyz). reflexivity.
Qed.

End CompareOrder.

Lemma ascii_compare_eq (a b : ascii) : Ascii.compare a b = Eq <-> a = b.
Proof.
  split.
  - apply Ascii.compare_eq_iff.
  - intros ->. unfold Ascii.compare. apply N.compare_refl.
Qed.

Lemma ascii_compare_opp (a b : ascii) :
  Ascii.compare b a = CompOpp (Ascii.compare a b).
Proof. apply Ascii.compare_antisym. Qed.

Lemma ascii_compare_trans (a b c : ascii) (r : comparison) :
  Ascii.compare a b = r -> Ascii.compare b c = r -> Ascii.compare a c = r.
Proof.
  unfold Ascii.compare. destruct r; intros H1 H2.
  - apply N.compare_eq_iff in H1, H2. apply N.compare_eq_iff. congruence.
  - apply N.compare_lt_iff in H1. apply N.compare_lt_iff in H2.
    apply N.compare_lt_iff. eapply N.lt_trans; eassumption.
  - apply N.compare_gt_iff in H1. apply N.compare_gt_iff in H2.
    apply N.compare_gt_iff. eapply N.lt_trans; eassumption.
Qed.

Lemma str_compare_eq (a b : str) : PyStr.compare a b = Eq <-> a = b.
Proof. apply list_compare_refl. exact ascii_compare_eq. Qed.

Lemma str_compare_opp (a b : str) : PyStr.compare b a = CompOpp (PyStr.compare a b).
Proof.
  apply list_compare_antisym; [exact ascii_compare_eq | exact ascii_compare_opp].
Qed.

Lemma str_compare_trans (a b c : str) (r : comparison) :
  PyStr.compare a b = r -> PyStr.compare b c = r -> PyStr.compare a c = r.
Proof.
  apply list_compare_trans;
    [exact ascii_compare_eq | exact ascii_compare_trans | exact ascii_compare_opp].
Qed.

Lemma path_compare_eq (p q : path) : PyPath.compare p q = Eq <-> p = q.
Proof. apply list_compare_refl. exact str_compare_eq. Qed.

Lemma path_compare_opp (p q : path) : PyPath.compare q p = CompOpp (PyPath.compare p q).
Proof.
  apply list_compare_antisym; [exact str_compare_eq | exact str_compare_opp].
Qed.

Lemma path_compare_trans (p q r : path) (c : comparison) :
  PyPath.compare p q = c -> PyPath.compare q r = c -> PyPath.compare p r = c.
Proof.
  apply list_compare_trans;
    [exact str_compare_eq | exact str_compare_trans | exact str_compare_opp].
Qed.

(** ** [sorted] *)

Lemma Permutation_filter_compat {A} (P : A -> bool) (l1 l2 : list A) :
  Permutation l1 l2 -> Permutation (filter P l1) (filter P l2).
Proof.
  induction 1 as [|x l l' Hp IH|x y l|l l' l'' H1 IH1 H2 IH2]; simpl.
  - constructor.
  - destruct (P x); [constructor|]; exact IH.
  - destruct (P x), (P y); try reflexivity. apply perm_swap.
  - etransitivity; eassumption.
Qed.

Lemma NoDup_map_filter {A K} (key : A -> K) (P : A -> bool) (l : list A) :
  NoDup (map key l) -> NoDup (map key (filter P l)).
Proof.
  induction l as [|a r IH]; simpl; intros H; [constructor|].
  inversion H as [|k ks Hnotin Hnd]; subst.
  destruct (P a); simpl; [constructor|]; auto.
  intros Hin. apply Hnotin.
  apply in_map_iff in Hin as [x [Ex Hx]].
  apply filter_In in Hx. apply in_map_iff. exists x. tauto.
Qed.

Section SortedFacts.

Context {A K : Type} (key : A -> K) (leb : K -> K -> bool).
Hypothesis leb_total : forall x y, leb x y = true \/ leb y x = true.
Hypothesis leb_trans : forall x y z, leb x y = true -> leb y z = true -> leb x z = true.
Hypothesis leb_antisym : forall x y, leb x y = true -> leb y x = true -> x = y.

Let le (a b : A) : Prop := leb (key a) (key b) = true.

Lemma insert_sorted_perm (x : A) (l : list A) :
  Permutation (insert_sorted key leb x l) (x :: l).
Proof.
  induction l as [|y r IH]; simpl; [reflexivity|].
  destruct (leb (key x) (key y)); [reflexivity|].
  rewrite IH. apply perm_swap.
Qed.

Lemma py_sorted_perm (l : list A) : Permutation (py_sorted key leb l) l.
Proof.
  induction l as [|x r IH]; simpl; [reflexivity|].
  rewrite insert_sorted_perm. constructor. exact IH.
Qed.

Lemma insert_sorted_sorted (x : A) (l : list A) :
  StronglySorted le l -> StronglySorted le (insert_sorted key leb x l).
Proof.
  induction 1 as [|y r Hr IH Hy]; simpl.
  - repeat constructor.
  - destruct (leb (key x) (key y)) eqn:E.
    + constructor; [constructor; assumption|].
      constructor; [exact E|].
      eapply Forall_impl; [|exact Hy].
      intros z Hz. unfold le in *. eapply leb_trans; eassumption.
    + constructor; [exact IH|].
      assert (Hyx : le y x).
      { unfold le. destruct (leb_total (key x) (key y)); congruence. }
      eapply Permutation_Forall;
        [symmetry; apply insert_sorted_perm|].
      constructor; assumption.
Qed.

Lemma py_sorted_sorted (l : list A) : StronglySorted le (py_sorted key leb l).
Proof.
  induction l as [|x r IH]; simpl; [constructor|].
  apply insert_sorted_sorted. exact IH.
Qed.

(** Two sorted arrangements of the same elements with distinct keys are
    the same list. *)
Lemma sorted_unique (l1 l2 : list A) :
  StronglySorted le l1 -> StronglySorted le l2 ->
  Permutation l1 l2 -> NoDup (map key l1) -> l1 = l2.
Proof.
  intros H1. revert l2.
  induction H1 as [|a r1 Hr1 IH Ha]; intros l2 H2 Hp Hnd.
  - apply Permutation_nil in Hp. congruence.
  - destruct H2 as [|b r2 Hr2 Hb].
    + symmetry in Hp. apply Permutation_nil in Hp. discriminate.
    + assert (Eab : a = b).
      { assert (Hin_a : In a (b :: r2))
          by (eapply Permutation_in; [exact Hp | left; reflexivity]).
        assert (Hin_b : In b (a :: r1))
          by (eapply Permutation_in; [symmetry; exact Hp | left; reflexivity]).
        destruct Hin_a as [E|Hin_a]; [symmetry; exact E|].
        destruct Hin_b as [E|Hin_b]; [exact E|].
        exfalso.
        assert (Hab : le a b) by exact (proj1 (Forall_forall _ _) Ha b Hin_b).
        assert (Hba : le b a) by exact (proj1 (Forall_forall _ _) Hb a Hin_a).
        pose proof (leb_antisym _ _ Hab Hba) as Ek.
        simpl in Hnd. inversion Hnd as [|k ks Hnotin Hnd']; subst.
        apply Hnotin. rewrite Ek. apply in_map. exact Hin_b. }
      subst b. f_equal.
      apply IH; [exact Hr2 | eapply Permutation_cons_inv; exact Hp |].
      simpl in Hnd. inversion Hnd; assumption.
Qed.

(** [sorted] does not depend on the order its input comes in. *)
Lemma py_sorted_order_independent (l1 l2 : list A) :
  Permutation l1 l2 -> NoDup (map key l1) ->
  py_sorted key leb l1 = py_sorted key leb l2.
Proof.
  intros Hp Hnd.
  apply sorted_unique; try apply py_sorted_sorted.
  - rewrite !py_sorted_perm. exact Hp.
  - eapply Permutation_NoDup; [|exact Hnd].
    apply Permutation_map. symmetry. apply py_sorted_perm.
Qed.

Lemma filter_sorted (P : A -> bool) (l : list A) :
  StronglySorted le l -> StronglySorted le (filter P l).
Proof.
  induction 1 as [|a r Hr IH Ha]; simpl; [constructor|].
  destruct (P a); [|exact IH].
  constructor; [exact IH|].
  apply Forall_forall. intros x Hx. apply filter_In in Hx.
  exact (proj1 (Forall_forall _ _) Ha x (proj1 Hx)).
Qed.

(** Filtering before or after sorting gives the same list. *)
Lemma py_sorted_filter (P : A -> bool) (l : list A) :
  NoDup (map key l) ->
  filter P (py_sorted key leb l) = py_sorted key leb (filter P l).
Proof.
  intros Hnd.
  apply sorted_unique.
  - apply filter_sorted. apply py_sorted_sorted.
  - apply py_sorted_sorted.
  - eapply Permutation_trans;
      [apply Permutation_filter_compat; apply py_sorted_perm
      |symmetry; apply py_sorted_perm].
  - apply NoDup_map_filter.
    eapply Permutation_NoDup; [|exact Hnd].
    apply Permutation_map. symmetry. apply py_sorted_perm.
Qed.

(** Rewriting elements without touching their keys commutes with sorting. *)
Lemma py_sorted_map (f : A -> A) (l : list A) :
  (forall a, key (f a) = key a) ->
  py_sorted key leb (map f l) = map f (py_sorted key leb l).
Proof.
  intros Hf.
  assert (Hins : forall x s,
             insert_sorted key leb (f x) (map f s) = map f (insert_sorted key leb x s)).
  { intros x s. induction s as [|y r IH]; simpl; [reflexivity|].
    rewrite !Hf. destruct (leb (key x) (key y)); simpl; [reflexivity|].
    rewrite IH. reflexivity. }
  induction l as [|x r IH]; simpl; [reflexivity|].
  rewrite IH. apply Hins.
Qed.

End SortedFacts.

(** ** Name sanitisation *)

Section SanitizeFacts.
Import Sanitize.

Lemma digit_char_cases (d : nat) :
  In (PyStr.digit_char d) (lit "0123456789").
Proof.
  unfold PyStr.digit_char.
  pose proof (Nat.mod_upper_bound d 10 ltac:(discriminate)) as H.
  remember (d mod 10) as k eqn:E. clear E.
  do 10 (destruct k as [|k]; [simpl; tauto|]).
  lia.
Qed.

Lemma allowed_digit_char (d : nat) : allowed (PyStr.digit_char d) = true.
Proof.
  pose proof (digit_char_cases d) as H. simpl in H.
  repeat (destruct H as [<-|H]; [reflexivity|]). contradiction.
Qed.

Lemma is_dot_digit_char (d : nat) : is_dot (PyStr.digit_char d) = false.
Proof.
  pose proof (digit_char_cases d) as H. simpl in H.
  repeat (destruct H as [<-|H]; [reflexivity|]). contradiction.
Qed.

Lemma has_dotdot_cons (a b : ascii) (r : str) :
  has_dotdot (a :: b :: r) = (is_dot a && is_dot b) || has_dotdot (b :: r).
Proof. reflexivity. Qed.

Lemma collapse_dots_from_allowed (b : bool) (s : str) :
  Forall (fun c => allowed c = true) s ->
  Forall (fun c => allowed c = true) (collapse_dots_from b s).
Proof.
  intros H. revert b. induction H as [|c r Hc Hr IH]; intros b; simpl.
  - constructor.
  - destruct (is_dot c); [destruct b|]; auto.
Qed.

(** After a dot has been seen, the output does not start with a dot. *)
Lemma collapse_dots_from_head (s : str) :
  match collapse_dots_from true s with
  | c :: _ => is_dot c = false
  | [] => True
  end.
Proof.
  induction s as [|c r IH]; simpl; [exact I|].
  destruct (is_dot c) eqn:E; [exact IH|exact E].
Qed.

Lemma collapse_dots_from_no_dotdot (b : bool) (s : str) :
  has_dotdot (collapse_dots_from b s) = false.
Proof.
  revert b. induction s as [|c r IH]; intros b; [reflexivity|].
  cbn [collapse_dots_from].
  destruct (is_dot c) eqn:E.
  - destruct b; [apply IH|].
    pose proof (collapse_dots_from_head r) as Hh.
    specialize (IH true).
    destruct (collapse_dots_from true r) as [|c' r'] eqn:Er; [reflexivity|].
    rewrite has_dotdot_cons, Hh, IH, andb_false_r. reflexivity.
  - specialize (IH false).
    destruct (collapse_dots_from false r) as [|c' r'] eqn:Er; [reflexivity|].
    rewrite has_dotdot_cons, E, IH. reflexivity.
Qed.

Lemma has_dotdot_firstn (n : nat) (s : str) :
  has_dotdot s = false -> has_dotdot (firstn n s) = false.
Proof.
  revert n. induction s as [|a r IH]; intros n H.
  - destruct n; reflexivity.
  - destruct n as [|n]; [reflexivity|].
    destruct r as [|b r']; [destruct n; reflexivity|].
    rewrite has_dotdot_cons in H. apply orb_false_iff in H as [Hab Hr].
    specialize (IH n Hr).
    destruct n as [|n]; [reflexivity|].
    change (firstn (S (S n)) (a :: b :: r')) with (a :: firstn (S n) (b :: r')).
    change (firstn (S n) (b :: r')) with (b :: firstn n r') in *.
    rewrite has_dotdot_cons, Hab, IH. reflexivity.
Qed.

Lemma no_dot_no_dotdot (s : str) :
  Forall (fun c => is_dot c = false) s -> has_dotdot s = false.
Proof.
  induction 1 as [|a r Ha Hr IH]; [reflexivity|].
  destruct r as [|b r']; [reflexivity|].
  rewrite has_dotdot_cons, Ha, IH. reflexivity.
Qed.

Lemma fallback_name_chars (now : datetime) :
  Forall (fun c => allowed c = true /\ is_dot c = false) (fallback_name now).
Proof.
  unfold fallback_name, strftime_compact, pad4, pad2. simpl.
  repeat constructor; auto using allowed_digit_char, is_dot_digit_char.
Qed.

Lemma strip_disallowed_nil (name : str) :
  Forall (fun c => allowed c = false) name -> strip_disallowed name = [].
Proof.
  induction 1 as [|x r Hx Hr IH]; simpl; [reflexivity|].
  rewrite Hx. exact IH.
Qed.

Lemma fallback_name_length (now : datetime) : length (fallback_name now) = 22.
Proof. reflexivity. Qed.

End SanitizeFacts.

(** C6.  For every input string, [sanitize_name] returns a string made only
    of characters of [[A-Za-z0-9._-]], with no two dots in a row, of length
    at most 100 and never empty; when the input is empty or holds only
    disallowed characters the result is the time-stamped fallback
    [backup-YYYYmmdd-HHMMSS]. *)
Theorem sanitize_name_safe (now : datetime) (name : str) :
  Forall (fun c => Sanitize.allowed c = true) (Sanitize.sanitize_name now name)
  /\ Sanitize.has_dotdot (Sanitize.sanitize_name now name) = false
  /\ length (Sanitize.sanitize_name now name) <= 100
  /\ Sanitize.sanitize_name now name <> []
  /\ (Forall (fun c => Sanitize.allowed c = false) name ->
      Sanitize.sanitize_name now name
      = lit "backup-" ++ strftime_compact now).
Proof.
  unfold Sanitize.sanitize_name.
  set (a := Sanitize.strip_disallowed name).
  set (b := Sanitize.collapse_dots a).
  set (c := if 100 <? length b then firstn 100 b else b).
  assert (Ha : Forall (fun c => Sanitize.allowed c = true) a).
  { apply Forall_forall. intros x Hx. apply filter_In in Hx. tauto. }
  assert (Hb : Forall (fun c => Sanitize.allowed c = true) b)
    by (apply collapse_dots_from_allowed; exact Ha).
  assert (Hd : Sanitize.has_dotdot b = false)
    by apply collapse_dots_from_no_dotdot.
  assert (Hc : Forall (fun c => Sanitize.allowed c = true) c
               /\ Sanitize.has_dotdot c = false /\ length c <= 100).
  { unfold c. destruct (100 <? length b) eqn:E.
    - split; [|split].
      + rewrite <- (firstn_skipn 100 b) in Hb. apply Forall_app in Hb. tauto.
      + apply has_dotdot_firstn. exact Hd.
      + rewrite length_firstn. lia.
    - apply Nat.ltb_ge in E. auto. }
  pose proof (fallback_name_chars now) as Hf.
  split; [|split; [|split; [|split]]].
  - destruct c; [|tauto].
    eapply Forall_impl; [|exact Hf]. simpl; tauto.
  - destruct c; [|tauto].
    apply no_dot_no_dotdot.
    eapply Forall_impl; [|exact Hf]. simpl; tauto.
  - destruct c; [|tauto]. rewrite fallback_name_length. lia.
  - destruct c; discriminate.
  - intros Hall.
    unfold c, b, a. rewrite (strip_disallowed_nil name Hall). reflexivity.
Qed.

Example sanitize_name_ex1 :
  Sanitize.sanitize_name (Build_datetime 2024 1 5 3 4 9) (lit "my..bad//na...me!")
  = lit "my.badna.me".
Proof. reflexivity. Qed.

Example sanitize_name_ex2 :
  Sanitize.sanitize_name (Build_datetime 2024 1 5 3 4 9) (lit "// ~")
  = lit "backup-20240105-030409".
Proof. reflexivity. Qed.

(** ** The manifest checksum *)

Lemma path_leb_total (p q : path) : PyPath.leb p q = true \/ PyPath.leb q p = true.
Proof. exact (le_of_total PyPath.compare path_compare_opp p q). Qed.

Lemma path_leb_trans (p q r : path) :
  PyPath.leb p q = true -> PyPath.leb q r = true -> PyPath.leb p r = true.
Proof. exact (le_of_trans PyPath.compare path_compare_eq path_compare_trans p q r). Qed.

Lemma path_leb_antisym (p q : path) :
  PyPath.leb p q = true -> PyPath.leb q p = true -> p = q.
Proof. exact (le_of_antisym PyPath.compare path_compare_eq path_compare_opp p q). Qed.

Lemma sorted_entries_perm (l : list entry) : Permutation (sorted_entries l) l.
Proof. apply py_sorted_perm. Qed.

Lemma sorted_entries_order_independent (l1 l2 : list entry) :
  Permutation l1 l2 -> NoDup (map fst l1) -> sorted_entries l1 = sorted_entries l2.
Proof.
  apply py_sorted_order_independent;
    [exact path_leb_total | exact path_leb_trans | exact path_leb_antisym].
Qed.

Lemma sorted_entries_filter (P : entry -> bool) (l : list entry) :
  NoDup (map fst l) -> filter P (sorted_entries l) = sorted_entries (filter P l).
Proof.
  apply py_sorted_filter;
    [exact path_leb_total | exact path_leb_trans | exact path_leb_antisym].
Qed.

Lemma checksum_input_order_independent (l1 l2 : list entry) :
  Permutation l1 l2 -> NoDup (map fst l1) -> checksum_input l1 = checksum_input l2.
Proof.
  intros Hp Hnd. unfold checksum_input.
  fold (sorted_entries l1). fold (sorted_entries l2).
  rewrite (sorted_entries_order_independent l1 l2 Hp Hnd). reflexivity.
Qed.

Lemma hashed_not_manifest (e : entry) : hashed e = true -> not_manifest_file e = true.
Proof.
  unfold hashed, not_manifest_file, is_manifest_file.
  destruct (snd e); [discriminate | auto].
Qed.

Lemma filter_hashed_not_manifest (l : list entry) :
  filter hashed (filter not_manifest_file l) = filter hashed l.
Proof.
  induction l as [|e r IH]; simpl; [reflexivity|].
  destruct (not_manifest_file e) eqn:En; simpl.
  - destruct (hashed e); rewrite IH; reflexivity.
  - destruct (hashed e) eqn:Eh; [|exact IH].
    apply hashed_not_manifest in Eh. congruence.
Qed.

(** Files named [manifest.json] contribute nothing. *)
Lemma checksum_input_skips_manifests (l : list entry) :
  NoDup (map fst l) -> checksum_input (filter not_manifest_file l) = checksum_input l.
Proof.
  intros Hnd. unfold checksum_input.
  fold (sorted_entries l). fold (sorted_entries (filter not_manifest_file l)).
  rewrite <- (sorted_entries_filter not_manifest_file l Hnd).
  rewrite filter_hashed_not_manifest. reflexivity.
Qed.

Lemma flat_map_length_perm {A B} (f : A -> list B) (l1 l2 : list A) :
  Permutation l1 l2 -> length (flat_map f l1) = length (flat_map f l2).
Proof.
  induction 1 as [|x l l' Hp IH|x y l|l l' l'' H1 IH1 H2 IH2]; simpl.
  - reflexivity.
  - rewrite !length_app, IH. reflexivity.
  - rewrite !length_app. lia.
  - congruence.
Qed.

(** A readable, non-empty file not named [manifest.json] lengthens what is
    hashed by its size. *)
Lemma checksum_input_added (l l' : list entry) (p : path) (data : list Byte.byte) :
  Permutation l' ((p, File (Some data)) :: l) ->
  hashed (p, File (Some data)) = true ->
  length (checksum_input l') = length data + length (checksum_input l).
Proof.
  intros Hp Hh. unfold checksum_input.
  assert (Hq : Permutation (filter hashed (py_sorted fst PyPath.leb l'))
                           ((p, File (Some data)) :: filter hashed (py_sorted fst PyPath.leb l))).
  { eapply Permutation_trans;
      [apply Permutation_filter_compat; apply py_sorted_perm|].
    eapply Permutation_trans; [apply Permutation_filter_compat; exact Hp|].
    simpl filter. rewrite Hh. constructor.
    apply Permutation_filter_compat. symmetry. apply py_sorted_perm. }
  rewrite (flat_map_length_perm read_bytes _ _ Hq).
  simpl. rewrite length_app. reflexivity.
Qed.

Lemma put_key (p : path) (n : node) (e : entry) : fst (put p n e) = fst e.
Proof.
  unfold put. destruct (list_eq_dec (list_eq_dec ascii_dec) (fst e) p); simpl; congruence.
Qed.

Lemma map_put_other (p : path) (n : node) (l : list entry) :
  ~ In p (map fst l) -> map (put p n) l = l.
Proof.
  induction l as [|e r IH]; simpl; intros H; [reflexivity|].
  rewrite IH by tauto. f_equal. unfold put.
  destruct (list_eq_dec (list_eq_dec ascii_dec) (fst e) p); [|reflexivity].
  exfalso. apply H. left. assumption.
Qed.

Lemma put_same (p : path) (n n0 : node) : put p n (p, n0) = (p, n).
Proof.
  unfold put. simpl.
  destruct (list_eq_dec (list_eq_dec ascii_dec) p p); [reflexivity | contradiction].
Qed.

(** Changing the bytes of a readable file not named [manifest.json]
    changes what is hashed. *)
Lemma checksum_input_modified (l l' rest : list entry) (p : path)
    (data data' : list Byte.byte) :
  Permutation l ((p, File (Some data)) :: rest) ->
  Permutation l' ((p, File (Some data')) :: rest) ->
  NoDup (map fst l) ->
  hashed (p, File (Some data)) = true ->
  data <> data' ->
  checksum_input l <> checksum_input l'.
Proof.
  intros Hl Hl' Hnd Hh Hne.
  set (e := (p, File (Some data))). set (e' := (p, File (Some data'))).
  assert (Hnd0 : NoDup (map fst (e :: rest))).
  { eapply Permutation_NoDup; [apply Permutation_map; exact Hl | exact Hnd]. }
  assert (Hnd0' : NoDup (map fst (e' :: rest))) by exact Hnd0.
  rewrite (checksum_input_order_independent l (e :: rest) Hl Hnd).
  assert (Hndl' : NoDup (map fst l')).
  { eapply Permutation_NoDup; [apply Permutation_map; symmetry; exact Hl' | exact Hnd0']. }
  rewrite (checksum_input_order_independent l' (e' :: rest) Hl' Hndl').
  assert (Hrest : ~ In p (map fst rest)) by (inversion Hnd0; assumption).
  assert (Emap : e' :: rest = map (put p (File (Some data'))) (e :: rest)).
  { simpl. unfold e. rewrite put_same, (map_put_other _ _ _ Hrest). reflexivity. }
  unfold checksum_input. rewrite Emap.
  rewrite (py_sorted_map fst PyPath.leb (put p (File (Some data')))) by apply put_key.
  pose proof (py_sorted_perm fst PyPath.leb (e :: rest)) as Hsp.
  assert (Hin : In e (py_sorted fst PyPath.leb (e :: rest))).
  { eapply Permutation_in; [symmetry; exact Hsp | left; reflexivity]. }
  apply in_split in Hin as [s1 [s2 Es]].
  assert (Hnds : NoDup (map fst (s1 ++ e :: s2))).
  { rewrite <- Es. eapply Permutation_NoDup;
      [apply Permutation_map; symmetry; exact Hsp | exact Hnd0]. }
  rewrite Es.
  rewrite map_app in Hnds. simpl in Hnds.
  assert (H1 : ~ In p (map fst s1)).
  { intros Hin. apply NoDup_remove_2 in Hnds. apply Hnds.
    apply in_or_app. left. exact Hin. }
  assert (H2 : ~ In p (map fst s2)).
  { intros Hin. apply NoDup_remove_2 in Hnds. apply Hnds.
    apply in_or_app. right. exact Hin. }
  rewrite map_app. simpl map.
  rewrite (map_put_other _ _ _ H1), (map_put_other _ _ _ H2).
  unfold e at 2. rewrite put_same.
  rewrite !filter_app. simpl filter.
  assert (Hh' : hashed (p, File (Some data')) = true) by exact Hh.
  unfold e. rewrite Hh, Hh'.
  rewrite !flat_map_app. simpl flat_map.
  change (read_bytes (p, File (Some data))) with data.
  change (read_bytes (p, File (Some data'))) with data'.
  intros Heq. apply app_inv_head in Heq.
  apply app_inv_tail in Heq. apply Hne. exact Heq.
Qed.

Ltac distinct_paths :=
  repeat constructor; simpl;
  repeat match goal with
         | |- ~ _ => intros H
         | H : _ \/ _ |- _ => destruct H as [H|H]
         | H : _ = _ |- _ => discriminate H
         | H : False |- _ => contradiction
         end.

Lemma rglob_staged :
  rglob (Sample.machine Sample.staged Sample.succeeding) Sample.backup_root = Sample.staged.
Proof. reflexivity. Qed.

Lemma rglob_staged_reordered :
  rglob (Sample.machine Sample.staged_reordered Sample.succeeding) Sample.backup_root
  = rev Sample.staged.
Proof. reflexivity. Qed.

Lemma rglob_staged_edited :
  rglob (Sample.machine Sample.staged_edited Sample.succeeding) Sample.backup_root
  = Sample.staged_edited.
Proof. reflexivity. Qed.

Lemma rglob_staged_with_manifests :
  rglob (Sample.machine Sample.staged_with_manifests Sample.succeeding) Sample.backup_root
  = Sample.staged_with_manifests.
Proof. reflexivity. Qed.

Lemma staged_distinct : NoDup (map fst Sample.staged).
Proof. distinct_paths. Qed.

Lemma staged_with_manifests_distinct : NoDup (map fst Sample.staged_with_manifests).
Proof. distinct_paths. Qed.

(** C1, as stated, fails: adding an empty file to the tree leaves the
    digest as it was. *)
Lemma calculate_checksum_blind_to_empty_file :
  rglob (Sample.machine Sample.staged_plus_empty Sample.succeeding) Sample.backup_root
  = (Sample.backup_root // "shells" // "bash" // ".bash_logout", File (Some []))
    :: rglob (Sample.machine Sample.staged Sample.succeeding) Sample.backup_root
  /\ calculate_checksum (Sample.machine Sample.staged_plus_empty Sample.succeeding)
       Sample.backup_root
     = calculate_checksum (Sample.machine Sample.staged Sample.succeeding)
         Sample.backup_root.
Proof.
  split; [reflexivity|].
  unfold calculate_checksum. f_equal.
Qed.

(** C1, amended.  Over a tree whose paths are distinct, the checksum is the
    SHA-256 digest of a byte string that (a) is the same for any two
    enumerations of the same entries, so the digest is the same however
    the files are listed and however often it is computed; (b) grows when a
    readable, non-empty file not named [manifest.json] is added; and (c)
    changes when the bytes of a readable file not named [manifest.json]
    change.  In (b) and (c) the digest changes with it unless SHA-256
    collides. *)
Theorem calculate_checksum_determinism (w w' : world) (d : path)
    (Hdistinct : NoDup (map fst (rglob w d))) :
  (Permutation (rglob w d) (rglob w' d) ->
   calculate_checksum w d = calculate_checksum w' d)
  /\ (forall p data,
         Permutation (rglob w' d) ((p, File (Some data)) :: rglob w d) ->
         hashed (p, File (Some data)) = true -> data <> [] ->
         checksum_input (rglob w' d) <> checksum_input (rglob w d))
  /\ (forall p data data' rest,
         Permutation (rglob w d) ((p, File (Some data)) :: rest) ->
         Permutation (rglob w' d) ((p, File (Some data')) :: rest) ->
         hashed (p, File (Some data)) = true -> data <> data' ->
         checksum_input (rglob w d) <> checksum_input (rglob w' d)).
Proof.
  split; [|split].
  - intros Hp. unfold calculate_checksum.
    rewrite (checksum_input_order_independent _ _ Hp Hdistinct). reflexivity.
  - intros p data Hp Hh Hne Heq.
    pose proof (checksum_input_added _ _ p data Hp Hh) as Hlen.
    rewrite Heq in Hlen. destruct data; [congruence | simpl in Hlen; lia].
  - intros p data data' rest Hp Hp' Hh Hne.
    eapply checksum_input_modified; eassumption.
Qed.

Lemma calculate_checksum_determinism_witness :
  NoDup (map fst (rglob (Sample.machine Sample.staged Sample.succeeding) Sample.backup_root))
  /\ calculate_checksum (Sample.machine Sample.staged Sample.succeeding) Sample.backup_root
     = calculate_checksum (Sample.machine Sample.staged_reordered Sample.succeeding)
         Sample.backup_root
  /\ checksum_input Sample.staged <> checksum_input Sample.staged_edited.
Proof.
  assert (Hd : NoDup (map fst (rglob (Sample.machine Sample.staged Sample.succeeding)
                                  Sample.backup_root)))
    by (rewrite rglob_staged; exact staged_distinct).
  split; [exact Hd|]. split.
  - apply (proj1 (calculate_checksum_determinism
                    (Sample.machine Sample.staged Sample.succeeding)
                    (Sample.machine Sample.staged_reordered Sample.succeeding)
                    Sample.backup_root Hd)).
    rewrite rglob_staged, rglob_staged_reordered. apply Permutation_rev.
  - pose proof (proj2 (proj2 (calculate_checksum_determinism
                    (Sample.machine Sample.staged Sample.succeeding)
                    (Sample.machine Sample.staged_edited Sample.succeeding)
                    Sample.backup_root Hd))) as H.
    rewrite rglob_staged, rglob_staged_edited in H.
    apply (H (Sample.backup_root // "shells" // "bash" // ".bashrc")
             (Sample.bytes "alias ll=ls") (Sample.bytes "alias ll=ls -l")
             [(Sample.backup_root // "shells", Dir);
              (Sample.backup_root // "shells" // "bash", Dir);
              (Sample.backup_root // "shells" // "bash" // ".profile",
               File (Some (Sample.bytes "umask 022")))]).
    + symmetry. apply (Permutation_cons_app [_; _] [_]). reflexivity.
    + symmetry. apply (Permutation_cons_app [_; _] [_]). reflexivity.
    + reflexivity.
    + discriminate.
Defined.

(** C9.  [calculate_checksum] leaves out every regular file whose base name
    is [manifest.json], at whatever depth: over a tree with distinct paths
    the hashed bytes are those of the tree without such files, and two
    trees that agree once such files are set aside have equal checksums. *)
Theorem calculate_checksum_ignores_manifests (w w' : world) (d : path)
    (Hdistinct : NoDup (map fst (rglob w d)))
    (Hdistinct' : NoDup (map fst (rglob w' d)))
    (Hsame : Permutation (filter not_manifest_file (rglob w d))
                         (filter not_manifest_file (rglob w' d))) :
  checksum_input (rglob w d) = checksum_input (filter not_manifest_file (rglob w d))
  /\ calculate_checksum w d = calculate_checksum w' d.
Proof.
  split.
  - symmetry. apply checksum_input_skips_manifests. exact Hdistinct.
  - unfold calculate_checksum. f_equal.
    rewrite <- (checksum_input_skips_manifests _ Hdistinct).
    rewrite <- (checksum_input_skips_manifests _ Hdistinct').
    apply checksum_input_order_independent; [exact Hsame|].
    apply NoDup_map_filter; exact Hdistinct.
Qed.

Lemma calculate_checksum_ignores_manifests_witness :
  calculate_checksum (Sample.machine Sample.staged_with_manifests Sample.succeeding)
    Sample.backup_root
  = calculate_checksum (Sample.machine Sample.staged Sample.succeeding) Sample.backup_root.
Proof.
  apply (calculate_checksum_ignores_manifests
           (Sample.machine Sample.staged_with_manifests Sample.succeeding)
           (Sample.machine Sample.staged Sample.succeeding) Sample.backup_root).
  - rewrite rglob_staged_with_manifests. exact staged_with_manifests_distinct.
  - rewrite rglob_staged. exact staged_distinct.
  - rewrite rglob_staged_with_manifests, rglob_staged. reflexivity.
Defined.

Example calculate_checksum_staged :
  calculate_checksum (Sample.machine Sample.staged Sample.succeeding) Sample.backup_root
  = lit "aec33f5fd002de3728dbdeb16b087c6ec48524520c44175365420d1d6e6768e9".
Proof. vm_compute. reflexivity. Qed.

(** ** The category routines *)

Lemma forallb_dry_print_status (m : str) (s : string) :
  forallb dry_event (print_status m s) = true.
Proof. reflexivity. Qed.

Lemma statuses_print_status (m : str) (s : string) :
  statuses (print_status m s) = [lit s].
Proof. reflexivity. Qed.

Lemma statuses_app (a b : list event) : statuses (a ++ b) = statuses a ++ statuses b.
Proof. unfold statuses. apply flat_map_app. Qed.

Lemma statuses_print_error (m : str) : statuses (print_error m) = [].
Proof. reflexivity. Qed.

Lemma statuses_log (l : string) (m : str) : statuses (log l m) = [].
Proof. reflexivity. Qed.

Lemma copy_found_dry (w : world) (cfg : config) (dir : path) (files : list string) :
  dry_run cfg = true -> fst (Backup.copy_found w cfg dir files) = [].
Proof.
  intros Hdry. induction files as [|f r IH]; [reflexivity|].
  simpl. destruct (Backup.copy_found w cfg dir r) as [evs found].
  simpl in IH. subst evs. rewrite Hdry.
  destruct (is_file w (home cfg // f)); reflexivity.
Qed.

Section DryRun.

Variables (w : world) (cfg : config) (dest : path).
Hypothesis Hdry : dry_run cfg = true.

Lemma backup_fish_dry :
  forallb dry_event (Backup.backup_fish w cfg dest) = true
  /\ (statuses (Backup.backup_fish w cfg dest) = [lit "info"]
      \/ statuses (Backup.backup_fish w cfg dest) = [lit "skip"]).
Proof.
  unfold Backup.backup_fish. rewrite Hdry.
  destruct (is_dir w _); simpl; auto.
Qed.

Lemma backup_bash_dry :
  forallb dry_event (Backup.backup_bash w cfg dest) = true
  /\ (statuses (Backup.backup_bash w cfg dest) = [lit "ok"]
      \/ statuses (Backup.backup_bash w cfg dest) = [lit "skip"]).
Proof.
  unfold Backup.backup_bash.
  pose proof (copy_found_dry w cfg (dest // "shells" // "bash")
                [".bashrc"; ".bash_aliases"; ".bash_profile"; ".profile"; ".bash_logout"]
                Hdry) as H.
  destruct (Backup.copy_found _ _ _ _) as [evs found]. simpl in H. subst evs.
  destruct (0 <? found); simpl; auto.
Qed.

Lemma backup_zsh_dry :
  forallb dry_event (Backup.backup_zsh w cfg dest) = true
  /\ (statuses (Backup.backup_zsh w cfg dest) = [lit "ok"]
      \/ statuses (Backup.backup_zsh w cfg dest) = [lit "skip"]).
Proof.
  unfold Backup.backup_zsh.
  pose proof (copy_found_dry w cfg (dest // "shells" // "zsh")
                [".zshrc"; ".zprofile"; ".zshenv"; ".zlogin"; ".zlogout"] Hdry) as H.
  destruct (Backup.copy_found _ _ _ _) as [evs found]. simpl in H. subst evs.
  rewrite Hdry.
  destruct (is_dir w _); [simpl; auto|].
  destruct (0 <? found); simpl; auto.
Qed.

Lemma backup_packages_dry (pm : str) :
  forallb dry_event (Backup.backup_packages w cfg dest pm) = true
  /\ statuses (Backup.backup_packages w cfg dest pm) = [lit "info"].
Proof.
  unfold Backup.backup_packages. rewrite Hdry. split; reflexivity.
Qed.

Lemma backup_starship_dry :
  forallb dry_event (Backup.backup_starship w cfg dest) = true
  /\ (statuses (Backup.backup_starship w cfg dest) = [lit "ok"]
      \/ statuses (Backup.backup_starship w cfg dest) = [lit "skip"]).
Proof.
  unfold Backup.backup_starship. rewrite Hdry.
  destruct (is_file w _); simpl; auto.
Qed.

Lemma backup_git_config_dry :
  forallb dry_event (Backup.backup_git_config w cfg dest) = true
  /\ (statuses (Backup.backup_git_config w cfg dest) = [lit "ok"]
      \/ statuses (Backup.backup_git_config w cfg dest) = [lit "skip"]).
Proof.
  unfold Backup.backup_git_config. rewrite Hdry.
  destruct (is_file w _); simpl; auto.
Qed.

Lemma backup_ssh_dry :
  forallb dry_event (snd (Backup.backup_ssh w cfg dest)) = true
  /\ (statuses (snd (Backup.backup_ssh w cfg dest)) = [lit "info"]
      \/ statuses (snd (Backup.backup_ssh w cfg dest)) = [lit "skip"]).
Proof.
  unfold Backup.backup_ssh. rewrite Hdry.
  destruct (is_dir w _); simpl; auto.
Qed.

Lemma backup_conda_dry :
  forallb dry_event (snd (Backup.backup_conda w cfg dest)) = true
  /\ (statuses (snd (Backup.backup_conda w cfg dest)) = [lit "info"]
      \/ statuses (snd (Backup.backup_conda w cfg dest)) = [lit "skip"]).
Proof.
  unfold Backup.backup_conda. rewrite Hdry.
  destruct (find _ _); simpl; auto.
Qed.

Lemma backup_history_dry :
  forallb dry_event (Backup.backup_history w cfg dest) = true
  /\ statuses (Backup.backup_history w cfg dest) = [lit "info"].
Proof.
  unfold Backup.backup_history. rewrite Hdry. split; reflexivity.
Qed.

Lemma backup_cloud_creds_dry :
  forallb dry_event (Backup.backup_cloud_creds w cfg dest) = true
  /\ statuses (Backup.backup_cloud_creds w cfg dest) = [lit "ok"].
Proof.
  unfold Backup.backup_cloud_creds. rewrite Hdry. split; reflexivity.
Qed.

End DryRun.

(** C2, as stated, fails: in dry run, over a home directory holding
    [.bashrc] and a Starship configuration, the bash, Starship and cloud
    credential routines each report "ok", and none reports "info". *)
Lemma dry_run_reports_ok :
  dry_run (Sample.settings true) = true
  /\ statuses (Backup.run_category Bash
                 (Sample.machine Sample.home_fs Sample.succeeding)
                 (Sample.settings true) Sample.backup_root (lit "apt")) = [lit "ok"]
  /\ statuses (Backup.run_category Starship
                 (Sample.machine Sample.home_fs Sample.succeeding)
                 (Sample.settings true) Sample.backup_root (lit "apt")) = [lit "ok"]
  /\ statuses (Backup.run_category CloudCreds
                 (Sample.machine Sample.home_fs Sample.succeeding)
                 (Sample.settings true) Sample.backup_root (lit "apt")) = [lit "ok"].
Proof. repeat split; reflexivity. Qed.

(** C2, amended.  With dry run enabled, every category routine only prints
    status lines, appends them to the log and creates directories: it
    copies, archives and writes nothing and starts no process.  The fish,
    packages, SSH, Conda and history routines then print one status line,
    "info" (or "skip" where the source is absent, for fish, SSH and Conda);
    the bash, zsh, Starship and Git configuration routines print "ok" (or
    "skip" where nothing is found), and the cloud credential routine
    prints "ok". *)
Theorem dry_run_only_reports (c : category) (w : world) (cfg : config)
    (dest : path) (pm : str) (Hdry : dry_run cfg = true) :
  forallb dry_event (Backup.run_category c w cfg dest pm) = true
  /\ match c with
     | Packages | History =>
         statuses (Backup.run_category c w cfg dest pm) = [lit "info"]
     | Fish | Ssh | Conda =>
         statuses (Backup.run_category c w cfg dest pm) = [lit "info"]
         \/ statuses (Backup.run_category c w cfg dest pm) = [lit "skip"]
     | Bash | Zsh | Starship | GitConfig =>
         statuses (Backup.run_category c w cfg dest pm) = [lit "ok"]
         \/ statuses (Backup.run_category c w cfg dest pm) = [lit "skip"]
     | CloudCreds =>
         statuses (Backup.run_category c w cfg dest pm) = [lit "ok"]
     end.
Proof.
  destruct c; simpl Backup.run_category.
  - apply backup_fish_dry; assumption.
  - apply backup_bash_dry; assumption.
  - apply backup_zsh_dry; assumption.
  - apply backup_packages_dry; assumption.
  - apply backup_starship_dry; assumption.
  - apply backup_git_config_dry; assumption.
  - apply backup_ssh_dry; assumption.
  - apply backup_conda_dry; assumption.
  - apply backup_history_dry; assumption.
  - apply backup_cloud_creds_dry; assumption.
Qed.

Lemma dry_run_only_reports_witness :
  dry_run (Sample.settings true) = true
  /\ forallb dry_event
       (Backup.run_category Fish (Sample.machine Sample.home_fs Sample.succeeding)
          (Sample.settings true) Sample.backup_root (lit "apt")) = true
  /\ (statuses
        (Backup.run_category Fish (Sample.machine Sample.home_fs Sample.succeeding)
           (Sample.settings true) Sample.backup_root (lit "apt")) = [lit "info"]
      \/ statuses
           (Backup.run_category Fish (Sample.machine Sample.home_fs Sample.succeeding)
              (Sample.settings true) Sample.backup_root (lit "apt")) = [lit "skip"]).
Proof.
  split; [reflexivity|].
  exact (dry_run_only_reports Fish (Sample.machine Sample.home_fs Sample.succeeding)
           (Sample.settings true) Sample.backup_root (lit "apt") eq_refl).
Defined.

(** ** Package lists *)

Lemma written_app (file : path) (a b : list event) :
  written file (a ++ b) = written file a || written file b.
Proof. unfold written. apply existsb_app. Qed.

Lemma written_print_status (file : path) (m : str) (s : string) :
  written file (print_status m s) = false.
Proof. reflexivity. Qed.

Lemma run_command_unchecked (w : world) (cmd : list str) (timeout : nat) :
  written_nothing_by_run
    (snd (run_command w cmd false timeout)) = true
  /\ statuses (snd (run_command w cmd false timeout)) = [].
Proof.
  unfold run_command. destruct (run w cmd timeout); split; reflexivity.
Qed.

Lemma written_export_list (w : world) (cmd : list string) (f file : path)
    (render : str -> str) :
  written file (Backup.export_list w cmd f render)
  = (if list_eq_dec (list_eq_dec ascii_dec) f file then true else false)
    && (exit_status w cmd 0 =? 0)%Z.
Proof.
  unfold Backup.export_list, exit_status.
  pose proof (run_command_unchecked w (map lit cmd) 0) as [Hw _].
  destruct (run_command w (map lit cmd) false 0) as [[[rc out] err] evs].
  simpl in *. rewrite written_app.
  assert (Hevs : written file evs = false).
  { unfold written. unfold written_nothing_by_run in Hw.
    induction evs as [|e r IH]; [reflexivity|].
    simpl in *. apply andb_true_iff in Hw as [He Hr].
    rewrite (IH Hr). destruct e; try discriminate; reflexivity. }
  rewrite Hevs. simpl.
  destruct (rc =? 0)%Z; simpl.
  - rewrite orb_false_r, andb_true_r. reflexivity.
  - rewrite andb_false_r. reflexivity.
Qed.

Lemma statuses_export_list (w : world) (cmd : list string) (f : path)
    (render : str -> str) :
  statuses (Backup.export_list w cmd f render) = [].
Proof.
  unfold Backup.export_list.
  pose proof (run_command_unchecked w (map lit cmd) 0) as [_ Hs].
  destruct (run_command w (map lit cmd) false 0) as [[[rc out] err] evs].
  simpl in *. rewrite statuses_app, Hs.
  destruct (rc =? 0)%Z; reflexivity.
Qed.

Lemma pjoin_inj (p : path) (a b : string) : p // a = p // b -> lit a = lit b.
Proof.
  unfold pjoin. intros H. apply app_inv_head in H. congruence.
Qed.

Lemma same_path (p : path) :
  (if list_eq_dec (list_eq_dec ascii_dec) p p then true else false) = true.
Proof. destruct (list_eq_dec (list_eq_dec ascii_dec) p p); congruence. Qed.

Lemma other_file (p : path) (a b : string) :
  lit a <> lit b ->
  (if list_eq_dec (list_eq_dec ascii_dec) (p // a) (p // b) then true else false) = false.
Proof.
  intros H. destruct (list_eq_dec (list_eq_dec ascii_dec) (p // a) (p // b)) as [E|E];
    [|reflexivity].
  apply pjoin_inj in E. contradiction.
Qed.

(** C5, as stated, fails: with [apt] and both queries exiting non-zero no
    file is written, and the category is reported "ok" all the same. *)
Lemma backup_packages_ok_without_files :
  dry_run (Sample.settings false) = false
  /\ existsb writes_file
       (Backup.backup_packages (Sample.machine Sample.home_fs Sample.failing)
          (Sample.settings false) Sample.backup_root (lit "apt")) = false
  /\ statuses
       (Backup.backup_packages (Sample.machine Sample.home_fs Sample.failing)
          (Sample.settings false) Sample.backup_root (lit "apt")) = [lit "ok"].
Proof. repeat split; reflexivity. Qed.

(** C5, amended.  In [backup_packages], outside dry run and for the [apt]
    and [pacman] managers, the output file of a query is written exactly
    when that query exits with status zero, and the category is reported
    "ok" whether or not any file was written. *)
Theorem backup_packages_per_query (w : world) (cfg : config) (dest : path) (pm : string)
    (Hrun : dry_run cfg = false) (Hpm : pm = "apt" \/ pm = "pacman") :
  (forall cmd file,
      In (cmd, file) (package_queries pm) ->
      written (dest // "packages" // file) (Backup.backup_packages w cfg dest (lit pm)) = true
      <-> exit_status w cmd 0 = 0%Z)
  /\ statuses (Backup.backup_packages w cfg dest (lit pm)) = [lit "ok"].
Proof.
  destruct Hpm as [-> | ->]; unfold Backup.backup_packages; rewrite Hrun;
    cbn [str_eqb]; simpl; split.
  - intros cmd file [E|[E|[]]]; inversion E; subst; clear E;
      rewrite !written_app, !written_export_list, written_print_status.
    + rewrite same_path, other_file by discriminate. simpl.
      rewrite orb_false_r. apply Z.eqb_eq.
    + rewrite same_path, other_file by discriminate. simpl.
      rewrite orb_false_r. apply Z.eqb_eq.
  - rewrite !statuses_app, !statuses_export_list. reflexivity.
  - intros cmd file [E|[E|[]]]; inversion E; subst; clear E;
      rewrite !written_app, !written_export_list, written_print_status.
    + rewrite same_path, other_file by discriminate. simpl.
      rewrite orb_false_r. apply Z.eqb_eq.
    + rewrite same_path, other_file by discriminate. simpl.
      rewrite orb_false_r. apply Z.eqb_eq.
  - rewrite !statuses_app, !statuses_export_list. reflexivity.
Qed.

Lemma backup_packages_per_query_witness :
  dry_run (Sample.settings false) = false
  /\ written (Sample.backup_root // "packages" // "apt_manual.txt")
       (Backup.backup_packages (Sample.machine Sample.home_fs Sample.succeeding)
          (Sample.settings false) Sample.backup_root (lit "apt")) = true
  /\ statuses
       (Backup.backup_packages (Sample.machine Sample.home_fs Sample.succeeding)
          (Sample.settings false) Sample.backup_root (lit "apt")) = [lit "ok"].
Proof.
  pose proof (backup_packages_per_query
                (Sample.machine Sample.home_fs Sample.succeeding)
                (Sample.settings false) Sample.backup_root "apt"
                eq_refl (or_introl eq_refl)) as [H1 H2].
  split; [reflexivity|]. split; [|exact H2].
  apply (H1 ["apt-mark"; "showmanual"] "apt_manual.txt").
  - right. left. reflexivity.
  - reflexivity.
Defined.

(** ** Conda environment names *)

Lemma alnum_not_hyphen (c : ascii) :
  PyStr.char_isalnum c = true -> Ascii.eqb c "-"%char = false /\ Ascii.eqb c "_"%char = false.
Proof.
  intros H. split.
  - destruct (Ascii.eqb c "-"%char) eqn:E; [|reflexivity].
    apply Ascii.eqb_eq in E. subst c. discriminate H.
  - destruct (Ascii.eqb c "_"%char) eqn:E; [|reflexivity].
    apply Ascii.eqb_eq in E. subst c. discriminate H.
Qed.

(** The test of [backup_conda] on a name, read as a class of characters. *)
Lemma conda_name_test (name : str) :
  negb (str_eqb name (lit "*"))
  && PyStr.isalnum (PyStr.remove_char "_"%char (PyStr.remove_char "-"%char name)) = true
  <-> forallb env_char name = true /\ existsb PyStr.char_isalnum name = true.
Proof.
  unfold PyStr.isalnum, PyStr.remove_char.
  set (keep1 := fun x => negb (Ascii.eqb x "-"%char)).
  set (keep2 := fun x => negb (Ascii.eqb x "_"%char)).
  assert (Hin : forall c, In c (filter keep2 (filter keep1 name))
                          <-> In c name /\ Ascii.eqb c "-"%char = false
                              /\ Ascii.eqb c "_"%char = false).
  { intros c. rewrite !filter_In. unfold keep1, keep2. rewrite !negb_true_iff. tauto. }
  rewrite !andb_true_iff, negb_true_iff, forallb_forall, forallb_forall, existsb_exists.
  split.
  - intros [Hstar [Hne Hall]]. split.
    + intros c Hc. unfold env_char.
      destruct (Ascii.eqb c "-"%char) eqn:E1; [apply orb_true_iff; left; apply orb_true_r|].
      destruct (Ascii.eqb c "_"%char) eqn:E2; [apply orb_true_r|].
      rewrite (Hall c); [reflexivity|]. apply Hin. tauto.
    + assert (Hex : exists c, In c (filter keep2 (filter keep1 name))).
      { revert Hne. destruct (filter keep2 (filter keep1 name)) as [|c r];
          [discriminate | intros _; exists c; left; reflexivity]. }
      destruct Hex as [c Hc]. exists c.
      split; [apply Hin; exact Hc | apply Hall; exact Hc].
  - intros [Hall [c [Hc Hal]]].
    pose proof (alnum_not_hyphen c Hal) as [E1 E2].
    split; [|split].
    + apply str_eqb_neq. intros ->. specialize (Hall "*"%char (or_introl eq_refl)).
      discriminate Hall.
    + assert (Hc' : In c (filter keep2 (filter keep1 name))) by (apply Hin; tauto).
      revert Hc'. destruct (filter keep2 (filter keep1 name));
        [contradiction | reflexivity].
    + intros x Hx. apply Hin in Hx as [Hx [F1 F2]].
      specialize (Hall x Hx). unfold env_char in Hall.
      rewrite F1, F2, !orb_false_r in Hall. exact Hall.
Qed.

Lemma ascii_alnum_is_class (c : ascii) :
  PyStr.ord c < 128 -> env_char c = in_env_class c.
Proof.
  destruct c as [[] [] [] [] [] [] [] []]; intros H;
    first [reflexivity | vm_compute in H; lia].
Qed.

(** C8, as stated, fails: the name [_] lies in the class [[A-Za-z0-9_-]+]
    and stands on a line that is neither blank, nor a comment, nor the
    marker, yet it is not kept. *)
Lemma conda_env_names_drops_underscore :
  matches_env_class (lit "_") = true
  /\ Backup.conda_env_name (lit "base") = Some (lit "base")
  /\ Backup.conda_env_name (lit "_   /opt/conda/envs/_") = None
  /\ Backup.conda_env_names
       (lit "# conda environments:
#
base                  *  /opt/conda
_                        /opt/conda/envs/_
") = [lit "base"].
Proof. repeat split; reflexivity. Qed.

(** C8, amended.  A name is kept by [backup_conda] exactly when it is the
    first whitespace-separated field of a line of the listing that is not
    blank and not a comment, is made only of letters and digits (in the
    sense of [str.isalnum]), hyphens and underscores, and holds at least
    one letter or digit; on ASCII characters that alphabet is the class
    [[A-Za-z0-9_-]].  The marker [*] is never such a name. *)
Theorem conda_env_names_kept (out name : str) :
  (In name (Backup.conda_env_names out) <->
   exists line,
     In line (PyStr.splitlines out)
     /\ PyStr.strip line <> []
     /\ PyStr.startswith (PyStr.strip line) (lit "#") = false
     /\ hd [] (PyStr.split (PyStr.strip line)) = name
     /\ forallb env_char name = true
     /\ existsb PyStr.char_isalnum name = true)
  /\ (forall c, PyStr.ord c < 128 -> env_char c = in_env_class c)
  /\ forallb env_char (lit "*") = false.
Proof.
  split; [|split; [exact ascii_alnum_is_class | reflexivity]].
  unfold Backup.conda_env_names. rewrite in_flat_map.
  split.
  - intros [line [Hline Hin]]. exists line. split; [exact Hline|].
    unfold Backup.conda_env_name in Hin.
    destruct (PyStr.strip line) as [|c r] eqn:Es; [contradiction|].
    destruct (PyStr.startswith (c :: r) (lit "#")) eqn:Eh; [contradiction|].
    destruct (negb (str_eqb _ _) && PyStr.isalnum _) eqn:Et; [|contradiction].
    destruct Hin as [<-|[]].
    apply conda_name_test in Et.
    repeat split; try tauto. discriminate.
  - intros [line [Hline [Hne [Hh [Hname [Hall Hex]]]]]].
    exists line. split; [exact Hline|].
    unfold Backup.conda_env_name.
    destruct (PyStr.strip line) as [|c r] eqn:Es; [contradiction|].
    rewrite Hh, Hname.
    rewrite (proj2 (conda_name_test name) (conj Hall Hex)).
    left. reflexivity.
Qed.

Example conda_env_names_keeps_latin1 :
  Backup.conda_env_names (lit "caf" ++ ["233"%char] ++ lit "  /opt/conda/envs/x")
  = [lit "caf" ++ ["233"%char]].
Proof. reflexivity. Qed.

(** ** The interaction monad *)

Section Keeps.

Variable P : item -> Prop.
Hypothesis P_ev : forall e, P (Ev e).

Lemma keeps_ret {A} (a : A) : keeps P (ret a).
Proof. intros s H. exact H. Qed.

Lemma keeps_raise {A} (e : exn) : keeps P (@raise A e).
Proof. intros s H. exact H. Qed.

Lemma keeps_bind {A B} (m : M A) (k : A -> M B) :
  keeps P m -> (forall a, keeps P (k a)) -> keeps P (bind m k).
Proof.
  intros Hm Hk s H. unfold bind.
  specialize (Hm s H). destruct (m s) as [[a|e] s']; simpl in *.
  - apply Hk. exact Hm.
  - exact Hm.
Qed.

Lemma keeps_bind_bind {A B C} (m : M A) (g : A -> M B) (k : B -> M C) :
  keeps P (bind m (fun x => bind (g x) k)) -> keeps P (bind (bind m g) k).
Proof.
  intros H s Hs. specialize (H s Hs). unfold bind in *.
  destruct (m s) as [[a|e] s']; exact H.
Qed.

Lemma keeps_bind_ret {A B} (a : A) (k : A -> M B) :
  keeps P (k a) -> keeps P (bind (ret a) k).
Proof. intros H s Hs. exact (H s Hs). Qed.

Lemma keeps_emit_items (l : list item) : Forall P l -> keeps P (emit_items l).
Proof. intros Hl s H. simpl. apply Forall_app. split; assumption. Qed.

Lemma keeps_emit (l : list event) : keeps P (emit l).
Proof.
  apply keeps_emit_items. apply Forall_forall. intros i Hi.
  apply in_map_iff in Hi as [e [<- _]]. apply P_ev.
Qed.

Lemma keeps_invoke (c : category) (body : list event) :
  P (Invoke c body) -> keeps P (invoke c body).
Proof. intros H. apply keeps_emit_items. constructor; [exact H | constructor]. Qed.

Lemma keeps_input : keeps P input.
Proof.
  intros s H. unfold input. destruct (stdin s) as [|[l|] r]; exact H.
Qed.

Lemma keeps_read_input (prompt : string) (default : str) :
  keeps P (read_input prompt default).
Proof.
  apply keeps_bind; [apply keeps_input|].
  intros [l|]; [|apply keeps_ret]. destruct (PyStr.strip l); apply keeps_ret.
Qed.

Lemma keeps_read_yes_no (prompt : str) (default : bool) :
  keeps P (read_yes_no prompt default).
Proof.
  apply keeps_bind; [apply keeps_input|].
  intros [l|]; [|apply keeps_ret].
  destruct (PyStr.lower (PyStr.strip l)); apply keeps_ret.
Qed.

Lemma keeps_read_choice (prompt : string) (options : list str) :
  keeps P (read_choice prompt options).
Proof.
  intros s H. unfold read_choice.
  destruct (read_choice_loop (length options) (stdin s)) as [[o rest] evs].
  simpl. apply Forall_app. split; [exact H|].
  apply Forall_forall. intros i Hi.
  apply in_map_iff in Hi as [e [<- _]]. apply P_ev.
Qed.

Lemma keeps_select_shells (w : world) (names : list string) :
  keeps P (Orchestrator.select_shells w names).
Proof.
  induction names as [|n r IH]; simpl; [apply keeps_ret|].
  destruct (command_exists w n); [|exact IH].
  apply keeps_bind; [apply keeps_read_yes_no|]. intros yes.
  apply keeps_bind; [exact IH|]. intros more. apply keeps_ret.
Qed.

End Keeps.

Ltac keeps_leaf :=
  solve [ apply keeps_ret
        | apply keeps_raise
        | apply keeps_emit; intros; reflexivity
        | apply keeps_read_input
        | apply keeps_read_yes_no
        | apply keeps_read_choice; intros; reflexivity
        | apply keeps_select_shells
        | apply keeps_invoke; reflexivity ].

Ltac keeps_step :=
  first
    [ keeps_leaf
    | apply keeps_bind; [|intros]
    | match goal with
      | |- keeps _ (if ?b then _ else _) => destruct b
      | |- keeps _ (match ?x with _ => _ end) => destruct x
      end ].

(** ** The backup orchestrator *)

Lemma do_backup_ask_calls_nothing (w : world) (cfg : config) :
  keeps no_sensitive_call (Orchestrator.do_backup_ask w cfg).
Proof.
  unfold Orchestrator.do_backup_ask, no_sensitive_call.
  repeat keeps_step.
Qed.

Lemma backup_shells_not_sensitive (w : world) (cfg : config) (dir : path) (shells : list str) :
  Forall no_sensitive_call (Orchestrator.backup_shells w cfg dir shells).
Proof.
  unfold Orchestrator.backup_shells. apply Forall_forall. intros i Hi.
  apply in_flat_map in Hi as [shell [_ Hi]].
  repeat match type of Hi with
         | In _ (if ?b then _ else _) => destruct b
         end;
    simpl in Hi; try contradiction;
    destruct Hi as [<-|[]]; reflexivity.
Qed.

Lemma do_backup_run_shareable (w : world) (cfg : config) (c : Orchestrator.chosen) :
  Orchestrator.type_choice c = 2%Z ->
  keeps no_sensitive_call (Orchestrator.do_backup_run w cfg c).
Proof.
  intros Htype. unfold Orchestrator.do_backup_run. rewrite Htype.
  change (2 =? 2)%Z with true. cbv iota.
  apply keeps_bind_bind.
  apply keeps_bind; [apply keeps_read_yes_no|]. intros include_conda.
  apply keeps_bind_ret. cbv beta iota.
  apply keeps_bind; [apply keeps_select_shells|]. intros shells.
  apply keeps_bind; [apply keeps_emit; intros; reflexivity|]. intros _.
  apply keeps_bind; [apply keeps_emit; intros; reflexivity|]. intros _.
  apply keeps_bind; [apply keeps_emit_items; apply backup_shells_not_sensitive|]. intros _.
  unfold no_sensitive_call.
  repeat keeps_step.
Qed.

(** C3.  Whenever the backup type chosen in [do_backup] is 2, "shareable",
    no step of the run is a call of the SSH, Git configuration, shell
    history or cloud credential routine, whatever the machine, the
    settings and everything else the user types. *)
Theorem shareable_never_calls_sensitive (w : world) (cfg : config)
    (typed : list input_item)
    (Hshareable : chosen_type w cfg (initial typed) = Some 2%Z) :
  Forall (fun i => is_sensitive_call i = false)
         (trace (snd (Orchestrator.do_backup w cfg (initial typed)))).
Proof.
  unfold chosen_type in Hshareable.
  unfold Orchestrator.do_backup, bind.
  pose proof (do_backup_ask_calls_nothing w cfg (initial typed) (Forall_nil _)) as Hask.
  destruct (Orchestrator.do_backup_ask w cfg (initial typed)) as [[c|e] s1];
    simpl in *; [|discriminate].
  apply (do_backup_run_shareable w cfg c); [congruence | exact Hask].
Qed.

Lemma shareable_never_calls_sensitive_witness :
  chosen_type (Sample.machine Sample.home_fs Sample.succeeding) (Sample.settings true)
    (initial Sample.typed_shareable) = Some 2%Z
  /\ Forall (fun i => is_sensitive_call i = false)
       (trace (snd (Orchestrator.do_backup
                      (Sample.machine Sample.home_fs Sample.succeeding)
                      (Sample.settings true) (initial Sample.typed_shareable)))).
Proof.
  split; [reflexivity|].
  apply shareable_never_calls_sensitive. reflexivity.
Defined.

(** The routines are reachable: a full backup with every category accepted
    does call them. *)
Example full_backup_calls_sensitive :
  chosen_type (Sample.machine Sample.home_fs Sample.succeeding) (Sample.settings true)
    (initial Sample.typed_full) = Some 1%Z
  /\ map (fun i => match i with Invoke c _ => [c] | Ev _ => [] end)
         (filter is_sensitive_call
            (trace (snd (Orchestrator.do_backup
                           (Sample.machine Sample.home_fs Sample.succeeding)
                           (Sample.settings true) (initial Sample.typed_full)))))
     = [[GitConfig]; [Ssh]; [History]; [CloudCreds]].
Proof. split; vm_compute; reflexivity. Qed.

(** ** The fallback of a failed clone *)

Lemma git_replay_repos (evs : list event) (g : Git.view) :
  Git.cwd (Git.replay evs g) = Git.cwd g
  /\ incl (Git.repos (Git.replay evs g)) (Git.cwd g :: Git.repos g).
Proof.
  revert g. induction evs as [|e r IH]; intros g; simpl.
  - split; [reflexivity | apply incl_tl, incl_refl].
  - destruct (IH (Git.after g e)) as [Hc Hr].
    assert (Ha : Git.cwd (Git.after g e) = Git.cwd g
                 /\ incl (Git.repos (Git.after g e)) (Git.cwd g :: Git.repos g)).
    { unfold Git.after. destruct e; try (split; [reflexivity | apply incl_tl, incl_refl]).
      destruct (list_eq_dec _ _ _); simpl;
        split; try reflexivity; [apply incl_refl | apply incl_tl, incl_refl]. }
    destruct Ha as [Hc' Hr']. split; [congruence|].
    intros x Hx. apply Hr in Hx. rewrite Hc' in Hx.
    destruct Hx as [<-|Hx]; [left; reflexivity | apply Hr'; exact Hx].
Qed.

(** C4 (the code departs from the claim).  [init_repo] runs [git init]
    without naming the destination, so the repository is created in the
    working directory of the process: unless that directory is the
    destination or one of its ancestors, no repository is found from the
    destination after the fallback, and the [remote add] that follows has
    none to configure. *)
Theorem init_repo_misses_destination (w : world) (dest_dir : path) (repo_url : str)
    (g : Git.view)
    (Hfresh : Git.discovers g dest_dir = false)
    (Helsewhere : Git.is_prefix (Git.cwd g) dest_dir = false) :
  Git.discovers (Git.replay (snd (init_repo w dest_dir repo_url)) g) dest_dir = false
  /\ In (ERun [lit "git"; lit "init"]) (snd (init_repo w dest_dir repo_url)).
Proof.
  split.
  - destruct (git_replay_repos (snd (init_repo w dest_dir repo_url)) g) as [_ Hincl].
    unfold Git.discovers in *.
    destruct (existsb _ (Git.repos (Git.replay _ g))) eqn:E; [|reflexivity].
    apply existsb_exists in E as [r [Hr Hp]].
    apply Hincl in Hr. destruct Hr as [<-|Hr]; [congruence|].
    assert (H : existsb (fun r => Git.is_prefix r dest_dir) (Git.repos g) = true)
      by (apply existsb_exists; exists r; tauto).
    congruence.
  - unfold init_repo, run_command.
    destruct (run w [lit "git"; lit "init"] 0) as [rc out err| |msg];
      [destruct (negb (rc =? 0)%Z)| |]; simpl; tauto.
Qed.

Lemma init_repo_misses_destination_witness :
  fst (init_repo (Sample.machine Sample.home_fs Sample.succeeding) Sample.git_dir
         (lit "https://example.org/alice/backups.git")) = true
  /\ filter runs_process
       (snd (init_repo (Sample.machine Sample.home_fs Sample.succeeding) Sample.git_dir
               (lit "https://example.org/alice/backups.git")))
     = [ERun [lit "git"; lit "init"];
        ERun [lit "git"; lit "-C"; lit "/tmp/shellpack_1/git"; lit "remote"; lit "add";
              lit "origin"; lit "https://example.org/alice/backups.git"]]
  /\ Git.discovers
       (Git.replay
          (snd (init_repo (Sample.machine Sample.home_fs Sample.succeeding) Sample.git_dir
                  (lit "https://example.org/alice/backups.git")))
          {| Git.cwd := map lit ["home"; "alice"]; Git.repos := [] |})
       Sample.git_dir = false.
Proof.
  split; [reflexivity|]. split; [reflexivity|].
  apply (init_repo_misses_destination
           (Sample.machine Sample.home_fs Sample.succeeding) Sample.git_dir
           (lit "https://example.org/alice/backups.git")
           {| Git.cwd := map lit ["home"; "alice"]; Git.repos := [] |});
    reflexivity.
Defined.

(** ** [read_choice] *)

Lemma read_choice_loop_in_range (n : nat) (inp : list input_item) :
  1 <= n ->
  forall v rest evs,
    read_choice_loop n inp = (Done v, rest, evs) -> (1 <= v <= Z.of_nat n)%Z.
Proof.
  intros Hn. induction inp as [|[l|] r IH]; intros v rest evs H; simpl in H.
  - inversion H. lia.
  - destruct (read_choice_loop n r) as [[o r'] e] eqn:Er.
    destruct (PyStr.strip l) as [|c s]; [inversion H; lia|].
    destruct (PyStr.isdigit (c :: s)).
    + destruct (PyStr.int (c :: s)) as [k|]; [|discriminate].
      destruct ((1 <=? k)%Z && (k <=? Z.of_nat n)%Z) eqn:Ek.
      * inversion H; subst. apply andb_true_iff in Ek as [E1 E2].
        apply Z.leb_le in E1, E2. lia.
      * inversion H; subst. eapply IH. reflexivity.
    + inversion H; subst. eapply IH. reflexivity.
  - inversion H. lia.
Qed.

(** Whatever is typed, [read_choice] comes to an end: it returns, or
    [int] raises on a line that [isdigit] let through. *)
Lemma read_choice_loop_outcome (n : nat) (inp : list input_item) :
  (exists v, fst (fst (read_choice_loop n inp)) = Done v)
  \/ fst (fst (read_choice_loop n inp)) = Raised ValueError.
Proof.
  induction inp as [|[l|] r IH]; simpl.
  - left. eexists. reflexivity.
  - destruct (read_choice_loop n r) as [[o r'] e] eqn:Er. simpl in IH.
    destruct (PyStr.strip l) as [|c s]; [left; eexists; reflexivity|].
    destruct (PyStr.isdigit (c :: s)); [|exact IH].
    destruct (PyStr.int (c :: s)) as [k|]; [|right; reflexivity].
    destruct ((1 <=? k)%Z && (k <=? Z.of_nat n)%Z); [left; eexists; reflexivity | exact IH].
  - left. eexists. reflexivity.
Qed.




(** ** Choosing the backup to restore *)





Lemma py_index_in_range {A} (l : list A) (k : Z) :
  (1 <= k <= Z.of_nat (length l))%Z ->
  exists x, py_index l (k - 1) = Some x /\ nth_error l (Z.to_nat (k - 1)) = Some x.
Proof.
  intros Hk. unfold py_index.
  replace (0 <=? k - 1)%Z with true by (symmetry; apply Z.leb_le; lia).
  destruct (nth_error l (Z.to_nat (k - 1))) as [x|] eqn:E.
  - exists x. split; reflexivity.
  - apply nth_error_None in E. lia.
Qed.





(** Scenario B: two backups listed out of order by the system; an answer
    out of range, then one that is not a number, then 2. *)
Example restore_scenario_b :
  Orchestrator.list_backups (Sample.machine Sample.repo_fs Sample.succeeding) Sample.git_dir
  = [lit "bash-host1-20240101"; lit "zsh-host2-20240215"]
  /\ Orchestrator.select_backup (Sample.machine Sample.repo_fs Sample.succeeding)
       Sample.git_dir (initial [Line (lit "7"); Line (lit "x"); Line (lit " 2 ")])
     = (Done (lit "zsh-host2-20240215"),
        {| stdin := [];
           trace := map Ev
             (print_status (lit "Found 2 backup(s)") "ok"
              ++ [EOut (lit "      [1] bash-host1-20240101");
                  EOut (lit "      [2] zsh-host2-20240215")]
              ++ print_error (lit "Invalid choice. Please enter 1-2")
              ++ print_error (lit "Invalid choice. Please enter 1-2")
              ++ print_status (lit "Selected: zsh-host2-20240215") "info") |}).
Proof. split; reflexivity. Qed.

(** C10 (the code departs from the claim).  With two options and the
    single character U+00B2 typed, [str.isdigit] holds, [int] raises
    [ValueError], and [read_choice] returns no integer. *)
Theorem read_choice_superscript_raises :
  PyStr.isdigit (PyStr.strip ["178"%char]) = true
  /\ PyStr.int (PyStr.strip ["178"%char]) = None
  /\ fst (read_choice "Select backup type"
            [lit "Full backup (personal use)"; lit "Shareable backup (safe to share)"]
            (initial [Line ["178"%char]]))
     = Raised ValueError.
Proof. repeat split; reflexivity. Qed.

(** X3.  When [read_choice] does return, over a non-empty list, the value is a
    valid 1-based index; end of file, an interrupt and a blank line give 1;
    and the only other way out is the [ValueError] above. *)
Lemma read_choice_returns_index (prompt : string) (options : list str) (s : state) :
  options <> [] ->
  (forall v, fst (read_choice prompt options s) = Done v ->
             (1 <= v <= Z.of_nat (length options))%Z
             /\ exists x, py_index options (v - 1) = Some x)
  /\ ((exists v, fst (read_choice prompt options s) = Done v)
      \/ fst (read_choice prompt options s) = Raised ValueError)
  /\ (forall tr, fst (read_choice prompt options {| stdin := []; trace := tr |}) = Done 1%Z)
  /\ (forall tr rest,
         fst (read_choice prompt options {| stdin := Interrupt :: rest; trace := tr |})
         = Done 1%Z)
  /\ (forall tr l rest,
         PyStr.strip l = [] ->
         fst (read_choice prompt options {| stdin := Line l :: rest; trace := tr |})
         = Done 1%Z).
Proof.
  intros Hne.
  assert (Hn : 1 <= length options) by (destruct options; [contradiction | simpl; lia]).
  split; [|split; [|split; [|split]]].
  - intros v Hv. unfold read_choice in Hv.
    pose proof (read_choice_loop_in_range (length options) (stdin s) Hn) as Hr.
    destruct (read_choice_loop (length options) (stdin s)) as [[o rest] evs].
    simpl in Hv. subst o. specialize (Hr v rest evs eq_refl).
    split; [exact Hr|].
    destruct (py_index_in_range options v Hr) as [x [Hx _]]. exists x. exact Hx.
  - unfold read_choice.
    pose proof (read_choice_loop_outcome (length options) (stdin s)) as Ho.
    destruct (read_choice_loop (length options) (stdin s)) as [[o rest] evs].
    exact Ho.
  - reflexivity.
  - reflexivity.
  - intros tr l rest Hl. unfold read_choice. simpl.
    destruct (read_choice_loop (length options) rest) as [[o r'] e].
    rewrite Hl. reflexivity.
Qed.

(** * Further properties *)

(** ** [sanitize_name] on its own output *)

Lemma collapse_dots_from_clean (s : str) (b : bool) :
  Sanitize.has_dotdot s = false ->
  (b = true -> match s with c :: _ => Sanitize.is_dot c = false | [] => True end) ->
  Sanitize.collapse_dots_from b s = s.
Proof.
  revert b. induction s as [|c r IH]; intros b Hd Hb; [reflexivity|].
  cbn [Sanitize.collapse_dots_from].
  assert (Hr : Sanitize.has_dotdot r = false).
  { destruct r as [|c' r']; [reflexivity|].
    rewrite has_dotdot_cons in Hd. apply orb_false_iff in Hd. tauto. }
  destruct (Sanitize.is_dot c) eqn:Ec.
  - destruct b; [specialize (Hb eq_refl); congruence|].
    f_equal. apply IH; [exact Hr|]. intros _.
    destruct r as [|c' r']; [exact I|].
    rewrite has_dotdot_cons, Ec in Hd. apply orb_false_iff in Hd as [Hd _].
    exact Hd.
  - f_equal. apply IH; [exact Hr | discriminate].
Qed.

Lemma filter_all_true {A} (f : A -> bool) (l : list A) :
  forallb f l = true -> filter f l = l.
Proof.
  induction l as [|x r IH]; simpl; [reflexivity|].
  intros H. apply andb_true_iff in H as [Hx Hr]. rewrite Hx, IH by exact Hr. reflexivity.
Qed.

Lemma sanitize_name_clean_input (now : datetime) (name : str) :
  clean_name name -> Sanitize.sanitize_name now name = name.
Proof.
  intros [Hne [Hall [Hdd Hlen]]]. unfold Sanitize.sanitize_name.
  unfold Sanitize.strip_disallowed. rewrite (filter_all_true _ _ Hall).
  unfold Sanitize.collapse_dots.
  rewrite (collapse_dots_from_clean name false Hdd) by discriminate.
  replace (100 <? length name) with false by (symmetry; apply Nat.ltb_ge; exact Hlen).
  destruct name; [contradiction | reflexivity].
Qed.

Lemma sanitize_name_clean_output (now : datetime) (name : str) :
  clean_name (Sanitize.sanitize_name now name).
Proof.
  unfold clean_name, Sanitize.sanitize_name.
  set (a := Sanitize.strip_disallowed name).
  set (b := Sanitize.collapse_dots a).
  set (c := if 100 <? length b then firstn 100 b else b).
  assert (Ha : forallb Sanitize.allowed a = true).
  { apply forallb_forall. intros x Hx. apply filter_In in Hx. tauto. }
  assert (Hb : forallb Sanitize.allowed b = true).
  { apply forallb_forall. apply Forall_forall.
    apply collapse_dots_from_allowed. apply Forall_forall.
    apply forallb_forall. exact Ha. }
  assert (Hd : Sanitize.has_dotdot b = false) by apply collapse_dots_from_no_dotdot.
  assert (Hc : forallb Sanitize.allowed c = true /\ Sanitize.has_dotdot c = false
               /\ length c <= 100).
  { unfold c. destruct (100 <? length b) eqn:E.
    - split; [|split].
      + rewrite <- (firstn_skipn 100 b), forallb_app in Hb.
        apply andb_true_iff in Hb. tauto.
      + apply has_dotdot_firstn. exact Hd.
      + rewrite length_firstn. lia.
    - apply Nat.ltb_ge in E. auto. }
  pose proof (fallback_name_chars now) as Hf.
  destruct c as [|x r].
  - split; [discriminate|]. split; [|split].
    + apply forallb_forall. intros y Hy.
      exact (proj1 (proj1 (Forall_forall _ _) Hf y Hy)).
    + apply no_dot_no_dotdot. eapply Forall_impl; [|exact Hf]. simpl; tauto.
    + rewrite fallback_name_length. lia.
  - split; [discriminate | exact Hc].
Qed.

(** X1.  A name that is already clean (non-empty, allowed characters only,
    no two dots in a row, at most 100 characters) is returned unchanged. *)
Theorem sanitize_name_keeps_clean_names (now : datetime) (name : str)
    (Hclean : clean_name name) :
  Sanitize.sanitize_name now name = name.
Proof. apply sanitize_name_clean_input. exact Hclean. Qed.

Lemma sanitize_name_keeps_clean_names_witness :
  clean_name (lit "zsh-host2-20240215")
  /\ Sanitize.sanitize_name (Build_datetime 2024 2 15 10 30 0) (lit "zsh-host2-20240215")
     = lit "zsh-host2-20240215".
Proof.
  assert (H : clean_name (lit "zsh-host2-20240215")).
  { repeat split; try reflexivity; [discriminate | simpl; lia]. }
  split; [exact H|].
  exact (sanitize_name_keeps_clean_names _ _ H).
Defined.

(** X2.  Sanitising twice is sanitising once, whatever the clock reads at
    either call. *)
Theorem sanitize_name_idempotent (now now' : datetime) (name : str) :
  Sanitize.sanitize_name now' (Sanitize.sanitize_name now name)
  = Sanitize.sanitize_name now name.
Proof. apply sanitize_name_clean_input. apply sanitize_name_clean_output. Qed.

(** ** [read_choice] when it returns *)

Lemma read_choice_returns_index_witness :
  [lit "Full backup (personal use)"; lit "Shareable backup (safe to share)"] <> []
  /\ fst (read_choice "Select backup type"
            [lit "Full backup (personal use)"; lit "Shareable backup (safe to share)"]
            (initial [Line (lit "9"); Line (lit "two"); Line (lit " 2")]))
     = Done 2%Z
  /\ (1 <= 2 <= Z.of_nat 2)%Z.
Proof.
  assert (Hne : [lit "Full backup (personal use)"; lit "Shareable backup (safe to share)"]
                <> []) by discriminate.
  split; [exact Hne|]. split; [reflexivity|].
  exact (proj1 (proj1 (read_choice_returns_index "Select backup type" _
                         (initial [Line (lit "9"); Line (lit "two"); Line (lit " 2")])
                         Hne) 2%Z eq_refl)).
Defined.

(** ** [check_dependencies] *)

(** X4.  [check_dependencies] succeeds exactly when [git], [curl] and [tar]
    are all found, whatever of [jq] and [ssh]; it prints an error exactly
    when it fails, and, its lines in the log apart, it neither writes
    nor runs anything. *)
Theorem check_dependencies_iff (w : world) :
  fst (check_dependencies w)
  = command_exists w "git" && command_exists w "curl" && command_exists w "tar"
  /\ existsb (fun e => match e with EError _ => true | _ => false end)
       (snd (check_dependencies w))
     = negb (fst (check_dependencies w))
  /\ forallb dry_event (snd (check_dependencies w)) = true.
Proof.
  unfold check_dependencies, command_exists. simpl.
  destruct (which w "git"), (which w "curl"), (which w "tar"),
    (which w "jq"), (which w "ssh");
    repeat split; reflexivity.
Qed.

(** ** [detect_package_manager] *)

(** X5.  Off macOS, [detect_package_manager] answers the first of apt, dnf,
    yum, pacman, zypper, apk that is installed, so what it names exists
    and nothing before it in that order does; it answers "unknown" exactly
    when none is installed.  On macOS it answers "brew" without looking. *)
Theorem detect_package_manager_first (w : world) (os_name : str) :
  (os_name = lit "macos" -> detect_package_manager w os_name = lit "brew")
  /\ (os_name <> lit "macos" ->
      (forall pm, In pm managers -> command_exists w pm = false)
      <-> detect_package_manager w os_name = lit "unknown")
  /\ (os_name <> lit "macos" ->
      forall before pm after,
        managers = before ++ pm :: after ->
        command_exists w pm = true ->
        (forall q, In q before -> command_exists w q = false) ->
        detect_package_manager w os_name = lit pm).
Proof.
  unfold detect_package_manager. split; [|split].
  - intros ->. reflexivity.
  - intros Hos. apply str_eqb_neq in Hos. rewrite Hos.
    fold managers. split.
    + intros Hnone.
      destruct (find (command_exists w) managers) as [pm|] eqn:E; [|reflexivity].
      apply find_some in E as [Hin Hex]. rewrite (Hnone pm Hin) in Hex. discriminate.
    + intros Hu pm Hin.
      destruct (find (command_exists w) managers) as [q|] eqn:E.
      * exfalso. apply find_some in E as [Hq _].
        unfold managers in Hq. simpl in Hq.
        repeat (destruct Hq as [<-|Hq]; [discriminate Hu|]). contradiction.
      * exact (find_none _ _ E pm Hin).
  - intros Hos before pm after Hsplit Hpm Hbefore.
    apply str_eqb_neq in Hos. rewrite Hos. fold managers. rewrite Hsplit.
    clear Hsplit. induction before as [|q r IH]; simpl.
    + rewrite Hpm. reflexivity.
    + rewrite (Hbefore q (or_introl eq_refl)). apply IH.
      intros x Hx. apply Hbefore. right. exact Hx.
Qed.

(** ** [run_command] *)

Lemma run_command_eta (w : world) (cmd : list str) (t : nat) :
  run_command w cmd false t
  = ((rc_of w cmd t, out_of w cmd t, err_of w cmd t), snd (run_command w cmd false t)).
Proof.
  unfold rc_of, out_of, err_of.
  destruct (run_command w cmd false t) as [[[rc out] err] evs]. reflexivity.
Qed.

Lemma run_command_processes (w : world) (cmd : list str) (t : nat) :
  processes (snd (run_command w cmd false t)) = [cmd].
Proof. unfold run_command. destruct (run w cmd t); reflexivity. Qed.

Lemma processes_app (a b : list event) : processes (a ++ b) = processes a ++ processes b.
Proof. unfold processes. apply flat_map_app. Qed.

Lemma processes_print_status (m : str) (s : string) : processes (print_status m s) = [].
Proof. reflexivity. Qed.

Lemma processes_print_error (m : str) : processes (print_error m) = [].
Proof. reflexivity. Qed.

Lemma processes_log (l : string) (m : str) : processes (log l m) = [].
Proof. reflexivity. Qed.

(** ** [push_to_repo] *)

Lemma push_branches_two (w : world) (repo_dir : path) (err : str) :
  fst (fst (push_branches w repo_dir ["main"; "master"] err))
  = push_accepted w repo_dir "main" || push_accepted w repo_dir "master"
  /\ processes (snd (push_branches w repo_dir ["main"; "master"] err))
     = if push_accepted w repo_dir "main"
       then [push_cmd repo_dir "main"]
       else [push_cmd repo_dir "main"; push_cmd repo_dir "master"].
Proof.
  unfold push_branches, push_accepted.
  change [lit "git"; lit "-C"; path_str repo_dir; lit "push"; lit "-u"; lit "origin";
          lit "main"] with (push_cmd repo_dir "main").
  change [lit "git"; lit "-C"; path_str repo_dir; lit "push"; lit "-u"; lit "origin";
          lit "master"] with (push_cmd repo_dir "master").
  rewrite (run_command_eta w (push_cmd repo_dir "main") 60).
  rewrite (run_command_eta w (push_cmd repo_dir "master") 60).
  destruct ((rc_of w (push_cmd repo_dir "main") 60 =? 0)%Z
            || PyStr.contains (err_of w (push_cmd repo_dir "main") 60)
                 (lit "Everything up-to-date")) eqn:Emain.
  - split; [reflexivity|]. apply run_command_processes.
  - destruct ((rc_of w (push_cmd repo_dir "master") 60 =? 0)%Z
              || PyStr.contains (err_of w (push_cmd repo_dir "master") 60)
                   (lit "Everything up-to-date")) eqn:Emaster;
      (split; [reflexivity|]);
      cbn [snd]; rewrite ?processes_app, !run_command_processes; reflexivity.
Qed.

(** X6.  Outside dry run [push_to_repo] succeeds exactly when [git add]
    exits with zero and the push to [main] or, failing that, to [master]
    exits with zero or reports "Everything up-to-date"; the exit status of
    [git commit] plays no part in the result.  It runs [git add] and stops
    there if that fails; otherwise [git commit], [git diff --cached
    --quiet] if the commit failed, the push to [main], and the push to
    [master] only if [main] was refused.  In dry run it succeeds without
    starting any process. *)
Theorem push_to_repo_outcome (w : world) (cfg : config) (repo_dir : path) (message : str) :
  (dry_run cfg = true ->
   fst (push_to_repo w cfg repo_dir message) = true
   /\ processes (snd (push_to_repo w cfg repo_dir message)) = [])
  /\ (dry_run cfg = false ->
      fst (push_to_repo w cfg repo_dir message)
      = (rc_of w (add_cmd repo_dir) 0 =? 0)%Z
        && (push_accepted w repo_dir "main" || push_accepted w repo_dir "master")
      /\ processes (snd (push_to_repo w cfg repo_dir message))
         = if (rc_of w (add_cmd repo_dir) 0 =? 0)%Z
           then [add_cmd repo_dir; commit_cmd repo_dir message]
                ++ (if (rc_of w (commit_cmd repo_dir message) 0 =? 0)%Z
                    then [] else [diff_cmd repo_dir])
                ++ [push_cmd repo_dir "main"]
                ++ (if push_accepted w repo_dir "main"
                    then [] else [push_cmd repo_dir "master"])
           else [add_cmd repo_dir]).
Proof.
  split.
  - intros Hdry. unfold push_to_repo. rewrite Hdry. split; reflexivity.
  - intros Hrun. unfold push_to_repo. rewrite Hrun.
    change [lit "git"; lit "-C"; path_str repo_dir; lit "add"; lit "-A"]
      with (add_cmd repo_dir).
    change [lit "git"; lit "-C"; path_str repo_dir; lit "commit"; lit "-m"; message]
      with (commit_cmd repo_dir message).
    change [lit "git"; lit "-C"; path_str repo_dir; lit "diff"; lit "--cached";
            lit "--quiet"] with (diff_cmd repo_dir).
    rewrite (run_command_eta w (add_cmd repo_dir) 0).
    pose proof (run_command_processes w (add_cmd repo_dir) 0) as Padd.
    destruct (rc_of w (add_cmd repo_dir) 0 =? 0)%Z eqn:Eadd; cbn [negb].
    + rewrite (run_command_eta w (commit_cmd repo_dir message) 0).
      pose proof (run_command_processes w (commit_cmd repo_dir message) 0) as Pcommit.
      rewrite (run_command_eta w (diff_cmd repo_dir) 0).
      pose proof (run_command_processes w (diff_cmd repo_dir) 0) as Pdiff.
      destruct (push_branches_two w repo_dir (err_of w (commit_cmd repo_dir message) 0))
        as [Hok Hproc].
      destruct (push_branches w repo_dir ["main"; "master"]
                  (err_of w (commit_cmd repo_dir message) 0)) as [[ok e] evs_push].
      cbn [fst snd] in *. subst ok.
      split; [reflexivity|].
      rewrite !processes_app, Padd, Pcommit, Hproc, processes_log.
      destruct (rc_of w (commit_cmd repo_dir message) 0 =? 0)%Z; cbn [negb];
        rewrite ?processes_app, ?Pdiff;
        destruct (push_accepted w repo_dir "main");
        destruct (rc_of w (diff_cmd repo_dir) 0 =? 0)%Z;
        destruct (push_accepted w repo_dir "master"); reflexivity.
    + split; [reflexivity|].
      cbn [snd]. rewrite !processes_app, Padd. reflexivity.
Qed.

(** ** [verify_ssh_connection] *)




(** ** Triples over traces *)

Section Triples.

Context {A : Type} (P : list item -> Prop) (Q : A -> list item -> Prop)
        (E : exn -> list item -> Prop).

Lemma triple_ret (a : A) : (forall tr, P tr -> Q a tr) -> triple P (ret a) Q E.
Proof. intros H s Hs. apply H. exact Hs. Qed.

Lemma triple_raise (e : exn) : (forall tr, P tr -> E e tr) -> triple P (@raise A e) Q E.
Proof. intros H s Hs. apply H. exact Hs. Qed.

Lemma triple_bind {B} (R : B -> list item -> Prop) (m : M B) (k : B -> M A) :
  triple P m R E -> (forall b, triple (R b) (k b) Q E) -> triple P (bind m k) Q E.
Proof.
  intros Hm Hk s Hs. unfold bind. specialize (Hm s Hs).
  destruct (m s) as [[b|e] s']; [apply Hk; exact Hm | exact Hm].
Qed.

Lemma triple_weaken (P' : list item -> Prop) (m : M A) :
  (forall tr, P' tr -> P tr) -> triple P m Q E -> triple P' m Q E.
Proof. intros H Hm s Hs. apply Hm. apply H. exact Hs. Qed.

End Triples.

Section TripleLeaves.

Context (P : list item -> Prop) (E : exn -> list item -> Prop).

Lemma triple_emit_items (Q : unit -> list item -> Prop) (l : list item) :
  (forall tr, P tr -> Q tt (tr ++ l)) -> triple P (emit_items l) Q E.
Proof. intros H s Hs. simpl. apply H. exact Hs. Qed.

Lemma triple_emit (Q : unit -> list item -> Prop) (l : list event) :
  (forall tr, P tr -> Q tt (tr ++ map Ev l)) -> triple P (emit l) Q E.
Proof. apply triple_emit_items. Qed.

Lemma triple_invoke (Q : unit -> list item -> Prop) (c : category) (body : list event) :
  (forall tr, P tr -> Q tt (tr ++ [Invoke c body])) -> triple P (invoke c body) Q E.
Proof. apply triple_emit_items. Qed.

Lemma triple_input (Q : option str -> list item -> Prop) :
  (forall tr x, P tr -> Q x tr) -> triple P input Q E.
Proof.
  intros H s Hs. unfold input. destruct (stdin s) as [|[l|] r]; apply H; exact Hs.
Qed.

Lemma triple_read_input (Q : str -> list item -> Prop) (prompt : string) (default : str) :
  (forall tr x, P tr -> Q x tr) -> triple P (read_input prompt default) Q E.
Proof.
  intros H. unfold read_input.
  apply (triple_bind P Q E (fun _ tr => P tr)).
  - apply triple_input. auto.
  - intros [l|]; [destruct (PyStr.strip l)|]; apply triple_ret; auto.
Qed.

Lemma triple_read_yes_no (Q : bool -> list item -> Prop) (prompt : str) (default : bool) :
  (forall tr x, P tr -> Q x tr) -> triple P (read_yes_no prompt default) Q E.
Proof.
  intros H. unfold read_yes_no.
  apply (triple_bind P Q E (fun _ tr => P tr)).
  - apply triple_input. auto.
  - intros [l|]; [destruct (PyStr.lower (PyStr.strip l))|]; apply triple_ret; auto.
Qed.

End TripleLeaves.

(** What [read_choice] shows: option lines and refusals. *)

Lemma option_lines_talk (i : nat) (options : list str) :
  forallb dry_talk (option_lines i options) = true.
Proof.
  revert i. induction options as [|o r IH]; intros i; simpl; [reflexivity | apply IH].
Qed.

Lemma read_choice_loop_talk (n : nat) (inp : list input_item) :
  forallb dry_talk (snd (read_choice_loop n inp)) = true.
Proof.
  induction inp as [|[l|] r IH]; simpl; try reflexivity.
  destruct (read_choice_loop n r) as [[o r'] e]. simpl in IH.
  destruct (PyStr.strip l) as [|c s]; [reflexivity|].
  destruct (PyStr.isdigit (c :: s)); [|exact IH].
  destruct (PyStr.int (c :: s)) as [k|]; [|reflexivity].
  destruct ((1 <=? k)%Z && (k <=? Z.of_nat n)%Z); [reflexivity | exact IH].
Qed.

Lemma triple_read_choice (P : list item -> Prop) (Q : Z -> list item -> Prop)
    (E : exn -> list item -> Prop) (prompt : string) (options : list str) :
  (forall tr evs v, P tr -> forallb dry_talk evs = true -> Q v (tr ++ map Ev evs)) ->
  (forall tr evs, P tr -> forallb dry_talk evs = true -> E ValueError (tr ++ map Ev evs)) ->
  triple P (read_choice prompt options) Q E.
Proof.
  intros HQ HE s Hs. unfold read_choice.
  pose proof (read_choice_loop_outcome (length options) (stdin s)) as Ho.
  pose proof (read_choice_loop_talk (length options) (stdin s)) as Ht.
  destruct (read_choice_loop (length options) (stdin s)) as [[o rest] evs].
  cbn [fst snd] in *.
  assert (Hall : forallb dry_talk (option_lines 0 options ++ evs) = true).
  { rewrite forallb_app, option_lines_talk, Ht. reflexivity. }
  destruct Ho as [[v ->] | ->]; cbn [trace]; [apply HQ | apply HE]; assumption.
Qed.

Lemma triple_select_shells (P : list item -> Prop) (Q : list str -> list item -> Prop)
    (E : exn -> list item -> Prop) (w : world) (names : list string) :
  (forall tr x, P tr -> Q x tr) ->
  triple P (Orchestrator.select_shells w names) Q E.
Proof.
  revert Q. induction names as [|n r IH]; intros Q H; simpl.
  - apply triple_ret. auto.
  - destruct (command_exists w n); [|apply IH; exact H].
    apply (triple_bind P Q E (fun _ tr => P tr)).
    + apply triple_read_yes_no. auto.
    + intros yes. apply (triple_bind P Q E (fun _ tr => P tr)).
      * apply IH. auto.
      * intros more. apply triple_ret. auto.
Qed.

(** ** How [do_backup] can end *)

Lemma do_backup_ends (w : world) (cfg : config) :
  triple (fun _ => True) (Orchestrator.do_backup w cfg) (fun _ _ => True)
         (fun e _ => e = SystemExit 1 \/ e = ValueError).
Proof.
  unfold Orchestrator.do_backup, Orchestrator.do_backup_ask, Orchestrator.do_backup_run.
  repeat
    first
      [ apply triple_ret; intros; exact I
      | apply triple_raise; intros; auto
      | apply triple_emit; intros; exact I
      | apply triple_emit_items; intros; exact I
      | apply triple_invoke; intros; exact I
      | apply triple_read_input; intros; exact I
      | apply triple_read_yes_no; intros; exact I
      | apply triple_read_choice; intros; auto
      | apply triple_select_shells; intros; exact I
      | apply (triple_bind _ _ _ (fun _ _ => True)); [|intros]
      | match goal with
        | |- triple _ (if ?b then _ else _) _ _ => destruct b
        | |- triple _ (match ?x with _ => _ end) _ _ => destruct x
        end ].
Qed.

(** ** The order of the routines in [do_backup] *)

Lemma calls_of_app (a b : list item) : calls_of (a ++ b) = calls_of a ++ calls_of b.
Proof. unfold calls_of. apply flat_map_app. Qed.

Lemma calls_of_events (l : list event) : calls_of (map Ev l) = [].
Proof. induction l as [|e r IH]; [reflexivity | exact IH]. Qed.

Lemma in_order_events (n : nat) (tr : list item) (l : list event) :
  in_order_below n tr -> in_order_below n (tr ++ map Ev l).
Proof.
  unfold in_order_below. rewrite calls_of_app, calls_of_events, app_nil_r. tauto.
Qed.

Lemma in_order_mono (n m : nat) (tr : list item) :
  n <= m -> in_order_below n tr -> in_order_below m tr.
Proof.
  intros Hnm [Hs Hb]. split; [exact Hs|].
  eapply Forall_impl; [|exact Hb]. simpl. intros c Hc. lia.
Qed.

Lemma sorted_snoc (l : list nat) (x : nat) :
  StronglySorted lt l -> Forall (fun y => y < x) l -> StronglySorted lt (l ++ [x]).
Proof.
  induction 1 as [|a r Hr IH Ha]; intros Hx; simpl.
  - repeat constructor.
  - inversion Hx; subst. constructor; [apply IH; assumption|].
    apply Forall_app. split; [exact Ha | constructor; [assumption | constructor]].
Qed.

Lemma in_order_invoke (n : nat) (tr : list item) (c : category) (body : list event) :
  n <= rank c -> in_order_below n tr ->
  in_order_below (S (rank c)) (tr ++ [Invoke c body]).
Proof.
  intros Hn [Hs Hb]. unfold in_order_below.
  rewrite calls_of_app. cbn [calls_of flat_map app]. rewrite map_app. cbn [map].
  split.
  - apply sorted_snoc; [exact Hs|].
    apply Forall_forall. intros y Hy. apply in_map_iff in Hy as [c' [<- Hc']].
    pose proof (proj1 (Forall_forall _ _) Hb c' Hc'). simpl in *. lia.
  - apply Forall_app. split.
    + eapply Forall_impl; [|exact Hb]. simpl. intros c' Hc'. lia.
    + constructor; [lia | constructor].
Qed.

Lemma select_shells_subseq (P : list item -> Prop) (E : exn -> list item -> Prop)
    (w : world) (names : list string) :
  triple P (Orchestrator.select_shells w names)
         (fun r tr => P tr /\ is_subseq r names = true) E.
Proof.
  induction names as [|n r IH]; cbn [Orchestrator.select_shells].
  - apply triple_ret. auto.
  - destruct (command_exists w n).
    + apply (triple_bind P _ E (fun _ tr => P tr)).
      * apply triple_read_yes_no. auto.
      * intros yes.
        apply (triple_bind P _ E (fun x tr => P tr /\ is_subseq x r = true)).
        -- exact IH.
        -- intros more. apply triple_ret. intros tr [Hp Hsub]. split; [exact Hp|].
           destruct yes; cbn [is_subseq].
           ++ rewrite str_eqb_refl, Hsub. reflexivity.
           ++ destruct more; [reflexivity|]. rewrite Hsub. apply orb_true_r.
    + intros s Hs. specialize (IH s Hs).
      destruct (Orchestrator.select_shells w r s) as [[x|e] s']; [|exact IH].
      destruct IH as [Hp Hsub]. split; [exact Hp|].
      cbn [is_subseq]. destruct x; [reflexivity|]. rewrite Hsub. apply orb_true_r.
Qed.

Lemma is_subseq_nil_names (r : list str) : is_subseq r [] = true -> r = [].
Proof. destruct r; [reflexivity | discriminate]. Qed.

Lemma is_subseq_cons (r : list str) (n : string) (names : list string) :
  is_subseq r (n :: names) = true ->
  (exists r', r = lit n :: r' /\ is_subseq r' names = true) \/ is_subseq r names = true.
Proof.
  cbn [is_subseq]. destruct r as [|x r']; [intros _; right; destruct names; reflexivity|].
  intros H. apply orb_true_iff in H as [H|H]; [|right; exact H].
  apply andb_true_iff in H as [Hx Hr]. apply str_eqb_eq in Hx. subst x.
  left. exists r'. split; [reflexivity | exact Hr].
Qed.

Lemma backup_shells_in_order (w : world) (cfg : config) (dir : path) (shells : list str)
    (tr : list item) :
  is_subseq shells ["fish"; "bash"; "zsh"] = true ->
  in_order_below 0 tr ->
  in_order_below 3 (tr ++ Orchestrator.backup_shells w cfg dir shells).
Proof.
  intros Hsub Htr.
  assert (Hfish : forall t r, is_subseq r ["zsh"] = true -> in_order_below 2 t ->
                              in_order_below 3 (t ++ Orchestrator.backup_shells w cfg dir r)).
  { intros t r H Ht. apply is_subseq_cons in H as [[r' [-> H]] | H];
      apply is_subseq_nil_names in H; subst.
    - apply (in_order_invoke 2 t Zsh); [simpl; lia | exact Ht].
    - simpl. rewrite app_nil_r. apply (in_order_mono 2); [lia | exact Ht]. }
  assert (Hbash : forall t r, is_subseq r ["bash"; "zsh"] = true -> in_order_below 1 t ->
                              in_order_below 3 (t ++ Orchestrator.backup_shells w cfg dir r)).
  { intros t r H Ht. apply is_subseq_cons in H as [[r' [-> H]] | H].
    - change (Orchestrator.backup_shells w cfg dir (lit "bash" :: r'))
        with ([Invoke Bash (Backup.backup_bash w cfg dir)]
              ++ Orchestrator.backup_shells w cfg dir r').
      rewrite app_assoc. apply Hfish; [exact H|].
      apply (in_order_invoke 1 t Bash); [simpl; lia | exact Ht].
    - apply Hfish; [exact H|]. apply (in_order_mono 1); [lia | exact Ht]. }
  apply is_subseq_cons in Hsub as [[r' [-> H]] | H].
  - change (Orchestrator.backup_shells w cfg dir (lit "fish" :: r'))
      with ([Invoke Fish (Backup.backup_fish w cfg dir)]
            ++ Orchestrator.backup_shells w cfg dir r').
    rewrite app_assoc. apply Hbash; [exact H|].
    apply (in_order_invoke 0 tr Fish); [simpl; lia | exact Htr].
  - apply Hbash; [exact H|]. apply (in_order_mono 0); [lia | exact Htr].
Qed.

Ltac order_leaf n :=
  first
    [ apply triple_ret; intros tr0 Hin0; apply (in_order_mono n); [lia | exact Hin0]
    | apply triple_raise; intros tr0 Hin0; apply (in_order_mono n); [lia | exact Hin0]
    | apply triple_emit; intros tr0 Hin0; apply in_order_events; exact Hin0 ].

Lemma do_backup_run_in_order (w : world) (cfg : config) (c : Orchestrator.chosen) :
  triple (in_order_below 0) (Orchestrator.do_backup_run w cfg c)
         (fun _ => in_order_below 10) (fun _ => in_order_below 10).
Proof.
  unfold Orchestrator.do_backup_run.
  set (tail_ok := fun (n : nat) (_ : unit) => in_order_below n).
  apply (triple_bind _ _ _ (fun _ => in_order_below 0)).
  { destruct (Orchestrator.type_choice c =? 2)%Z;
      repeat first
        [ apply triple_ret; intros tr0 Hin0; exact Hin0
        | apply triple_read_yes_no; intros tr0 x0 Hin0; exact Hin0
        | apply (triple_bind _ _ _ (fun _ => in_order_below 0)); [|intros] ]. }
  intros [[[[include_ssh include_git_cfg] include_history] include_cloud_creds]
            include_conda].
  apply (triple_bind _ _ _ (fun r tr => in_order_below 0 tr
                                        /\ is_subseq r ["fish"; "bash"; "zsh"] = true)).
  { apply (select_shells_subseq (in_order_below 0)). }
  intros shells. cbv beta.
  apply (triple_bind _ _ _ (fun _ tr => in_order_below 0 tr
                              /\ is_subseq shells ["fish"; "bash"; "zsh"] = true)).
  { apply triple_emit. intros tr0 [H1 H2]. split; [apply in_order_events|]; assumption. }
  intros []; cbv beta.
  apply (triple_bind _ _ _ (fun _ tr => in_order_below 0 tr
                              /\ is_subseq shells ["fish"; "bash"; "zsh"] = true)).
  { apply triple_emit. intros tr0 [H1 H2]. split; [apply in_order_events|]; assumption. }
  intros []; cbv beta.
  apply (triple_bind _ _ _ (tail_ok 3)).
  { apply triple_emit_items. intros tr0 [H1 H2]. apply backup_shells_in_order; assumption. }
  intros []; cbv beta.
  apply (triple_bind _ _ _ (tail_ok 4)).
  { apply triple_invoke. intros tr0 H. apply (in_order_invoke 3 tr0 Packages); [simpl; lia | exact H]. }
  intros []; cbv beta.
  apply (triple_bind _ _ _ (tail_ok 5)).
  { apply triple_invoke. intros tr0 H. apply (in_order_invoke 4 tr0 Starship); [simpl; lia | exact H]. }
  intros []; cbv beta.
  apply (triple_bind _ _ _ (tail_ok 6)).
  { destruct include_git_cfg.
    - apply triple_invoke. intros tr0 H.
      apply (in_order_invoke 5 tr0 GitConfig); [simpl; lia | exact H].
    - apply triple_emit. intros tr0 H. apply in_order_events.
      apply (in_order_mono 5); [lia | exact H]. }
  intros []; cbv beta.
  apply (triple_bind _ _ _ (tail_ok 7)).
  { destruct include_ssh.
    - destruct (Backup.backup_ssh w cfg _) as [ok evs].
      apply (triple_bind _ _ _ (tail_ok 7)).
      + apply triple_invoke. intros tr0 H.
        apply (in_order_invoke 6 tr0 Ssh); [simpl; lia | exact H].
      + intros []; cbv beta. destruct (negb ok).
        * apply triple_emit. intros tr0 H. apply in_order_events. exact H.
        * apply triple_ret. auto.
    - apply triple_emit. intros tr0 H. apply in_order_events.
      apply (in_order_mono 6); [lia | exact H]. }
  intros []; cbv beta.
  apply (triple_bind _ _ _ (tail_ok 8)).
  { destruct include_conda.
    - apply triple_invoke. intros tr0 H.
      apply (in_order_invoke 7 tr0 Conda); [simpl; lia | exact H].
    - apply triple_emit. intros tr0 H. apply in_order_events.
      apply (in_order_mono 7); [lia | exact H]. }
  intros []; cbv beta.
  apply (triple_bind _ _ _ (tail_ok 9)).
  { destruct include_history.
    - apply triple_invoke. intros tr0 H.
      apply (in_order_invoke 8 tr0 History); [simpl; lia | exact H].
    - apply triple_emit. intros tr0 H. apply in_order_events.
      apply (in_order_mono 8); [lia | exact H]. }
  intros []; cbv beta.
  apply (triple_bind _ _ _ (tail_ok 10)).
  { destruct include_cloud_creds.
    - apply triple_invoke. intros tr0 H.
      apply (in_order_invoke 9 tr0 CloudCreds); [simpl; lia | exact H].
    - apply triple_emit. intros tr0 H. apply in_order_events.
      apply (in_order_mono 9); [lia | exact H]. }
  intros []; unfold tail_ok; cbv beta.
  repeat
    first
      [ order_leaf 10
      | apply (triple_bind _ _ _ (fun _ => in_order_below 10)); [|intros]
      | match goal with
        | |- triple _ (if ?b then _ else _) _ _ => destruct b
        | |- triple _ (match ?x with _ => _ end) _ _ => destruct x
        end ].
Qed.

(** ** [do_backup] in dry run *)

Lemma dry_talk_top (evs : list event) :
  forallb dry_talk evs = true -> forallb dry_top evs = true.
Proof.
  induction evs as [|e r IH]; [reflexivity|]. simpl. intros H.
  apply andb_true_iff in H as [He Hr]. rewrite (IH Hr).
  destruct e; try discriminate; reflexivity.
Qed.

Lemma check_dependencies_talk (w : world) :
  forallb dry_top (snd (check_dependencies w)) = true.
Proof.
  unfold check_dependencies, command_exists. simpl.
  destruct (which w "git"), (which w "curl"), (which w "tar"), (which w "jq"),
    (which w "ssh"); reflexivity.
Qed.

Lemma run_command_top (w : world) (cmd : list str) (check : bool) (timeout : nat) :
  is_ssh cmd = true -> forallb dry_top (snd (run_command w cmd check timeout)) = true.
Proof.
  intros H. unfold run_command.
  destruct (run w cmd timeout) as [rc out err| |e]; simpl; rewrite H;
    [destruct (check && negb (rc =? 0)%Z)|..]; reflexivity.
Qed.

Lemma verify_ssh_connection_top (w : world) (repo_url : str) :
  forallb dry_top (snd (verify_ssh_connection w repo_url)) = true.
Proof.
  unfold verify_ssh_connection. destruct (scp_host repo_url) as [host|]; [|reflexivity].
  match goal with
  | |- context [run_command w ?cmd false 15] =>
      pose proof (run_command_top w cmd false 15 eq_refl) as Hrun;
      destruct (run_command w cmd false 15) as [[[rc out] err] evs]
  end.
  simpl in Hrun.
  destruct (_ || _); simpl; rewrite forallb_app, Hrun; reflexivity.
Qed.

Lemma backup_shells_dry (w : world) (cfg : config) (dir : path) (shells : list str) :
  dry_run cfg = true ->
  forallb dry_item (Orchestrator.backup_shells w cfg dir shells) = true.
Proof.
  intros Hdry. induction shells as [|x r IH]; [reflexivity|].
  unfold Orchestrator.backup_shells in *. cbn [flat_map]. rewrite forallb_app, IH, andb_true_r.
  destruct (str_eqb x (lit "fish")); [simpl; rewrite andb_true_r;
                                       apply (backup_fish_dry w cfg dir Hdry)|].
  destruct (str_eqb x (lit "bash")); [simpl; rewrite andb_true_r;
                                       apply (backup_bash_dry w cfg dir Hdry)|].
  destruct (str_eqb x (lit "zsh")); [simpl; rewrite andb_true_r;
                                      apply (backup_zsh_dry w cfg dir Hdry)|].
  reflexivity.
Qed.

Lemma copies_tree_app (a b : list item) :
  copies_tree (a ++ b) = copies_tree a || copies_tree b.
Proof. apply existsb_app. Qed.

Lemma dry_inv_app (c : bool) (tr l : list item) :
  forallb dry_item l = true -> dry_inv c tr -> dry_inv c (tr ++ l).
Proof.
  intros Hl [Ha Hc]. split.
  - rewrite forallb_app, Ha, Hl. reflexivity.
  - intros E. rewrite copies_tree_app, (Hc E). reflexivity.
Qed.

Lemma dry_inv_events (c : bool) (tr : list item) (l : list event) :
  forallb dry_top l = true -> dry_inv c tr -> dry_inv c (tr ++ map Ev l).
Proof.
  intros Hl. apply dry_inv_app.
  induction l as [|e r IH]; [reflexivity|]. simpl in *.
  apply andb_true_iff in Hl as [He Hr]. rewrite He, (IH Hr). reflexivity.
Qed.

Lemma dry_inv_drop (c : bool) (tr : list item) : dry_inv c tr -> dry_inv false tr.
Proof. intros [Ha _]. split; [exact Ha | discriminate]. Qed.

Lemma dry_inv_copytree (tr : list item) (d src dst : path) :
  dry_inv false tr -> dry_inv true (tr ++ map Ev [EMkdir d; ECopyTree src dst]).
Proof.
  intros [Ha _]. split.
  - rewrite forallb_app, Ha. reflexivity.
  - intros _. rewrite copies_tree_app. simpl. apply orb_true_r.
Qed.

Section DryBackup.

Variables (w : world) (cfg : config).
Hypothesis Hdry : dry_run cfg = true.

Let ends : exn -> list item -> Prop := fun _ => dry_inv false.

Lemma dry_ret {A} (c : bool) (a : A) : triple (dry_inv c) (ret a) (fun _ => dry_inv c) ends.
Proof. apply triple_ret. auto. Qed.

Lemma dry_raise {A} (c : bool) (Q : A -> list item -> Prop) (e : exn) :
  triple (dry_inv c) (raise e) Q ends.
Proof. apply triple_raise. intros tr. apply dry_inv_drop. Qed.

Lemma dry_emit (c : bool) (l : list event) :
  forallb dry_top l = true -> triple (dry_inv c) (emit l) (fun _ => dry_inv c) ends.
Proof. intros Hl. apply triple_emit. intros tr. apply dry_inv_events. exact Hl. Qed.

Lemma dry_invoke (c : bool) (k : category) (body : list event) :
  forallb dry_event body = true ->
  triple (dry_inv c) (invoke k body) (fun _ => dry_inv c) ends.
Proof.
  intros Hb. apply triple_invoke. intros tr. apply dry_inv_app. simpl.
  rewrite Hb. reflexivity.
Qed.

Lemma dry_read_input (c : bool) (prompt : string) (default : str) :
  triple (dry_inv c) (read_input prompt default) (fun _ => dry_inv c) ends.
Proof. apply triple_read_input. auto. Qed.

Lemma dry_read_yes_no (c : bool) (prompt : str) (default : bool) :
  triple (dry_inv c) (read_yes_no prompt default) (fun _ => dry_inv c) ends.
Proof. apply triple_read_yes_no. auto. Qed.

Lemma dry_read_choice (c : bool) (prompt : string) (options : list str) :
  triple (dry_inv c) (read_choice prompt options) (fun _ => dry_inv c) ends.
Proof.
  apply triple_read_choice.
  - intros tr evs _ Htr Hevs. apply dry_inv_events; [apply dry_talk_top|]; assumption.
  - intros tr evs Htr Hevs. apply dry_inv_drop with (c := c).
    apply dry_inv_events; [apply dry_talk_top|]; assumption.
Qed.

Lemma dry_select_shells (c : bool) (names : list string) :
  triple (dry_inv c) (Orchestrator.select_shells w names) (fun _ => dry_inv c) ends.
Proof. apply triple_select_shells. auto. Qed.

Lemma do_backup_dry_inv :
  triple (dry_inv false) (Orchestrator.do_backup w cfg) (fun _ => dry_inv true) ends.
Proof.
  unfold Orchestrator.do_backup, Orchestrator.do_backup_ask, Orchestrator.do_backup_run,
    clone_repo, push_to_repo, create_manifest.
  rewrite Hdry.
  pose proof (check_dependencies_talk w) as Hdeps.
  destruct (check_dependencies w) as [ok evs]. cbn [snd] in Hdeps.
  repeat
    first
      [ apply dry_ret
      | apply dry_raise
      | apply dry_read_input
      | apply dry_read_yes_no
      | apply dry_read_choice
      | apply dry_select_shells
      | apply dry_emit; first [ reflexivity | assumption | apply verify_ssh_connection_top ]
      | apply triple_emit_items; intros tr0; apply dry_inv_app;
        apply backup_shells_dry; exact Hdry
      | apply dry_invoke;
        first [ apply (backup_packages_dry w cfg _ Hdry)
              | apply (backup_starship_dry w cfg _ Hdry)
              | apply (backup_git_config_dry w cfg _ Hdry)
              | apply (backup_conda_dry w cfg _ Hdry)
              | apply (backup_history_dry w cfg _ Hdry)
              | apply (backup_cloud_creds_dry w cfg _ Hdry)
              | assumption ]
      | match goal with
        | |- triple (dry_inv false) (bind (emit [EMkdir _; ECopyTree _ _]) _) _ _ =>
            apply (triple_bind _ _ _ (fun _ => dry_inv true));
            [apply triple_emit; intros tr0; apply dry_inv_copytree | intros]
        | |- triple (dry_inv ?c) (bind _ _) _ _ =>
            apply (triple_bind _ _ _ (fun _ => dry_inv c)); [|intros]
        | |- triple _ (let '(_, _) := verify_ssh_connection w ?u in _) _ _ =>
            pose proof (verify_ssh_connection_top w u);
            destruct (verify_ssh_connection w u)
        | |- triple _ (let '(_, _) := Backup.backup_ssh w cfg ?d in _) _ _ =>
            pose proof (proj1 (backup_ssh_dry w cfg d Hdry));
            destruct (Backup.backup_ssh w cfg d)
        | |- triple _ (let '(_, _) := ?x in _) _ _ => destruct x
        | |- triple _ (if ?b then _ else _) _ _ => destruct b
        | |- triple _ (match ?x with _ => _ end) _ _ => destruct x
        end ].
Qed.

End DryBackup.

(** ** Outcomes of the orchestrators *)

Lemma check_dependencies_ok (w : world) : fst (check_dependencies w) = has_required w.
Proof.
  unfold check_dependencies, has_required, command_exists. simpl.
  destruct (which w "git"), (which w "curl"), (which w "tar"), (which w "jq"),
    (which w "ssh"); reflexivity.
Qed.

Lemma triple_read_choice_range (P : list item -> Prop) (Q : Z -> list item -> Prop)
    (E : exn -> list item -> Prop) (prompt : string) (options : list str) :
  options <> [] ->
  (forall tr evs v, P tr -> (1 <= v <= Z.of_nat (length options))%Z ->
                    Q v (tr ++ map Ev evs)) ->
  (forall tr evs, P tr -> E ValueError (tr ++ map Ev evs)) ->
  triple P (read_choice prompt options) Q E.
Proof.
  intros Hne HQ HE s Hs. unfold read_choice.
  assert (Hlen : 1 <= length options) by (destruct options; [contradiction | simpl; lia]).
  pose proof (read_choice_loop_outcome (length options) (stdin s)) as Ho.
  pose proof (read_choice_loop_in_range (length options) (stdin s) Hlen) as Hr.
  destruct (read_choice_loop (length options) (stdin s)) as [[o rest] evs].
  cbn [fst snd] in *.
  destruct Ho as [[v ->] | ->]; cbn [trace].
  - apply HQ; [exact Hs | apply (Hr v rest evs eq_refl)].
  - apply HE. exact Hs.
Qed.

Lemma select_backup_ends (w : world) (git_dir : path) :
  triple (fun _ => True) (Orchestrator.select_backup w git_dir)
         (fun name _ => In name (Orchestrator.list_backups w git_dir))
         (fun e _ => e = SystemExit 1 \/ e = ValueError).
Proof.
  unfold Orchestrator.select_backup.
  destruct (Orchestrator.list_backups w git_dir) as [|b bs] eqn:Eb.
  - apply (triple_bind _ _ _ (fun _ _ => True)).
    + apply triple_emit. auto.
    + intros _. apply triple_raise. auto.
  - remember (b :: bs) as backups eqn:Ebk.
    apply (triple_bind _ _ _ (fun _ _ => True)); [apply triple_emit; auto|].
    intros _.
    apply (triple_bind _ _ _
             (fun v _ => (1 <= v <= Z.of_nat (length backups))%Z)).
    + apply triple_read_choice_range; [subst; discriminate | auto | auto].
    + intros v s Hv.
      destruct (py_index_in_range backups v Hv) as [x [Hx Hn]]. rewrite Hx.
      apply nth_error_In in Hn.
      unfold bind, emit, emit_items, ret. cbn. exact Hn.
Qed.

Lemma do_restore_select_ends (w : world) (cfg : config) :
  triple (fun _ => True) (Orchestrator.do_restore_select w cfg)
         (fun name _ => In name (Orchestrator.list_backups w (temp_dir cfg // "git")))
         (fun e _ => e = SystemExit 1 \/ e = ValueError).
Proof.
  unfold Orchestrator.do_restore_select.
  repeat
    first
      [ apply select_backup_ends
      | apply triple_raise; intros; auto
      | apply triple_ret; intros; exact I
      | apply triple_emit; intros; exact I
      | apply triple_read_input; intros; exact I
      | apply (triple_bind _ _ _ (fun _ _ => True)); [|intros]
      | match goal with
        | |- triple _ (if ?b then _ else _) _ _ => destruct b
        | |- triple _ (match ?x with _ => _ end) _ _ => destruct x
        end ].
Qed.

(** X8.  However it is answered, [do_backup] ends normally, with exit
    status 1, or with the [ValueError] of a choice that [isdigit] accepts
    and [int] refuses; it raises nothing else.  This is said of the
    model, in which creating a directory and the writes that
    [do_backup] leaves unguarded do not fail, and an interrupt comes
    only at a prompt. *)
Theorem do_backup_exit_status (w : world) (cfg : config) (s : state) :
  match fst (Orchestrator.do_backup w cfg s) with
  | Done _ => True
  | Raised e => e = SystemExit 1 \/ e = ValueError
  end.
Proof.
  pose proof (do_backup_ends w cfg s I) as H.
  destruct (Orchestrator.do_backup w cfg s) as [[a|e] s']; [exact I | exact H].
Qed.

(** X9.  [do_backup] calls the routines in one fixed order, each at most
    once: fish, bash, zsh, packages, Starship, Git configuration, SSH,
    Conda, history, cloud credentials, whatever is typed and wherever the
    run stops. *)
Theorem do_backup_routines_in_order (w : world) (cfg : config)
    (typed : list input_item) :
  StronglySorted lt
    (map rank (calls_of (trace (snd (Orchestrator.do_backup w cfg (initial typed)))))).
Proof.
  assert (Hask : triple (in_order_below 0) (Orchestrator.do_backup_ask w cfg)
                        (fun _ => in_order_below 0) (fun _ => in_order_below 10)).
  { unfold Orchestrator.do_backup_ask.
    repeat
      first
        [ apply triple_ret; intros tr0 Hin0; exact Hin0
        | apply triple_raise; intros tr0 Hin0; apply (in_order_mono 0); [lia | exact Hin0]
        | apply triple_emit; intros tr0 Hin0; apply in_order_events; exact Hin0
        | apply triple_read_input; intros tr0 x0 Hin0; exact Hin0
        | apply triple_read_choice;
          [ intros tr0 evs0 v0 Hin0 _; apply in_order_events; exact Hin0
          | intros tr0 evs0 Hin0 _; apply in_order_events;
            apply (in_order_mono 0); [lia | exact Hin0] ]
        | apply (triple_bind _ _ _ (fun _ => in_order_below 0)); [|intros]
        | match goal with
          | |- triple _ (if ?b then _ else _) _ _ => destruct b
          | |- triple _ (match ?x with _ => _ end) _ _ => destruct x
          end ]. }
  assert (Hall : triple (in_order_below 0) (Orchestrator.do_backup w cfg)
                        (fun _ => in_order_below 10) (fun _ => in_order_below 10)).
  { unfold Orchestrator.do_backup.
    apply (triple_bind _ _ _ (fun _ => in_order_below 0)); [exact Hask|].
    intros c. apply do_backup_run_in_order. }
  assert (H0 : in_order_below 0 (trace (initial typed))).
  { split; constructor. }
  specialize (Hall (initial typed) H0).
  destruct (Orchestrator.do_backup w cfg (initial typed)) as [[a|e] s']; apply Hall.
Qed.

(** X10.  In dry run [do_backup] starts no [git] process and writes no
    manifest: outside the routines it prints, logs, creates directories,
    probes the SSH connection and copies the staged tree, and every
    routine it calls only prints, logs and creates directories.  The
    copy of the staged tree into the clone directory is not held back: a
    dry run that ends normally has made it. *)
Theorem do_backup_dry_run (w : world) (cfg : config) (typed : list input_item)
    (Hdry : dry_run cfg = true) :
  forallb dry_item (trace (snd (Orchestrator.do_backup w cfg (initial typed)))) = true
  /\ match fst (Orchestrator.do_backup w cfg (initial typed)) with
     | Done _ => copies_tree (trace (snd (Orchestrator.do_backup w cfg (initial typed)))) = true
     | Raised _ => True
     end.
Proof.
  assert (H0 : dry_inv false (trace (initial typed))).
  { split; [reflexivity | discriminate]. }
  pose proof (do_backup_dry_inv w cfg Hdry (initial typed) H0) as H.
  destruct (Orchestrator.do_backup w cfg (initial typed)) as [[a|e] s'];
    cbn [fst snd]; destruct H as [Ha Hc]; split; auto.
Qed.

Lemma do_backup_dry_run_witness :
  dry_run (Sample.settings true) = true
  /\ fst (Orchestrator.do_backup (Sample.machine Sample.home_fs Sample.succeeding)
            (Sample.settings true) (initial Sample.typed_full)) = Done tt
  /\ (forallb dry_item
        (trace (snd (Orchestrator.do_backup
                       (Sample.machine Sample.home_fs Sample.succeeding)
                       (Sample.settings true) (initial Sample.typed_full)))) = true
      /\ match fst (Orchestrator.do_backup
                      (Sample.machine Sample.home_fs Sample.succeeding)
                      (Sample.settings true) (initial Sample.typed_full)) with
         | Done _ =>
             copies_tree
               (trace (snd (Orchestrator.do_backup
                              (Sample.machine Sample.home_fs Sample.succeeding)
                              (Sample.settings true) (initial Sample.typed_full)))) = true
         | Raised _ => True
         end).
Proof.
  split; [reflexivity|]. split; [vm_compute; reflexivity|].
  apply (do_backup_dry_run (Sample.machine Sample.home_fs Sample.succeeding)
           (Sample.settings true) Sample.typed_full).
  reflexivity.
Defined.

(** X11.  When one of [git], [curl], [tar] is missing, [do_backup] and
    [do_restore] stop with exit status 1 right after the dependency
    report: nothing is read from standard input and nothing else is
    done. *)
Theorem missing_dependency_stops (w : world) (cfg : config) (s : state)
    (Hmiss : has_required w = false) :
  Orchestrator.do_backup w cfg s
  = (Raised (SystemExit 1),
     {| stdin := stdin s; trace := trace s ++ map Ev (snd (check_dependencies w)) |})
  /\ Orchestrator.do_restore_select w cfg s
     = (Raised (SystemExit 1),
        {| stdin := stdin s; trace := trace s ++ map Ev (snd (check_dependencies w)) |})
  /\ existsb (fun e => match e with EError _ => true | _ => false end)
       (snd (check_dependencies w)) = true.
Proof.
  pose proof (check_dependencies_ok w) as Hok. rewrite Hmiss in Hok.
  assert (Herr : existsb (fun e => match e with EError _ => true | _ => false end)
                   (snd (check_dependencies w)) = negb (fst (check_dependencies w))).
  { unfold check_dependencies, command_exists. simpl.
    destruct (which w "git"), (which w "curl"), (which w "tar"), (which w "jq"),
      (which w "ssh"); reflexivity. }
  rewrite Hok in Herr.
  unfold Orchestrator.do_backup, Orchestrator.do_backup_ask, Orchestrator.do_restore_select.
  destruct (check_dependencies w) as [ok evs]. cbn [fst snd] in *. subst ok.
  repeat split; try reflexivity. exact Herr.
Qed.

Lemma missing_dependency_stops_witness :
  has_required (without "curl" (Sample.machine Sample.home_fs Sample.succeeding)) = false
  /\ (Orchestrator.do_backup (without "curl" (Sample.machine Sample.home_fs Sample.succeeding))
        (Sample.settings false) (initial Sample.typed_full)
      = (Raised (SystemExit 1),
         {| stdin := stdin (initial Sample.typed_full);
            trace := trace (initial Sample.typed_full)
                     ++ map Ev (snd (check_dependencies
                                       (without "curl"
                                          (Sample.machine Sample.home_fs Sample.succeeding)))) |})
      /\ Orchestrator.do_restore_select
           (without "curl" (Sample.machine Sample.home_fs Sample.succeeding))
           (Sample.settings false) (initial Sample.typed_full)
         = (Raised (SystemExit 1),
            {| stdin := stdin (initial Sample.typed_full);
               trace := trace (initial Sample.typed_full)
                        ++ map Ev (snd (check_dependencies
                                          (without "curl"
                                             (Sample.machine Sample.home_fs
                                                Sample.succeeding)))) |})
      /\ existsb (fun e => match e with EError _ => true | _ => false end)
           (snd (check_dependencies
                   (without "curl" (Sample.machine Sample.home_fs Sample.succeeding))))
         = true).
Proof.
  split; [reflexivity|].
  apply (missing_dependency_stops
           (without "curl" (Sample.machine Sample.home_fs Sample.succeeding))
           (Sample.settings false) (initial Sample.typed_full)).
  reflexivity.
Defined.

(** X12.  The start of [do_restore], up to the chosen backup, ends with the
    name of one of the backup directories of the clone, with exit status
    1, or with the [ValueError] of [read_choice]; the list is indexed
    with the number read and never out of range.  This is said of the
    model, in which creating a directory does not fail and an
    interrupt comes only at a prompt. *)
Theorem do_restore_select_outcome (w : world) (cfg : config) (s : state) :
  match fst (Orchestrator.do_restore_select w cfg s) with
  | Done name => In name (Orchestrator.list_backups w (temp_dir cfg // "git"))
  | Raised e => e = SystemExit 1 \/ e = ValueError
  end.
Proof.
  pose proof (do_restore_select_ends w cfg s I) as H.
  destruct (Orchestrator.do_restore_select w cfg s) as [[a|e] s']; exact H.
Qed.

(** ** The category routines outside dry run *)

Lemma copies_app (a b : list event) : copies (a ++ b) = copies a ++ copies b.
Proof. unfold copies. apply flat_map_app. Qed.

Lemma texts_app (a b : list event) : texts (a ++ b) = texts a ++ texts b.
Proof. unfold texts. apply flat_map_app. Qed.

Lemma copies_cons (e : event) (l : list event) : copies (e :: l) = copies [e] ++ copies l.
Proof. exact (copies_app [e] l). Qed.

Lemma texts_cons (e : event) (l : list event) : texts (e :: l) = texts [e] ++ texts l.
Proof. exact (texts_app [e] l). Qed.

Lemma statuses_cons (e : event) (l : list event) :
  statuses (e :: l) = statuses [e] ++ statuses l.
Proof. exact (statuses_app [e] l). Qed.

Lemma copy_file_copies (w : world) (src dest : path) :
  copies (snd (copy_file w src dest)) = [(src, dest)]
  /\ statuses (snd (copy_file w src dest)) = [].
Proof. unfold copy_file. destruct (copy2 w src dest); split; reflexivity. Qed.

Lemma copy_found_wet (w : world) (cfg : config) (dir : path) (files : list string) :
  dry_run cfg = false ->
  copies (fst (Backup.copy_found w cfg dir files))
  = map (fun f => (home cfg // f, dir // f)) (found_in_home w cfg files)
  /\ statuses (fst (Backup.copy_found w cfg dir files)) = []
  /\ snd (Backup.copy_found w cfg dir files) = length (found_in_home w cfg files).
Proof.
  intros Hwet. induction files as [|f r IH]; [repeat split; reflexivity|].
  cbn [Backup.copy_found found_in_home filter].
  fold (found_in_home w cfg r).
  destruct (Backup.copy_found w cfg dir r) as [evs found].
  cbn [fst snd] in IH. destruct IH as [Hc [Hs Hn]].
  rewrite Hwet. cbn [negb].
  destruct (is_file w (home cfg // f)); cbn [fst snd map length].
  - rewrite copies_app, statuses_app.
    destruct (copy_file_copies w (home cfg // f) (dir // f)) as [-> ->].
    rewrite Hc, Hs, Hn. repeat split; reflexivity.
  - repeat split; assumption.
Qed.

(** X13.  Outside dry run, [backup_bash] and [backup_zsh] copy exactly
    the listed files that exist in the home directory, in the order of
    the list, each to the file of the same name under [shells/bash] or
    [shells/zsh], and nothing else.  The status line counts the files
    found, not the copies that succeeded: it is "ok" as soon as one
    listed file exists (for zsh, also when [.oh-my-zsh] exists), and
    "skip" otherwise. *)
Theorem shell_files_copied (w : world) (cfg : config) (dest : path)
    (Hwet : dry_run cfg = false) :
  (copies (Backup.backup_bash w cfg dest)
   = map (fun f => (home cfg // f, dest // "shells" // "bash" // f))
         (found_in_home w cfg
            [".bashrc"; ".bash_aliases"; ".bash_profile"; ".profile"; ".bash_logout"])
   /\ statuses (Backup.backup_bash w cfg dest)
      = [if 0 <? length (found_in_home w cfg
                           [".bashrc"; ".bash_aliases"; ".bash_profile"; ".profile";
                            ".bash_logout"])
         then lit "ok" else lit "skip"])
  /\ (copies (Backup.backup_zsh w cfg dest)
      = map (fun f => (home cfg // f, dest // "shells" // "zsh" // f))
            (found_in_home w cfg [".zshrc"; ".zprofile"; ".zshenv"; ".zlogin"; ".zlogout"])
      /\ statuses (Backup.backup_zsh w cfg dest)
         = [if is_dir w (home cfg // ".oh-my-zsh")
               || (0 <? length (found_in_home w cfg
                                  [".zshrc"; ".zprofile"; ".zshenv"; ".zlogin"; ".zlogout"]))
            then lit "ok" else lit "skip"]).
Proof.
  split.
  - unfold Backup.backup_bash.
    match goal with
    | |- context [Backup.copy_found w cfg ?d ?fs] =>
        destruct (copy_found_wet w cfg d fs Hwet) as [Hc [Hs Hn]];
        destruct (Backup.copy_found w cfg d fs) as [evs found]
    end.
    cbn [fst snd] in *. subst found.
    rewrite copies_cons, statuses_cons, copies_app, statuses_app, Hc, Hs.
    destruct (0 <? _); split; cbn; rewrite ?app_nil_r; reflexivity.
  - unfold Backup.backup_zsh.
    match goal with
    | |- context [Backup.copy_found w cfg ?d ?fs] =>
        destruct (copy_found_wet w cfg d fs Hwet) as [Hc [Hs Hn]];
        destruct (Backup.copy_found w cfg d fs) as [evs found]
    end.
    cbn [fst snd] in *. subst found.
    rewrite copies_cons, statuses_cons, copies_app, statuses_app, Hc, Hs, Hwet.
    destruct (is_dir w _); [destruct (tar_gz w _ _)|destruct (0 <? _)];
      split; cbn; rewrite ?app_nil_r; reflexivity.
Qed.

Lemma shell_files_copied_witness :
  dry_run (Sample.settings false) = false
  /\ copies (Backup.backup_bash (Sample.machine Sample.home_fs Sample.succeeding)
               (Sample.settings false) Sample.backup_root)
     = [(home (Sample.settings false) // ".bashrc",
         Sample.backup_root // "shells" // "bash" // ".bashrc")]
  /\ statuses (Backup.backup_bash (Sample.machine Sample.home_fs Sample.succeeding)
                 (Sample.settings false) Sample.backup_root) = [lit "ok"].
Proof.
  pose proof (shell_files_copied (Sample.machine Sample.home_fs Sample.succeeding)
                (Sample.settings false) Sample.backup_root eq_refl) as [[Hc Hs] _].
  split; [reflexivity|]. split; [exact Hc | exact Hs].
Defined.

(** ** [backup_conda] *)

Lemma run_command_texts (w : world) (cmd : list str) (t : nat) :
  texts (snd (run_command w cmd false t)) = []
  /\ statuses (snd (run_command w cmd false t)) = [].
Proof. unfold run_command. destruct (run w cmd t); split; reflexivity. Qed.

Lemma export_envs_spec (w : world) (conda_bin : str) (conda_dir : path) (envs : list str) :
  processes (fst (Backup.export_envs w conda_bin conda_dir envs))
  = map (conda_export_cmd conda_bin) envs
  /\ texts (fst (Backup.export_envs w conda_bin conda_dir envs))
     = map (fun env => (conda_dir ++ [env ++ lit ".yml"],
                        out_of w (conda_export_cmd conda_bin env) 30))
           (exported w conda_bin envs)
  /\ statuses (fst (Backup.export_envs w conda_bin conda_dir envs)) = []
  /\ snd (Backup.export_envs w conda_bin conda_dir envs)
     = length (exported w conda_bin envs).
Proof.
  induction envs as [|env r IH]; [repeat split; reflexivity|].
  cbn [Backup.export_envs exported filter]. fold (exported w conda_bin r).
  change [conda_bin; lit "env"; lit "export"; lit "-n"; env]
    with (conda_export_cmd conda_bin env).
  rewrite (run_command_eta w (conda_export_cmd conda_bin env) 30).
  pose proof (run_command_processes w (conda_export_cmd conda_bin env) 30) as Hp.
  destruct (run_command_texts w (conda_export_cmd conda_bin env) 30) as [Ht Hs].
  destruct (Backup.export_envs w conda_bin conda_dir r) as [evs' count].
  cbn [fst snd] in IH. destruct IH as [IHp [IHt [IHs IHn]]].
  destruct (rc_of w (conda_export_cmd conda_bin env) 30 =? 0)%Z; cbn [fst snd map length].
  - rewrite processes_app, texts_app, statuses_app, Hp, Ht, Hs.
    rewrite (texts_cons _ evs'), (statuses_cons _ evs').
    change (EWriteText ?f ?c :: evs') with ([EWriteText f c] ++ evs').
    rewrite processes_app, IHp, IHt, IHs, IHn. repeat split; reflexivity.
  - rewrite processes_app, texts_app, statuses_app, Hp, Ht, Hs, IHp, IHt, IHs, IHn.
    repeat split; reflexivity.
Qed.

(** X14.  Outside dry run, once a [conda] is found and its listing exits
    with zero, [backup_conda] runs one export per environment name read
    off the listing, in the order of the listing, writes one [.yml] file
    per export that exits with zero, holding the output of that export,
    and no other; it reports "ok" when at least one export was written
    and "warn" otherwise, and answers [True] in both cases. *)
Theorem backup_conda_exports (w : world) (cfg : config) (dest conda_path : path)
    (Hwet : dry_run cfg = false)
    (Hfind : find (fun p => is_file w (p // "bin" // "conda")) (Backup.conda_paths cfg)
             = Some conda_path)
    (Hlist : rc_of w (conda_list_cmd (conda_bin_of conda_path)) 10 = 0%Z) :
  fst (Backup.backup_conda w cfg dest) = true
  /\ processes (snd (Backup.backup_conda w cfg dest))
     = conda_list_cmd (conda_bin_of conda_path)
       :: map (conda_export_cmd (conda_bin_of conda_path))
            (Backup.conda_env_names
               (out_of w (conda_list_cmd (conda_bin_of conda_path)) 10))
  /\ texts (snd (Backup.backup_conda w cfg dest))
     = map (fun env => (dest // "conda" ++ [env ++ lit ".yml"],
                        out_of w (conda_export_cmd (conda_bin_of conda_path) env) 30))
           (exported w (conda_bin_of conda_path)
              (Backup.conda_env_names
                 (out_of w (conda_list_cmd (conda_bin_of conda_path)) 10)))
  /\ statuses (snd (Backup.backup_conda w cfg dest))
     = [if 0 <? length (exported w (conda_bin_of conda_path)
                          (Backup.conda_env_names
                             (out_of w (conda_list_cmd (conda_bin_of conda_path)) 10)))
        then lit "ok" else lit "warn"].
Proof.
  unfold Backup.backup_conda. rewrite Hfind, Hwet.
  fold (conda_bin_of conda_path).
  change [conda_bin_of conda_path; lit "env"; lit "list"]
    with (conda_list_cmd (conda_bin_of conda_path)).
  rewrite (run_command_eta w (conda_list_cmd (conda_bin_of conda_path)) 10), Hlist.
  cbn [Z.eqb negb].
  pose proof (run_command_processes w (conda_list_cmd (conda_bin_of conda_path)) 10) as Hp.
  destruct (run_command_texts w (conda_list_cmd (conda_bin_of conda_path)) 10) as [Ht Hs].
  set (envs := Backup.conda_env_names
                 (out_of w (conda_list_cmd (conda_bin_of conda_path)) 10)).
  destruct (export_envs_spec w (conda_bin_of conda_path) (dest // "conda") envs)
    as [Ep [Et [Es En]]].
  destruct (Backup.export_envs w (conda_bin_of conda_path) (dest // "conda") envs)
    as [evs' count].
  cbn [fst snd] in *. subst count.
  split; [reflexivity|].
  change (EMkdir ?d :: ?l) with ([EMkdir d] ++ l).
  rewrite !processes_app, !texts_app, !statuses_app, Hp, Ht, Hs, Ep, Et, Es.
  destruct (0 <? _); repeat split; cbn; rewrite ?app_nil_r; reflexivity.
Qed.

Lemma backup_conda_exports_witness :
  dry_run (Sample.settings false) = false
  /\ texts (snd (Backup.backup_conda (Sample.machine conda_fs conda_commands)
                   (Sample.settings false) Sample.backup_root))
     = [(Sample.backup_root // "conda" // "base.yml", lit "name: base")]
  /\ statuses (snd (Backup.backup_conda (Sample.machine conda_fs conda_commands)
                      (Sample.settings false) Sample.backup_root)) = [lit "ok"].
Proof.
  pose proof (backup_conda_exports (Sample.machine conda_fs conda_commands)
                (Sample.settings false) Sample.backup_root
                (home (Sample.settings false) // "miniconda3")
                eq_refl eq_refl eq_refl) as [_ [_ [Ht Hs]]].
  split; [reflexivity|]. split; [exact Ht | exact Hs].
Defined.

(** ** [backup_history] *)

(** X15.  Outside dry run, [backup_history] reports "ok" exactly when the
    copy of [.bash_history], of [.zsh_history] or of the fish history
    directory succeeded, and "skip" otherwise, also when history files
    exist and every copy failed. *)
Theorem backup_history_status (w : world) (cfg : config) (dest : path)
    (Hwet : dry_run cfg = false) :
  statuses (Backup.backup_history w cfg dest)
  = [if history_copied w cfg dest ".bash_history"
        || history_copied w cfg dest ".zsh_history"
        || fish_history_copied w cfg dest
     then lit "ok" else lit "skip"].
Proof.
  unfold Backup.backup_history, history_copied, fish_history_copied. rewrite Hwet.
  cbn [Backup.copy_histories]. unfold copy_file.
  destruct (is_file w (home cfg // ".bash_history"));
    destruct (is_file w (home cfg // ".zsh_history"));
    destruct (is_dir w (home cfg // ".local" // "share" // "fish"));
    repeat match goal with
           | |- context [copy2 w ?a ?b] => destruct (copy2 w a b)
           | |- context [copytree w ?a ?b] => destruct (copytree w a b)
           end;
    reflexivity.
Qed.

Lemma backup_history_status_witness :
  dry_run (Sample.settings false) = false
  /\ statuses (Backup.backup_history (Sample.machine Sample.home_fs Sample.succeeding)
                 (Sample.settings false) Sample.backup_root) = [lit "skip"].
Proof.
  split; [reflexivity|].
  exact (backup_history_status (Sample.machine Sample.home_fs Sample.succeeding)
           (Sample.settings false) Sample.backup_root eq_refl).
Defined.

(** ** The first field of a listing line *)

Lemma lstrip_snoc (l : str) (c : ascii) :
  PyStr.char_isspace c = false -> exists l', PyStr.lstrip (l ++ [c]) = l' ++ [c].
Proof.
  intros Hc. induction l as [|a r IH]; simpl.
  - rewrite Hc. exists []. reflexivity.
  - destruct (PyStr.char_isspace a); [exact IH|]. exists (a :: r). reflexivity.
Qed.

Lemma lstrip_head (s : str) :
  match PyStr.lstrip s with
  | [] => True
  | c :: _ => PyStr.char_isspace c = false
  end.
Proof.
  induction s as [|a r IH]; simpl; [exact I|].
  destruct (PyStr.char_isspace a) eqn:Ea; [exact IH | exact Ea].
Qed.

Lemma strip_head (s : str) :
  match PyStr.strip s with
  | [] => True
  | c :: _ => PyStr.char_isspace c = false
  end.
Proof.
  unfold PyStr.strip, PyStr.rstrip.
  pose proof (lstrip_head s) as H.
  destruct (PyStr.lstrip s) as [|c r]; [exact I|].
  change (c :: r) with ([c] ++ r). rewrite rev_app_distr. cbn [rev app].
  destruct (lstrip_snoc (rev r) c H) as [l' ->].
  rewrite rev_app_distr. simpl. exact H.
Qed.

Lemma split_aux_pending (cur s : str) :
  cur <> [] ->
  exists name rest, PyStr.split_aux cur s = name :: rest /\ name <> [].
Proof.
  revert cur. induction s as [|c r IH]; intros cur Hcur; simpl.
  - destruct cur as [|a cur']; [contradiction|].
    exists (rev (a :: cur')), []. split; [reflexivity|].
    simpl. intros E. apply app_eq_nil in E as [_ E]. discriminate.
  - destruct (PyStr.char_isspace c).
    + destruct cur as [|a cur']; [contradiction|].
      exists (rev (a :: cur')), (PyStr.split_aux [] r). split; [reflexivity|].
      simpl. intros E. apply app_eq_nil in E as [_ E]. discriminate.
    + apply IH. discriminate.
Qed.

(** X16.  On a listing line that is not blank, the first field that
    [backup_conda] takes with [parts[0]] exists and is not empty: the
    indexing never raises. *)
Theorem conda_first_field (line : str) (Hline : PyStr.strip line <> []) :
  exists name rest,
    PyStr.split (PyStr.strip line) = name :: rest
    /\ name <> []
    /\ (Backup.conda_env_name line = Some name \/ Backup.conda_env_name line = None).
Proof.
  pose proof (strip_head line) as Hh. unfold Backup.conda_env_name.
  destruct (PyStr.strip line) as [|c r] eqn:Es; [contradiction|].
  assert (Hsplit : PyStr.split (c :: r) = PyStr.split_aux [c] r).
  { unfold PyStr.split. simpl. rewrite Hh. reflexivity. }
  rewrite Hsplit.
  destruct (split_aux_pending [c] r) as [name [rest [E Hn]]]; [discriminate|].
  exists name, rest. split; [exact E|]. split; [exact Hn|].
  destruct (PyStr.startswith (c :: r) (lit "#")); [right; reflexivity|].
  rewrite E. cbn [hd].
  destruct (negb _ && _); [left | right]; reflexivity.
Qed.

Lemma conda_first_field_witness :
  PyStr.strip (lit "  base  *  /opt/conda") <> []
  /\ exists name rest,
       PyStr.split (PyStr.strip (lit "  base  *  /opt/conda")) = name :: rest
       /\ name <> []
       /\ (Backup.conda_env_name (lit "  base  *  /opt/conda") = Some name
           \/ Backup.conda_env_name (lit "  base  *  /opt/conda") = None).
Proof.
  assert (H : PyStr.strip (lit "  base  *  /opt/conda") <> []) by (vm_compute; discriminate).
  split; [exact H | exact (conda_first_field (lit "  base  *  /opt/conda") H)].
Defined.

(** ** Where the category routines write *)

Lemma under_refl (d : path) : under d d.
Proof. exists []. rewrite app_nil_r. split; reflexivity. Qed.

Lemma under_pjoin (d p : path) (name : string) :
  under d p -> plain (lit name) = true -> under d (p // name).
Proof.
  intros [rest [-> Hr]] Hn. exists (rest ++ [lit name]). unfold pjoin.
  rewrite app_assoc. split; [reflexivity|].
  rewrite forallb_app, Hr. simpl. rewrite Hn. reflexivity.
Qed.

Lemma under_file (d p : path) (name : str) :
  under d p -> plain name = true -> under d (p ++ [name]).
Proof.
  intros [rest [-> Hr]] Hn. exists (rest ++ [name]).
  rewrite app_assoc. split; [reflexivity|].
  rewrite forallb_app, Hr. simpl. rewrite Hn. reflexivity.
Qed.

Lemma path_parent_pjoin (p : path) (name : string) : path_parent (p // name) = p.
Proof. unfold path_parent, pjoin. apply removelast_last. Qed.

Lemma print_status_under (d : path) (m : str) (s : string) :
  Forall (writes_under d) (print_status m s).
Proof. repeat constructor. Qed.

Lemma print_error_under (d : path) (m : str) : Forall (writes_under d) (print_error m).
Proof. repeat constructor. Qed.

Lemma log_under (d : path) (l : string) (m : str) : Forall (writes_under d) (log l m).
Proof. repeat constructor. Qed.

Lemma run_command_under (d : path) (w : world) (cmd : list str) (check : bool) (t : nat) :
  Forall (writes_under d) (snd (run_command w cmd check t)).
Proof.
  unfold run_command.
  destruct (run w cmd t) as [rc out err| |e]; [destruct (check && _)|..];
    repeat constructor.
Qed.

Lemma copy_file_under (d : path) (w : world) (src dir : path) (name : string) :
  under d dir -> plain (lit name) = true ->
  Forall (writes_under d) (snd (copy_file w src (dir // name))).
Proof.
  intros Hd Hn. unfold copy_file.
  destruct (copy2 w src (dir // name)); cbn [snd app];
    repeat constructor; unfold writes_under; cbn [target];
    try (rewrite path_parent_pjoin; exact Hd); apply under_pjoin; assumption.
Qed.

Lemma copy_found_under (d : path) (w : world) (cfg : config) (dir : path)
    (files : list string) :
  under d dir -> forallb (fun f => plain (lit f)) files = true ->
  Forall (writes_under d) (fst (Backup.copy_found w cfg dir files)).
Proof.
  intros Hd. induction files as [|f r IH]; intros Hf; [constructor|].
  cbn [forallb] in Hf. apply andb_true_iff in Hf as [Hn Hr].
  cbn [Backup.copy_found]. specialize (IH Hr).
  destruct (Backup.copy_found w cfg dir r) as [evs found]. cbn [fst] in *.
  destruct (is_file w (home cfg // f)); cbn [fst]; [|exact IH].
  apply Forall_app. split; [|exact IH].
  destruct (negb (dry_run cfg)); [apply copy_file_under; assumption | constructor].
Qed.

Lemma export_list_under (d : path) (w : world) (cmd : list string) (file : path)
    (render : str -> str) :
  under d file -> Forall (writes_under d) (Backup.export_list w cmd file render).
Proof.
  intros Hf. unfold Backup.export_list.
  pose proof (run_command_under d w (map lit cmd) false 0) as Hrun.
  destruct (run_command w (map lit cmd) false 0) as [[[rc out] err] evs].
  cbn [snd] in Hrun. apply Forall_app. split; [exact Hrun|].
  destruct (rc =? 0)%Z; repeat constructor. exact Hf.
Qed.

Lemma env_char_no_slash (c : ascii) : env_char c = true -> Ascii.eqb c "/"%char = false.
Proof.
  intros H. destruct (Ascii.eqb c "/"%char) eqn:E; [|reflexivity].
  apply Ascii.eqb_eq in E. subst c. vm_compute in H. discriminate.
Qed.

Lemma plain_env_file (env : str) :
  forallb env_char env = true -> plain (env ++ lit ".yml") = true.
Proof.
  intros H. unfold plain.
  assert (Hlen : 4 <= length (env ++ lit ".yml")).
  { rewrite length_app. simpl. lia. }
  assert (H1 : Nat.eqb (length (env ++ lit ".yml")) 0 = false).
  { apply Nat.eqb_neq. lia. }
  assert (H2 : forallb (fun c => negb (Ascii.eqb c "/"%char)) (env ++ lit ".yml") = true).
  { rewrite forallb_app. apply andb_true_iff. split; [|reflexivity].
    apply forallb_forall. intros c Hc.
    rewrite (env_char_no_slash c (proj1 (forallb_forall _ _) H c Hc)). reflexivity. }
  assert (H3 : str_eqb (env ++ lit ".yml") (lit "..") = false).
  { destruct (str_eqb _ _) eqn:E; [|reflexivity].
    apply str_eqb_eq in E. rewrite E in Hlen. simpl in Hlen. lia. }
  assert (H4 : str_eqb (env ++ lit ".yml") (lit ".") = false).
  { destruct (str_eqb _ (lit ".")) eqn:E; [|reflexivity].
    apply str_eqb_eq in E. rewrite E in Hlen. simpl in Hlen. lia. }
  rewrite H1, H2, H3, H4. reflexivity.
Qed.

Lemma conda_env_names_chars (out : str) :
  Forall (fun name => forallb env_char name = true) (Backup.conda_env_names out).
Proof.
  apply Forall_forall. intros name Hin.
  unfold Backup.conda_env_names in Hin. apply in_flat_map in Hin as [line [_ Hin]].
  unfold Backup.conda_env_name in Hin.
  destruct (PyStr.strip line) as [|c r]; [contradiction|].
  destruct (PyStr.startswith (c :: r) (lit "#")); [contradiction|].
  destruct (negb (str_eqb _ _) && PyStr.isalnum _) eqn:Et; [|contradiction].
  destruct Hin as [<-|[]]. apply conda_name_test in Et. tauto.
Qed.

Lemma export_envs_under (d : path) (w : world) (conda_bin : str) (conda_dir : path)
    (envs : list str) :
  under d conda_dir -> Forall (fun name => forallb env_char name = true) envs ->
  Forall (writes_under d) (fst (Backup.export_envs w conda_bin conda_dir envs)).
Proof.
  intros Hd. induction envs as [|env r IH]; intros Henv; [constructor|].
  inversion Henv as [|? ? He Hr]; subst. specialize (IH Hr).
  cbn [Backup.export_envs].
  match goal with
  | |- context [run_command w ?cmd false 30] =>
      pose proof (run_command_under d w cmd false 30) as Hrun;
      destruct (run_command w cmd false 30) as [[[rc out] err] evs]
  end.
  cbn [snd] in Hrun.
  destruct (Backup.export_envs w conda_bin conda_dir r) as [evs' count]. cbn [fst] in IH.
  destruct (rc =? 0)%Z; cbn [fst]; apply Forall_app; split; try assumption.
  constructor; [|exact IH].
  unfold writes_under. cbn [target]. apply under_file; [exact Hd|].
  apply plain_env_file. exact He.
Qed.

Lemma copy_histories_under (d : path) (w : world) (cfg : config) (dir : path)
    (names : list string) :
  under d dir -> forallb (fun f => plain (lit f)) names = true ->
  Forall (writes_under d) (fst (Backup.copy_histories w cfg dir names)).
Proof.
  intros Hd. induction names as [|f r IH]; intros Hf; [constructor|].
  cbn [forallb] in Hf. apply andb_true_iff in Hf as [Hn Hr].
  cbn [Backup.copy_histories]. specialize (IH Hr).
  destruct (Backup.copy_histories w cfg dir r) as [evs found]. cbn [fst] in *.
  destruct (is_file w (home cfg // f)); cbn [fst]; [|exact IH].
  pose proof (copy_file_under d w (home cfg // f) dir f Hd Hn) as Hc.
  destruct (copy_file w (home cfg // f) (dir // f)) as [ok evs0]. cbn [fst snd] in *.
  apply Forall_app. split; assumption.
Qed.

Lemma archive_clouds_under (d : path) (w : world) (cloud_dir : path)
    (stores : list (string * path * string)) :
  under d cloud_dir ->
  forallb (fun s => plain (lit (fst (fst s)) ++ lit ".tar.gz")) stores = true ->
  Forall (writes_under d) (fst (Backup.archive_clouds w cloud_dir stores)).
Proof.
  intros Hd. induction stores as [|[[name src] arc] r IH]; intros Hs; [constructor|].
  cbn [forallb fst] in Hs. apply andb_true_iff in Hs as [Hn Hr].
  cbn [Backup.archive_clouds]. specialize (IH Hr).
  destruct (Backup.archive_clouds w cloud_dir r) as [evs found]. cbn [fst] in *.
  destruct (is_dir w src); cbn [fst]; [|exact IH].
  destruct (tar_gz w _ src); cbn [fst]; constructor;
    try (unfold writes_under; cbn [target]; apply under_file; assumption).
  - apply Forall_app. split; [apply log_under | exact IH].
  - exact IH.
Qed.

Ltac under_leaf :=
  first
    [ apply print_status_under
    | apply print_error_under
    | apply log_under
    | apply run_command_under
    | assumption
    | unfold writes_under; cbn [target];
      repeat first [ apply under_refl
                   | apply under_pjoin; [|reflexivity] ] ].

Ltac under_walk :=
  repeat
    match goal with
    | |- Forall _ [] => constructor
    | |- Forall _ (_ :: _) => constructor
    | |- Forall _ (_ ++ _) => apply Forall_app; split
    | |- Forall _ (if ?b then _ else _) => destruct b
    | |- Forall _ (match ?x with _ => _ end) => destruct x
    | |- _ => under_leaf
    end.

(** X17.  Whatever the machine answers, in dry run or not, a category
    routine creates or overwrites only the staging directory it is
    given and entries below it, the log apart: every directory made,
    file copied to, archive, listing and export lies under [dest_dir],
    each component of its relative path being a plain name (no slash,
    not [..]).  For the Conda exports this rests on the test of the
    environment names. *)
Theorem backup_writes_under_dest (c : category) (w : world) (cfg : config)
    (dest : path) (pm : str) :
  Forall (writes_under dest) (Backup.run_category c w cfg dest pm).
Proof.
  destruct c; cbn [Backup.run_category].
  - unfold Backup.backup_fish. under_walk.
  - unfold Backup.backup_bash.
    match goal with
    | |- context [Backup.copy_found w cfg ?d ?fs] =>
        pose proof (copy_found_under dest w cfg d fs) as Hc;
        destruct (Backup.copy_found w cfg d fs) as [evs found]
    end.
    cbn [fst] in Hc.
    assert (Hevs : Forall (writes_under dest) evs).
    { apply Hc; [|reflexivity]. repeat first [apply under_refl | apply under_pjoin; [|reflexivity]]. }
    clear Hc. under_walk.
  - unfold Backup.backup_zsh.
    match goal with
    | |- context [Backup.copy_found w cfg ?d ?fs] =>
        pose proof (copy_found_under dest w cfg d fs) as Hc;
        destruct (Backup.copy_found w cfg d fs) as [evs found]
    end.
    cbn [fst] in Hc.
    assert (Hevs : Forall (writes_under dest) evs).
    { apply Hc; [|reflexivity]. repeat first [apply under_refl | apply under_pjoin; [|reflexivity]]. }
    clear Hc. under_walk.
  - unfold Backup.backup_packages.
    repeat
      match goal with
      | |- Forall _ (_ :: _) => constructor
      | |- Forall _ (_ ++ _) => apply Forall_app; split
      | |- Forall _ (if ?b then _ else _) => destruct b
      | |- Forall _ (Backup.export_list _ _ _ _) => apply export_list_under
      | |- _ => under_leaf
      end.
  - unfold Backup.backup_starship.
    repeat
      match goal with
      | |- Forall _ (snd (copy_file _ _ (_ // _))) =>
          apply copy_file_under; [|reflexivity]
      | |- Forall _ (_ :: _) => constructor
      | |- Forall _ (_ ++ _) => apply Forall_app; split
      | |- Forall _ (if ?b then _ else _) => destruct b
      | |- Forall _ [] => constructor
      | |- _ => under_leaf
      end.
  - unfold Backup.backup_git_config.
    repeat
      match goal with
      | |- Forall _ (snd (copy_file _ _ (_ // _))) =>
          apply copy_file_under; [|reflexivity]
      | |- Forall _ (_ :: _) => constructor
      | |- Forall _ (_ ++ _) => apply Forall_app; split
      | |- Forall _ (if ?b then _ else _) => destruct b
      | |- Forall _ [] => constructor
      | |- _ => under_leaf
      end.
  - unfold Backup.backup_ssh.
    destruct (negb (is_dir w _)); [cbn [snd]; under_walk|].
    destruct (dry_run cfg); [cbn [snd]; under_walk|].
    destruct (tar_gz w _ _); cbn [snd]; under_walk.
  - unfold Backup.backup_conda.
    destruct (find _ _) as [conda_path|]; [|cbn [snd]; under_walk].
    destruct (dry_run cfg); [cbn [snd]; under_walk|].
    match goal with
    | |- context [run_command w ?cmd false 10] =>
        pose proof (run_command_under dest w cmd false 10) as Hrun;
        destruct (run_command w cmd false 10) as [[[rc out] err] evs]
    end.
    cbn [snd] in Hrun.
    destruct (negb (rc =? 0)%Z); [cbn [snd]; under_walk|].
    match goal with
    | |- context [Backup.export_envs w ?b ?d ?envs] =>
        pose proof (export_envs_under dest w b d envs) as He;
        destruct (Backup.export_envs w b d envs) as [evs' count]
    end.
    cbn [fst] in He.
    assert (Hevs : Forall (writes_under dest) evs').
    { apply He; [|apply conda_env_names_chars].
      apply under_pjoin; [apply under_refl | reflexivity]. }
    clear He. cbn [snd]. under_walk.
  - unfold Backup.backup_history.
    constructor; [under_leaf|].
    destruct (dry_run cfg); [under_walk|].
    match goal with
    | |- context [Backup.copy_histories w cfg ?d ?fs] =>
        pose proof (copy_histories_under dest w cfg d fs) as Hc;
        destruct (Backup.copy_histories w cfg d fs) as [evs found]
    end.
    cbn [fst] in Hc.
    assert (Hevs : Forall (writes_under dest) evs).
    { apply Hc; [|reflexivity]. apply under_pjoin; [apply under_refl | reflexivity]. }
    clear Hc.
    destruct (is_dir w _); [destruct (copytree w _ _)|]; under_walk.
  - unfold Backup.backup_cloud_creds.
    destruct (negb (dry_run cfg)).
    + match goal with
      | |- context [Backup.archive_clouds w ?d ?st] =>
          pose proof (archive_clouds_under dest w d st) as Hc;
          destruct (Backup.archive_clouds w d st) as [evs found]
      end.
      cbn [fst] in Hc.
      assert (Hevs : Forall (writes_under dest) evs).
      { apply Hc; [|reflexivity].
        repeat first [apply under_refl | apply under_pjoin; [|reflexivity]]. }
      clear Hc. under_walk.
    + under_walk.
Qed.

(** ** The command line *)

Lemma main_option (arg : str) (rest : list str) (cfg : config) :
  Cli.is_option arg = true ->
  Cli.main (arg :: rest) cfg
  = Cli.main rest
      {| temp_dir := temp_dir cfg; manifest_file := manifest_file cfg;
         verbose := verbose cfg
                    || str_eqb arg (lit "--verbose") || str_eqb arg (lit "-v");
         dry_run := dry_run cfg || str_eqb arg (lit "--dry-run");
         home := home cfg |}.
Proof.
  unfold Cli.is_option. intros H. destruct cfg as [t m v d h].
  cbn [Cli.main]. unfold Cli.set_verbose, Cli.set_dry_run.
  cbn [temp_dir manifest_file verbose dry_run home].
  destruct (str_eqb arg (lit "--verbose")) eqn:E1.
  - apply str_eqb_eq in E1. subst arg. cbn. rewrite ?orb_true_r, ?orb_false_r. reflexivity.
  - destruct (str_eqb arg (lit "-v")) eqn:E2.
    + apply str_eqb_eq in E2. subst arg. cbn. rewrite ?orb_true_r, ?orb_false_r. reflexivity.
    + cbn [orb] in *. rewrite H. rewrite ?orb_false_r, ?orb_true_r. reflexivity.
Qed.

Lemma main_command (arg : str) (rest : list str) (cfg : config) :
  Cli.is_option arg = false ->
  Cli.main (arg :: rest) cfg = (cfg, Cli.action_of arg).
Proof.
  unfold Cli.is_option, Cli.action_of. intros H. cbn [Cli.main].
  destruct (str_eqb arg (lit "--verbose")); [discriminate|].
  destruct (str_eqb arg (lit "-v")); [discriminate|].
  destruct (str_eqb arg (lit "--dry-run")); [discriminate|].
  cbn [orb].
  destruct (str_eqb arg (lit "--help") || str_eqb arg (lit "-h")
            || str_eqb arg (lit "help")); [reflexivity|].
  destruct (str_eqb arg (lit "--version") || str_eqb arg (lit "version")); [reflexivity|].
  destruct (str_eqb arg (lit "backup")); [reflexivity|].
  destruct (str_eqb arg (lit "restore")); reflexivity.
Qed.

Lemma main_leading_options (flags : list str) (cmd : str) (rest : list str)
    (cfg : config) :
  forallb Cli.is_option flags = true ->
  Cli.is_option cmd = false ->
  Cli.main (flags ++ cmd :: rest) cfg
  = ({| temp_dir := temp_dir cfg; manifest_file := manifest_file cfg;
        verbose := verbose cfg
                   || existsb (fun a => str_eqb a (lit "--verbose") || str_eqb a (lit "-v"))
                        flags;
        dry_run := dry_run cfg || existsb (fun a => str_eqb a (lit "--dry-run")) flags;
        home := home cfg |},
     Cli.action_of cmd).
Proof.
  intros Hflags Hcmd. revert cfg. induction flags as [|f r IH]; intros cfg.
  - cbn [app existsb]. rewrite (main_command cmd rest cfg Hcmd), !orb_false_r.
    destruct cfg; reflexivity.
  - cbn [forallb] in Hflags. apply andb_true_iff in Hflags as [Hf Hr].
    cbn [app]. rewrite (main_option f (r ++ cmd :: rest) cfg Hf), (IH Hr).
    cbn [temp_dir manifest_file verbose dry_run home existsb].
    rewrite !orb_assoc. reflexivity.
Qed.

Lemma main_options_only (flags : list str) (cfg : config) :
  forallb Cli.is_option flags = true -> snd (Cli.main flags cfg) = Cli.ShowHelp.
Proof.
  intros Hflags. revert cfg. induction flags as [|f r IH]; intros cfg; [reflexivity|].
  cbn [forallb] in Hflags. apply andb_true_iff in Hflags as [Hf Hr].
  rewrite (main_option f r cfg Hf). apply (IH Hr).
Qed.

Lemma action_of_backup (cmd : str) :
  (Cli.action_of cmd = Cli.DoBackup <-> cmd = lit "backup")
  /\ (Cli.action_of cmd = Cli.DoRestore <-> cmd = lit "restore").
Proof.
  unfold Cli.action_of. cbn [Cli.main snd].
  destruct (str_eqb cmd (lit "--verbose")) eqn:E1;
    [apply str_eqb_eq in E1; subst; split; split; discriminate|].
  destruct (str_eqb cmd (lit "-v")) eqn:E2;
    [apply str_eqb_eq in E2; subst; split; split; discriminate|].
  destruct (str_eqb cmd (lit "--dry-run")) eqn:E3;
    [apply str_eqb_eq in E3; subst; split; split; discriminate|].
  destruct (str_eqb cmd (lit "--help")) eqn:E4;
    [apply str_eqb_eq in E4; subst; split; split; discriminate|].
  destruct (str_eqb cmd (lit "-h")) eqn:E5;
    [apply str_eqb_eq in E5; subst; split; split; discriminate|].
  destruct (str_eqb cmd (lit "help")) eqn:E6;
    [apply str_eqb_eq in E6; subst; split; split; discriminate|].
  destruct (str_eqb cmd (lit "--version")) eqn:E7;
    [apply str_eqb_eq in E7; subst; split; split; discriminate|].
  destruct (str_eqb cmd (lit "version")) eqn:E8;
    [apply str_eqb_eq in E8; subst; split; split; discriminate|].
  cbn [orb snd].
  destruct (str_eqb cmd (lit "backup")) eqn:E9.
  { apply str_eqb_eq in E9; subst. split; split; try reflexivity; discriminate. }
  destruct (str_eqb cmd (lit "restore")) eqn:E10.
  { apply str_eqb_eq in E10; subst. split; split; try reflexivity; discriminate. }
  split; split; try discriminate; intros ->; cbn in *; discriminate.
Qed.

(** X18.  [main] reads options only up to the first argument that is no
    option: that argument alone decides what is called, and everything
    after it is ignored, so an option written after the command, as in
    [backup --dry-run], is not applied.  Dry run is on at the call
    exactly when it was on before or [--dry-run] stands among the
    leading options, and likewise for verbose.  The backup is called
    exactly on the word [backup] and the restore on [restore]; with
    options only, the help is shown. *)
Theorem main_reads_leading_options (flags : list str) (cmd : str) (rest : list str)
    (cfg : config)
    (Hflags : forallb Cli.is_option flags = true)
    (Hcmd : Cli.is_option cmd = false) :
  Cli.main (flags ++ cmd :: rest) cfg
  = ({| temp_dir := temp_dir cfg; manifest_file := manifest_file cfg;
        verbose := verbose cfg
                   || existsb (fun a => str_eqb a (lit "--verbose") || str_eqb a (lit "-v"))
                        flags;
        dry_run := dry_run cfg || existsb (fun a => str_eqb a (lit "--dry-run")) flags;
        home := home cfg |},
     Cli.action_of cmd)
  /\ (Cli.action_of cmd = Cli.DoBackup <-> cmd = lit "backup")
  /\ (Cli.action_of cmd = Cli.DoRestore <-> cmd = lit "restore")
  /\ snd (Cli.main flags cfg) = Cli.ShowHelp.
Proof.
  split; [apply main_leading_options; assumption|].
  split; [apply action_of_backup|].
  split; [apply action_of_backup | apply main_options_only; assumption].
Qed.

Lemma main_reads_leading_options_witness :
  forallb Cli.is_option [lit "-v"] = true
  /\ Cli.is_option (lit "backup") = false
  /\ Cli.main ([lit "-v"] ++ lit "backup" :: [lit "--dry-run"]) (Sample.settings false)
     = ({| temp_dir := temp_dir (Sample.settings false);
           manifest_file := manifest_file (Sample.settings false);
           verbose := true;
           dry_run := false;
           home := home (Sample.settings false) |},
        Cli.DoBackup).
Proof.
  split; [reflexivity|]. split; [reflexivity|].
  exact (proj1 (main_reads_leading_options [lit "-v"] (lit "backup") [lit "--dry-run"]
                  (Sample.settings false) eq_refl eq_refl)).
Defined.

(** ** [retry_with_backoff] *)

Section RetryFacts.

Context {A : Type}.
Variable func : nat -> Retry.attempt A.
Variables (max_attempts : nat) (max_delay : Z).

Lemma loop_spec (fuel attempt : nat) (cur : Z) (last : option str) :
  1 <= attempt -> attempt <= max_attempts + 1 -> max_attempts + 2 <= fuel + attempt ->
  exists n,
    attempt + n <= max_attempts + 1
    /\ (attempt <= max_attempts -> 1 <= n)
    /\ Retry.calls (snd (Retry.loop func max_attempts max_delay fuel attempt cur last))
       = seq attempt n
    /\ length (Retry.sleeps
                 (snd (Retry.loop func max_attempts max_delay fuel attempt cur last)))
       <= pred n
    /\ (forall i, attempt <= i < attempt + pred n -> exists e, func i = Retry.Fails e)
    /\ match fst (Retry.loop func max_attempts max_delay fuel attempt cur last) with
       | Retry.Value a => 1 <= n /\ func (attempt + pred n) = Retry.Returns a
       | Retry.Reraised e =>
           (n = 0 /\ last = Some e)
           \/ (1 <= n
               /\ (func (attempt + pred n) = Retry.Escapes e
                   \/ (func (attempt + pred n) = Retry.Fails e
                       /\ attempt + pred n = max_attempts)))
       | Retry.RaisedNone => n = 0 /\ last = None
       | Retry.SleepRefused =>
           1 <= n /\ attempt + pred n < max_attempts /\ (cur < 0 \/ max_delay < 0)%Z
       | Retry.OutOfFuel => False
       end.
Proof.
  revert attempt cur last. induction fuel as [|fuel IH]; intros attempt cur last H1 H2 H3.
  - lia.
  - cbn [Retry.loop]. destruct (attempt <=? max_attempts) eqn:Ele.
    + apply Nat.leb_le in Ele.
      destruct (func attempt) as [a|e|e] eqn:Ef.
      * exists 1. cbn. rewrite Nat.add_0_r.
        split; [lia|]. split; [lia|]. split; [reflexivity|]. split; [lia|].
        split; [intros i Hi; lia|]. split; [lia | exact Ef].
      * destruct (attempt <? max_attempts) eqn:Elt.
        -- apply Nat.ltb_lt in Elt.
           destruct (cur <? 0)%Z eqn:Ecur.
           ++ apply Z.ltb_lt in Ecur.
              exists 1. cbn. rewrite Nat.add_0_r.
              split; [lia|]. split; [lia|]. split; [reflexivity|]. split; [lia|].
              split; [intros i Hi; lia|]. split; [lia|]. split; [lia|]. left. exact Ecur.
           ++ destruct (IH (S attempt) (Z.min (cur * 2) max_delay) (Some e))
                as [n [Hn [Hpos [Hc [Hs [Hf Hr]]]]]]; try lia.
              destruct (Retry.loop func max_attempts max_delay fuel (S attempt)
                          (Z.min (cur * 2) max_delay) (Some e)) as [r steps].
              cbn [fst snd] in *.
              assert (Hn1 : 1 <= n) by (apply Hpos; lia).
              exists (S n). cbn [Retry.calls Retry.sleeps flat_map app seq length pred].
              fold (Retry.calls steps). fold (Retry.sleeps steps). rewrite Hc.
              split; [lia|]. split; [lia|]. split; [reflexivity|].
              split; [lia|]. split.
              { intros i Hi. destruct (Nat.eq_dec i attempt) as [->|Hne];
                  [exists e; exact Ef|]. apply Hf. lia. }
              replace (attempt + n) with (S attempt + pred n) by lia.
              apply Z.ltb_ge in Ecur.
              destruct r as [a|e'| | |]; try exact Hr.
              ** split; [lia|]. tauto.
              ** destruct Hr as [[Hz _]|[_ Hr]]; [lia|]. right. split; [lia | exact Hr].
              ** lia.
              ** destruct Hr as [_ [Hlt Hneg]]. split; [lia|]. split; [lia|].
                 destruct Hneg as [Hneg|Hneg]; [|right; exact Hneg].
                 right. lia.
        -- apply Nat.ltb_ge in Elt. assert (attempt = max_attempts) by lia. subst attempt.
           destruct (IH (S max_attempts) cur (Some e))
             as [n [Hn [Hpos [Hc [Hs [Hf Hr]]]]]]; try lia.
           destruct (Retry.loop func max_attempts max_delay fuel (S max_attempts) cur
                       (Some e)) as [r steps].
           cbn [fst snd] in *.
           assert (n = 0) by lia. subst n.
           exists 1. cbn [Retry.calls Retry.sleeps flat_map app seq length pred].
           fold (Retry.calls steps). fold (Retry.sleeps steps). rewrite Hc.
           cbn [seq pred] in *. rewrite Nat.add_0_r.
           split; [lia|]. split; [lia|]. split; [reflexivity|].
           split; [lia|]. split; [intros i Hi; lia|].
           destruct r as [a|e'| | |]; try lia; try tauto.
           ++ destruct Hr as [[_ Hl]|[Hz _]]; [|lia]. inversion Hl; subst e'.
              right. split; [lia|]. right. split; [exact Ef | reflexivity].
           ++ destruct Hr as [_ Hl]. discriminate.
      * exists 1. cbn. rewrite Nat.add_0_r.
        split; [lia|]. split; [lia|]. split; [reflexivity|]. split; [lia|].
        split; [intros i Hi; lia|]. right. split; [lia|]. left. exact Ef.
    + apply Nat.leb_gt in Ele. exists 0. cbn. rewrite Nat.add_0_r.
      split; [lia|]. split; [lia|]. split; [reflexivity|]. split; [lia|].
      split; [intros i Hi; lia|].
      destruct last as [e|]; [left|]; split; reflexivity.
Qed.

Lemma backoff_shift (cur : Z) (i : nat) :
  Retry.backoff (Z.min (cur * 2) max_delay) max_delay i
  = Retry.backoff cur max_delay (S i).
Proof.
  induction i as [|j IH]; [reflexivity|].
  cbn [Retry.backoff] in *. rewrite IH. reflexivity.
Qed.

Lemma backoff_range (cur : Z) (i : nat) :
  (0 <= cur)%Z -> (0 <= max_delay)%Z ->
  (0 <= Retry.backoff cur max_delay i <= Z.max cur max_delay)%Z.
Proof.
  intros Hc Hm. induction i as [|j IH]; cbn [Retry.backoff]; lia.
Qed.

Lemma loop_schedule (fuel attempt : nat) (cur : Z) (last : option str) :
  1 <= attempt -> attempt <= max_attempts + 1 -> max_attempts + 2 <= fuel + attempt ->
  (0 <= cur)%Z -> (0 <= max_delay)%Z ->
  fst (Retry.loop func max_attempts max_delay fuel attempt cur last) <> Retry.SleepRefused
  /\ Retry.sleeps (snd (Retry.loop func max_attempts max_delay fuel attempt cur last))
     = map (Retry.backoff cur max_delay)
         (seq 0 (pred (length
                         (Retry.calls
                            (snd (Retry.loop func max_attempts max_delay fuel attempt cur
                                    last)))))).
Proof.
  revert attempt cur last. induction fuel as [|fuel IH];
    intros attempt cur last H1 H2 H3 Hc Hm.
  - lia.
  - cbn [Retry.loop]. destruct (attempt <=? max_attempts) eqn:Ele.
    + apply Nat.leb_le in Ele.
      destruct (func attempt) as [a|e|e] eqn:Ef;
        [split; [discriminate | reflexivity]| |split; [discriminate | reflexivity]].
      destruct (attempt <? max_attempts) eqn:Elt.
      * apply Nat.ltb_lt in Elt.
        replace (cur <? 0)%Z with false by (symmetry; apply Z.ltb_ge; exact Hc).
        destruct (loop_spec fuel (S attempt) (Z.min (cur * 2) max_delay) (Some e))
          as [n [Hn [Hpos [Hcalls _]]]]; try lia.
        destruct (IH (S attempt) (Z.min (cur * 2) max_delay) (Some e)) as [Hr Hs];
          try lia.
        destruct (Retry.loop func max_attempts max_delay fuel (S attempt)
                    (Z.min (cur * 2) max_delay) (Some e)) as [r steps].
        cbn [fst snd] in *. split; [exact Hr|].
        cbn [Retry.calls Retry.sleeps flat_map app length pred].
        fold (Retry.calls steps). fold (Retry.sleeps steps).
        rewrite Hs, Hcalls, length_seq.
        assert (Hn1 : 1 <= n) by (apply Hpos; lia).
        destruct n as [|m]; [lia|]. cbn [pred seq map Retry.backoff].
        f_equal. rewrite <- seq_shift, map_map.
        apply map_ext. intros i. apply backoff_shift.
      * apply Nat.ltb_ge in Elt. assert (attempt = max_attempts) by lia. subst attempt.
        destruct fuel as [|fuel']; cbn [Retry.loop];
          [split; [discriminate | reflexivity]|].
        replace (S max_attempts <=? max_attempts) with false
          by (symmetry; apply Nat.leb_gt; lia).
        split; [discriminate | reflexivity].
    + split; [destruct last; discriminate | reflexivity].
Qed.

End RetryFacts.

(** X19.  [retry_with_backoff] calls [func] at most [max_attempts] times,
    attempt after attempt, and at least once when [max_attempts] is
    positive; every call but the last has raised an [Exception].  It
    returns what the last call returned; what it raises is what the
    last call raised, either an exception that is no [Exception], at
    once, or the [Exception] of attempt [max_attempts].  With
    [max_attempts] below one it calls nothing and ends in the
    [TypeError] of [raise None].  It pauses only between two calls. *)
Theorem retry_with_backoff_bounded {A} (func : nat -> Retry.attempt A)
    (max_attempts delay max_delay : Z) :
  exists n,
    n <= Z.to_nat max_attempts
    /\ ((1 <= max_attempts)%Z -> 1 <= n)
    /\ Retry.calls (snd (Retry.retry_with_backoff func max_attempts delay max_delay))
       = seq 1 n
    /\ length (Retry.sleeps
                 (snd (Retry.retry_with_backoff func max_attempts delay max_delay)))
       <= pred n
    /\ (forall i, 1 <= i < n -> exists e, func i = Retry.Fails e)
    /\ match fst (Retry.retry_with_backoff func max_attempts delay max_delay) with
       | Retry.Value a => 1 <= n /\ func n = Retry.Returns a
       | Retry.Reraised e =>
           1 <= n
           /\ (func n = Retry.Escapes e
               \/ (func n = Retry.Fails e /\ n = Z.to_nat max_attempts))
       | Retry.RaisedNone => n = 0 /\ (max_attempts <= 0)%Z
       | Retry.SleepRefused =>
           1 <= n /\ n < Z.to_nat max_attempts /\ (delay < 0 \/ max_delay < 0)%Z
       | Retry.OutOfFuel => False
       end.
Proof.
  unfold Retry.retry_with_backoff.
  destruct (loop_spec func (Z.to_nat max_attempts) max_delay
              (S (Z.to_nat max_attempts)) 1 delay None)
    as [n [Hn [Hpos [Hc [Hs [Hf Hr]]]]]]; try lia.
  exists n. split; [lia|]. split; [intros H; apply Hpos; lia|].
  split; [exact Hc|]. split; [exact Hs|].
  split; [intros i Hi; apply Hf; lia|].
  destruct (fst (Retry.loop func (Z.to_nat max_attempts) max_delay
                   (S (Z.to_nat max_attempts)) 1 delay None)) as [a|e| | |].
  - destruct Hr as [Hn1 Hr]. split; [exact Hn1|].
    replace n with (1 + pred n) by lia. exact Hr.
  - destruct Hr as [[_ Hl]|[Hn1 Hr]]; [discriminate|]. split; [exact Hn1|].
    replace n with (1 + pred n) at 1 2 by lia.
    destruct Hr as [Hr|[Hr Hm]]; [left; exact Hr | right; split; [exact Hr | lia]].
  - destruct Hr as [Hz _]. split; [exact Hz|]. subst n.
    destruct (Z_le_gt_dec max_attempts 0) as [Hle|Hgt]; [exact Hle|].
    assert (1 <= 0) by (apply Hpos; lia). lia.
  - destruct Hr as [Hn1 [Hlt Hneg]]. split; [exact Hn1|]. split; [lia | exact Hneg].
  - exact Hr.
Qed.

(** X20.  With a delay and a ceiling that are not negative,
    [retry_with_backoff] pauses once after every failed call but the
    last one made, first for [delay] seconds and each time after for the
    lesser of twice the pause before and [max_delay]; no pause is
    negative, so that [time.sleep] does not refuse it, and none exceeds
    the greater of [delay] and [max_delay], the first being [delay] even
    when that is above the ceiling. *)
Theorem retry_with_backoff_schedule {A} (func : nat -> Retry.attempt A)
    (max_attempts delay max_delay : Z)
    (Hdelay : (0 <= delay)%Z) (Hmax : (0 <= max_delay)%Z) :
  fst (Retry.retry_with_backoff func max_attempts delay max_delay) <> Retry.SleepRefused
  /\ Retry.sleeps (snd (Retry.retry_with_backoff func max_attempts delay max_delay))
     = map (Retry.backoff delay max_delay)
         (seq 0 (pred (length
                         (Retry.calls
                            (snd (Retry.retry_with_backoff func max_attempts delay
                                    max_delay))))))
  /\ Forall (fun d => (0 <= d <= Z.max delay max_delay)%Z)
       (Retry.sleeps (snd (Retry.retry_with_backoff func max_attempts delay max_delay))).
Proof.
  unfold Retry.retry_with_backoff.
  destruct (loop_schedule func (Z.to_nat max_attempts) max_delay
              (S (Z.to_nat max_attempts)) 1 delay None) as [Hr Hs]; try lia.
  split; [exact Hr|]. split; [exact Hs|].
  rewrite Hs. apply Forall_forall. intros d Hd.
  apply in_map_iff in Hd as [i [<- _]]. apply backoff_range; assumption.
Qed.

Lemma retry_with_backoff_schedule_witness :
  (0 <= 2)%Z /\ (0 <= 5)%Z
  /\ Retry.retry_with_backoff (Retry.flaky 3 tt) 5 2 5
     = (Retry.Value tt,
        [Retry.Call 1; Retry.Warn (lit "Attempt 1/5 failed: down"); Retry.Sleep 2;
         Retry.Call 2; Retry.Warn (lit "Attempt 2/5 failed: down"); Retry.Sleep 4;
         Retry.Call 3; Retry.Warn (lit "Attempt 3/5 failed: down"); Retry.Sleep 5;
         Retry.Call 4])
  /\ Retry.sleeps (snd (Retry.retry_with_backoff (Retry.flaky 3 tt) 5 2 5))
     = map (Retry.backoff 2 5)
         (seq 0 (pred (length
                         (Retry.calls
                            (snd (Retry.retry_with_backoff (Retry.flaky 3 tt) 5 2 5)))))).
Proof.
  split; [lia|]. split; [lia|]. split; [vm_compute; reflexivity|].
  exact (proj1 (proj2 (retry_with_backoff_schedule (Retry.flaky 3 tt) 5 2 5
                         ltac:(lia) ltac:(lia)))).
Defined.

(** ** The rollback stack *)

Lemma add_all_app (stack actions : list str) :
  Rollback.add_all stack actions = stack ++ actions.
Proof.
  revert stack. induction actions as [|a r IH]; intros stack; cbn.
  - rewrite app_nil_r. reflexivity.
  - unfold Rollback.add_all in IH. rewrite IH, <- app_assoc. reflexivity.
Qed.

Lemma processes_rollback (l : list str) :
  processes
    (flat_map (fun action =>
                 log "INFO" (lit "Executing rollback: " ++ action)
                 ++ [ERun [lit "/bin/sh"; lit "-c"; action]]) l)
  = map (fun action => [lit "/bin/sh"; lit "-c"; action]) l.
Proof.
  induction l as [|a r IH]; [reflexivity|]. cbn [flat_map map].
  rewrite processes_app, IH. reflexivity.
Qed.

(** X21.  Actions added to the rollback stack are run last in, first out,
    each handed once to the shell; running them empties the stack, so a
    second [execute_rollback] does nothing at all, and so does one over
    a stack to which nothing was added. *)
Theorem execute_rollback_lifo (actions : list str) :
  processes (snd (Rollback.execute_rollback (Rollback.add_all [] actions)))
  = map (fun action => [lit "/bin/sh"; lit "-c"; action]) (rev actions)
  /\ fst (Rollback.execute_rollback (Rollback.add_all [] actions)) = []
  /\ Rollback.execute_rollback
       (fst (Rollback.execute_rollback (Rollback.add_all [] actions))) = ([], []).
Proof.
  rewrite add_all_app. cbn [app].
  destruct actions as [|a r]; [repeat split; reflexivity|].
  cbn [Rollback.execute_rollback fst snd].
  rewrite processes_app, processes_rollback. cbn [processes flat_map print_status log app].
  rewrite app_nil_r. repeat split; reflexivity.
Qed.

(** ** The way back: [restore.py] against [backup.py] *)

Lemma moves_app (a b : list event) : moves (a ++ b) = moves a ++ moves b.
Proof. unfold moves. apply flat_map_app. Qed.

Lemma moves_mkdir (d : path) (l : list event) : moves (EMkdir d :: l) = moves l.
Proof. reflexivity. Qed.

Lemma moves_print_status (m : str) (s : string) : moves (print_status m s) = [].
Proof. reflexivity. Qed.

Lemma copy_file_moves (w : world) (src dest : path) :
  moves (snd (copy_file w src dest)) = [(src, dest)].
Proof. unfold copy_file. destruct (copy2 w src dest); reflexivity. Qed.

Lemma copy_back_returns (w w' : world) (cfg : config) (stored : path)
    (files : list string) :
  dry_run cfg = false ->
  holds_files w w' cfg stored files = true ->
  moves (fst (Restore.copy_back w' cfg stored files))
  = map swap (moves (fst (Backup.copy_found w cfg stored files)))
  /\ snd (Restore.copy_back w' cfg stored files)
     = snd (Backup.copy_found w cfg stored files).
Proof.
  intros Hwet. induction files as [|f r IH]; intros Hh; [split; reflexivity|].
  cbn [holds_files forallb] in Hh. apply andb_true_iff in Hh as [Hf Hr].
  apply eqb_prop in Hf. specialize (IH Hr).
  cbn [Restore.copy_back Backup.copy_found]. rewrite Hf, Hwet. cbn [negb].
  destruct (Restore.copy_back w' cfg stored r) as [evs' found'].
  destruct (Backup.copy_found w cfg stored r) as [evs found].
  cbn [fst snd] in IH. destruct IH as [IHm IHn].
  destruct (is_file w (home cfg // f)); cbn [fst snd]; [|split; assumption].
  rewrite !moves_app, !copy_file_moves, IHm, IHn. split; reflexivity.
Qed.

Lemma copy_histories_returns (w w' : world) (cfg : config) (stored : path)
    (names : list string) :
  holds_files w w' cfg stored names = true ->
  moves (fst (Restore.copy_histories_back w' cfg stored names))
  = map swap (moves (fst (Backup.copy_histories w cfg stored names))).
Proof.
  induction names as [|f r IH]; intros Hh; [reflexivity|].
  cbn [holds_files forallb] in Hh. apply andb_true_iff in Hh as [Hf Hr].
  apply eqb_prop in Hf. specialize (IH Hr).
  cbn [Restore.copy_histories_back Backup.copy_histories]. rewrite Hf.
  destruct (Restore.copy_histories_back w' cfg stored r) as [evs' found'].
  destruct (Backup.copy_histories w cfg stored r) as [evs found].
  cbn [fst] in IH.
  destruct (is_file w (home cfg // f)); cbn [fst]; [|exact IH].
  pose proof (copy_file_moves w (home cfg // f) (stored // f)) as Hm.
  destruct (copy_file w (home cfg // f) (stored // f)) as [ok evs0]. cbn [fst snd] in *.
  rewrite !moves_app, copy_file_moves, Hm, IH. reflexivity.
Qed.

(** X22.  Outside dry run, when the backup holds a listed file exactly
    when the machine backed up had it, the restore routines for bash,
    Starship, the Git configuration and the shell history copy back
    what the matching backup routines copied, each file and tree from
    where the backup put it to where the backup took it, in the same
    order. *)
Theorem restore_returns_files (w w' : world) (cfg : config) (dir : path)
    (Hwet : dry_run cfg = false)
    (Hbash : holds_files w w' cfg (dir // "shells" // "bash")
               [".bashrc"; ".bash_aliases"; ".bash_profile"; ".profile"; ".bash_logout"]
             = true)
    (Hstarship : is_file w' (dir // "config" // "starship.toml")
                 = is_file w (home cfg // ".config" // "starship.toml"))
    (Hgit : is_file w' (dir // "config" // ".gitconfig")
            = is_file w (home cfg // ".gitconfig"))
    (Hhistory : is_dir w' (dir // "history") = true
                /\ holds_files w w' cfg (dir // "history")
                     [".bash_history"; ".zsh_history"] = true
                /\ is_dir w' (dir // "history" // "fish")
                   = is_dir w (home cfg // ".local" // "share" // "fish")) :
  moves (Restore.restore_bash w' cfg dir) = map swap (moves (Backup.backup_bash w cfg dir))
  /\ moves (Restore.restore_starship w' cfg dir)
     = map swap (moves (Backup.backup_starship w cfg dir))
  /\ moves (Restore.restore_git_config w' cfg dir)
     = map swap (moves (Backup.backup_git_config w cfg dir))
  /\ moves (Restore.restore_history w' cfg dir)
     = map swap (moves (Backup.backup_history w cfg dir)).
Proof.
  split; [|split; [|split]].
  - unfold Restore.restore_bash, Backup.backup_bash.
    destruct (copy_back_returns w w' cfg (dir // "shells" // "bash") _ Hwet Hbash)
      as [Hm Hn].
    destruct (Restore.copy_back w' cfg _ _) as [evs' found'].
    destruct (Backup.copy_found w cfg _ _) as [evs found].
    cbn [fst snd] in *. subst found'.
    rewrite moves_mkdir, !moves_app, Hm.
    destruct (0 <? found); rewrite !moves_print_status, !app_nil_r; reflexivity.
  - unfold Restore.restore_starship, Backup.backup_starship.
    rewrite Hstarship, Hwet.
    destruct (is_file w (home cfg // ".config" // "starship.toml")); cbn [negb];
      [|rewrite !moves_print_status; reflexivity].
    rewrite ?moves_mkdir, !moves_app, !copy_file_moves, !moves_print_status.
    reflexivity.
  - unfold Restore.restore_git_config, Backup.backup_git_config.
    rewrite Hgit, Hwet.
    destruct (is_file w (home cfg // ".gitconfig")); cbn [negb];
      [|rewrite !moves_print_status; reflexivity].
    rewrite ?moves_mkdir, !moves_app, !copy_file_moves, !moves_print_status.
    reflexivity.
  - destruct Hhistory as [Hdir [Hfiles Hfish]].
    unfold Restore.restore_history, Backup.backup_history.
    rewrite Hdir, Hwet, Hfish. cbn [negb].
    pose proof (copy_histories_returns w w' cfg (dir // "history") _ Hfiles) as Hm.
    destruct (Restore.copy_histories_back w' cfg _ _) as [evs' found'].
    destruct (Backup.copy_histories w cfg _ _) as [evs found].
    cbn [fst] in Hm.
    rewrite moves_mkdir.
    destruct (is_dir w (home cfg // ".local" // "share" // "fish")).
    + destruct (copytree w' _ _), (copytree w _ _);
        rewrite !moves_app, Hm, map_app;
        repeat match goal with
               | |- context [if ?b then _ else _] => destruct b
               end;
        rewrite !moves_print_status, !app_nil_r; reflexivity.
    + rewrite !moves_app, Hm, map_app.
      destruct found', found; rewrite !moves_print_status, !app_nil_r; reflexivity.
Qed.

Lemma restore_returns_files_witness :
  dry_run (Sample.settings false) = false
  /\ moves (Restore.restore_bash (Sample.machine stored_fs Sample.succeeding)
              (Sample.settings false) Sample.backup_root)
     = [(Sample.backup_root // "shells" // "bash" // ".bashrc",
         home (Sample.settings false) // ".bashrc")]
  /\ moves (Restore.restore_bash (Sample.machine stored_fs Sample.succeeding)
              (Sample.settings false) Sample.backup_root)
     = map swap (moves (Backup.backup_bash
                          (Sample.machine Sample.home_fs Sample.succeeding)
                          (Sample.settings false) Sample.backup_root)).
Proof.
  split; [reflexivity|]. split; [vm_compute; reflexivity|].
  exact (proj1 (restore_returns_files
                  (Sample.machine Sample.home_fs Sample.succeeding)
                  (Sample.machine stored_fs Sample.succeeding)
                  (Sample.settings false) Sample.backup_root
                  eq_refl eq_refl eq_refl eq_refl
                  (conj eq_refl (conj eq_refl eq_refl)))).
Defined.

(** ** The restore routines in dry run, and where they write *)

Lemma copy_back_dry (w : world) (cfg : config) (from : path) (files : list string) :
  dry_run cfg = true -> fst (Restore.copy_back w cfg from files) = [].
Proof.
  intros Hdry. induction files as [|f r IH]; [reflexivity|].
  cbn [Restore.copy_back]. destruct (Restore.copy_back w cfg from r) as [evs found].
  cbn [fst] in IH. subst evs. rewrite Hdry.
  destruct (is_file w (from // f)); reflexivity.
Qed.

(** X23.  In dry run the restore routines for bash, Starship, the Git
    configuration and the shell history only print one status line and
    log it: they create no directory, copy nothing and start no
    process.  The line is "info" or "skip" for Starship, the Git
    configuration and the history, and "ok" or "skip" for bash. *)
Theorem restore_dry_run_only_reports (w : world) (cfg : config) (src_dir : path)
    (Hdry : dry_run cfg = true) :
  (forallb dry_talk (Restore.restore_bash w cfg src_dir) = true
   /\ (statuses (Restore.restore_bash w cfg src_dir) = [lit "ok"]
       \/ statuses (Restore.restore_bash w cfg src_dir) = [lit "skip"]))
  /\ (forallb dry_talk (Restore.restore_starship w cfg src_dir) = true
      /\ (statuses (Restore.restore_starship w cfg src_dir) = [lit "info"]
          \/ statuses (Restore.restore_starship w cfg src_dir) = [lit "skip"]))
  /\ (forallb dry_talk (Restore.restore_git_config w cfg src_dir) = true
      /\ (statuses (Restore.restore_git_config w cfg src_dir) = [lit "info"]
          \/ statuses (Restore.restore_git_config w cfg src_dir) = [lit "skip"]))
  /\ (forallb dry_talk (Restore.restore_history w cfg src_dir) = true
      /\ (statuses (Restore.restore_history w cfg src_dir) = [lit "info"]
          \/ statuses (Restore.restore_history w cfg src_dir) = [lit "skip"])).
Proof.
  split; [|split; [|split]].
  - unfold Restore.restore_bash.
    pose proof (copy_back_dry w cfg (src_dir // "shells" // "bash")
                  [".bashrc"; ".bash_aliases"; ".bash_profile"; ".profile"; ".bash_logout"]
                  Hdry) as Hc.
    destruct (Restore.copy_back w cfg _ _) as [evs found]. cbn [fst] in Hc. subst evs.
    cbn [app]. destruct (0 <? found); split; try reflexivity; [left | right]; reflexivity.
  - unfold Restore.restore_starship. rewrite Hdry.
    destruct (is_file w _); cbn [negb]; split; try reflexivity; [left | right]; reflexivity.
  - unfold Restore.restore_git_config. rewrite Hdry.
    destruct (is_file w _); cbn [negb]; split; try reflexivity; [left | right]; reflexivity.
  - unfold Restore.restore_history. rewrite Hdry.
    destruct (is_dir w _); cbn [negb]; split; try reflexivity; [left | right]; reflexivity.
Qed.

Lemma restore_dry_run_only_reports_witness :
  dry_run (Sample.settings true) = true
  /\ forallb dry_talk (Restore.restore_bash (Sample.machine stored_fs Sample.succeeding)
                         (Sample.settings true) Sample.backup_root) = true
  /\ statuses (Restore.restore_bash (Sample.machine stored_fs Sample.succeeding)
                 (Sample.settings true) Sample.backup_root) = [lit "ok"].
Proof.
  split; [reflexivity|].
  split; [|vm_compute; reflexivity].
  exact (proj1 (proj1 (restore_dry_run_only_reports
                         (Sample.machine stored_fs Sample.succeeding)
                         (Sample.settings true) Sample.backup_root eq_refl))).
Defined.

Lemma copy_back_under (w : world) (cfg : config) (from : path) (files : list string) :
  forallb (fun f => plain (lit f)) files = true ->
  Forall (writes_under (home cfg)) (fst (Restore.copy_back w cfg from files)).
Proof.
  induction files as [|f r IH]; intros Hf; [constructor|].
  cbn [forallb] in Hf. apply andb_true_iff in Hf as [Hn Hr].
  cbn [Restore.copy_back]. specialize (IH Hr).
  destruct (Restore.copy_back w cfg from r) as [evs found]. cbn [fst] in *.
  destruct (is_file w (from // f)); cbn [fst]; [|exact IH].
  apply Forall_app. split; [|exact IH].
  destruct (negb (dry_run cfg)); [|constructor].
  apply copy_file_under; [apply under_refl | exact Hn].
Qed.

Lemma copy_histories_back_under (w : world) (cfg : config) (from : path)
    (names : list string) :
  forallb (fun f => plain (lit f)) names = true ->
  Forall (writes_under (home cfg)) (fst (Restore.copy_histories_back w cfg from names)).
Proof.
  induction names as [|f r IH]; intros Hf; [constructor|].
  cbn [forallb] in Hf. apply andb_true_iff in Hf as [Hn Hr].
  cbn [Restore.copy_histories_back]. specialize (IH Hr).
  destruct (Restore.copy_histories_back w cfg from r) as [evs found]. cbn [fst] in *.
  destruct (is_file w (from // f)); cbn [fst]; [|exact IH].
  apply Forall_app. split; [|exact IH].
  apply copy_file_under; [apply under_refl | exact Hn].
Qed.

(** X24.  Whatever the backup holds, in dry run or not, the restore
    routines for bash, Starship, the Git configuration and the shell
    history create or overwrite only the home directory and entries
    below it, the log apart. *)
Theorem restore_writes_under_home (w : world) (cfg : config) (src_dir : path) :
  Forall (writes_under (home cfg)) (Restore.restore_bash w cfg src_dir)
  /\ Forall (writes_under (home cfg)) (Restore.restore_starship w cfg src_dir)
  /\ Forall (writes_under (home cfg)) (Restore.restore_git_config w cfg src_dir)
  /\ Forall (writes_under (home cfg)) (Restore.restore_history w cfg src_dir).
Proof.
  split; [|split; [|split]].
  - unfold Restore.restore_bash.
    match goal with
    | |- context [Restore.copy_back w cfg ?d ?fs] =>
        pose proof (copy_back_under w cfg d fs eq_refl) as Hevs;
        destruct (Restore.copy_back w cfg d fs) as [evs found]
    end.
    cbn [fst] in Hevs. under_walk.
  - unfold Restore.restore_starship.
    repeat
      match goal with
      | |- Forall _ (snd (copy_file _ _ (_ // _))) =>
          apply copy_file_under; [|reflexivity]
      | |- Forall _ (_ :: _) => constructor
      | |- Forall _ (_ ++ _) => apply Forall_app; split
      | |- Forall _ (if ?b then _ else _) => destruct b
      | |- Forall _ [] => constructor
      | |- _ => under_leaf
      end.
  - unfold Restore.restore_git_config.
    repeat
      match goal with
      | |- Forall _ (snd (copy_file _ _ (_ // _))) =>
          apply copy_file_under; [|reflexivity]
      | |- Forall _ (_ :: _) => constructor
      | |- Forall _ (_ ++ _) => apply Forall_app; split
      | |- Forall _ (if ?b then _ else _) => destruct b
      | |- Forall _ [] => constructor
      | |- _ => under_leaf
      end.
  - unfold Restore.restore_history.
    destruct (negb (is_dir w _)); [under_walk|].
    destruct (dry_run cfg); [under_walk|].
    match goal with
    | |- context [Restore.copy_histories_back w cfg ?d ?fs] =>
        pose proof (copy_histories_back_under w cfg d fs eq_refl) as Hevs;
        destruct (Restore.copy_histories_back w cfg d fs) as [evs found]
    end.
    cbn [fst] in Hevs.
    destruct (is_dir w _); [destruct (copytree w _ _)|]; under_walk.
Qed.

(** ** The default shell offered on restore *)

Lemma available_shells_known (w : world) (backup_dir : path) :
  Restore.available_shells w backup_dir <> []
  /\ Forall (fun s => In s [lit "fish"; lit "bash"; lit "zsh"])
       (Restore.available_shells w backup_dir).
Proof.
  unfold Restore.available_shells. cbn [filter].
  destruct (is_dir w (backup_dir // "shells" // "fish")),
    (is_dir w (backup_dir // "shells" // "bash")),
    (is_dir w (backup_dir // "shells" // "zsh")); cbn [map];
    (split; [discriminate|]);
    repeat (apply Forall_cons || apply Forall_nil); cbv [In]; auto 6.
Qed.

(** X25.  The shells [do_restore] offers as default are those of fish,
    bash, zsh that have a directory in the backup, in that order, or
    bash alone when none has: the list is never empty.  The choice ends
    with one of the shells offered or with the [ValueError] of
    [read_choice]; the list is never indexed out of range. *)
Theorem select_default_shell_outcome (w : world) (backup_dir : path) (s : state) :
  Restore.available_shells w backup_dir
  = (if existsb (fun n => is_dir w (backup_dir // "shells" // n)) ["fish"; "bash"; "zsh"]
     then map lit (filter (fun n => is_dir w (backup_dir // "shells" // n))
                     ["fish"; "bash"; "zsh"])
     else [lit "bash"])
  /\ match fst (Restore.select_default_shell w backup_dir s) with
     | Done shell => In shell (Restore.available_shells w backup_dir)
                     /\ In shell [lit "fish"; lit "bash"; lit "zsh"]
     | Raised e => e = ValueError
     end.
Proof.
  split.
  - unfold Restore.available_shells. cbn [filter existsb].
    destruct (is_dir w (backup_dir // "shells" // "fish")),
      (is_dir w (backup_dir // "shells" // "bash")),
      (is_dir w (backup_dir // "shells" // "zsh")); reflexivity.
  - destruct (available_shells_known w backup_dir) as [Hne Hall].
    assert (H : triple (fun _ => True) (Restore.select_default_shell w backup_dir)
                  (fun shell _ => In shell (Restore.available_shells w backup_dir))
                  (fun e _ => e = ValueError)).
    { unfold Restore.select_default_shell.
      apply (triple_bind _ _ _
               (fun v _ => (1 <= v
                            <= Z.of_nat (length (Restore.available_shells w backup_dir)))%Z)).
      - apply triple_read_choice_range; [exact Hne | auto | auto].
      - intros v s0 Hv.
        destruct (py_index_in_range (Restore.available_shells w backup_dir) v Hv)
          as [x [Hx Hn]].
        rewrite Hx. apply nth_error_In in Hn. exact Hn. }
    specialize (H s I).
    destruct (Restore.select_default_shell w backup_dir s) as [[shell|e] s'];
      cbn [fst]; [|exact H].
    split; [exact H|]. exact (proj1 (Forall_forall _ _) Hall shell H).
Qed.

(** ** Failures that do not stop [do_backup] *)

Section Course.

Context {A : Type}.




End Course.
















(** ** The package manager detected and the one backed up *)

Lemma detect_package_manager_range (w : world) (os_name : str) :
  In (detect_package_manager w os_name)
     (map lit ["brew"; "apt"; "dnf"; "yum"; "pacman"; "zypper"; "apk"; "unknown"]).
Proof.
  unfold detect_package_manager.
  destruct (str_eqb os_name (lit "macos")); [left; reflexivity|].
  cbn [find]. unfold command_exists.
  destruct (which w "apt"); [right; left; reflexivity|].
  destruct (which w "dnf"); [do 2 right; left; reflexivity|].
  destruct (which w "yum"); [do 3 right; left; reflexivity|].
  destruct (which w "pacman"); [do 4 right; left; reflexivity|].
  destruct (which w "zypper"); [do 5 right; left; reflexivity|].
  destruct (which w "apk"); [do 6 right; left; reflexivity|].
  do 7 right. left. reflexivity.
Qed.

(** X27.  Outside dry run, [backup_packages] given the manager that
    [detect_package_manager] answers lists packages and reports "ok"
    for brew, apt, dnf, yum and pacman, whatever the queries exit
    with; for zypper and apk, which are detected, and when no manager
    is found, it starts no process, writes nothing and reports
    "skip". *)
Theorem detected_manager_supported (w : world) (cfg : config) (dest : path)
    (os_name : str) (Hwet : dry_run cfg = false) :
  (existsb (str_eqb (detect_package_manager w os_name))
     (map lit ["zypper"; "apk"; "unknown"]) = true
   /\ statuses (Backup.backup_packages w cfg dest (detect_package_manager w os_name))
      = [lit "skip"]
   /\ processes (Backup.backup_packages w cfg dest (detect_package_manager w os_name)) = []
   /\ texts (Backup.backup_packages w cfg dest (detect_package_manager w os_name)) = [])
  \/ (existsb (str_eqb (detect_package_manager w os_name))
        (map lit ["brew"; "apt"; "dnf"; "yum"; "pacman"]) = true
      /\ statuses (Backup.backup_packages w cfg dest (detect_package_manager w os_name))
         = [lit "ok"]
      /\ processes (Backup.backup_packages w cfg dest (detect_package_manager w os_name))
         <> []).
Proof.
  pose proof (detect_package_manager_range w os_name) as Hin.
  cbn [map In] in Hin.
  assert (Hproc : forall cmd file render,
             processes (Backup.export_list w cmd file render) <> []).
  { intros cmd file render. unfold Backup.export_list.
    pose proof (run_command_processes w (map lit cmd) 0) as Hp.
    destruct (run_command w (map lit cmd) false 0) as [[[rc out] err] evs].
    cbn [snd] in Hp. rewrite processes_app, Hp. discriminate. }
  destruct Hin as [<-|[<-|[<-|[<-|[<-|[<-|[<-|[<-|[]]]]]]]]];
    unfold Backup.backup_packages; rewrite Hwet;
    match goal with
    | |- context [str_eqb (lit ?a) (lit "apt")] =>
        let b := eval vm_compute in (str_eqb (lit a) (lit "apt")) in
        change (str_eqb (lit a) (lit "apt")) with b
    end;
    match goal with
    | |- context [str_eqb (lit ?a) (lit "brew")] =>
        let b := eval vm_compute in (str_eqb (lit a) (lit "brew")) in
        change (str_eqb (lit a) (lit "brew")) with b
    | _ => idtac
    end;
    match goal with
    | |- context [str_eqb (lit ?a) (lit "dnf")] =>
        let b := eval vm_compute in (str_eqb (lit a) (lit "dnf")) in
        change (str_eqb (lit a) (lit "dnf")) with b
    | _ => idtac
    end;
    match goal with
    | |- context [str_eqb (lit ?a) (lit "yum")] =>
        let b := eval vm_compute in (str_eqb (lit a) (lit "yum")) in
        change (str_eqb (lit a) (lit "yum")) with b
    | _ => idtac
    end;
    match goal with
    | |- context [str_eqb (lit ?a) (lit "pacman")] =>
        let b := eval vm_compute in (str_eqb (lit a) (lit "pacman")) in
        change (str_eqb (lit a) (lit "pacman")) with b
    | _ => idtac
    end;
    cbv iota; cbn [orb];
    first
      [ left; split; [reflexivity|]; split; [reflexivity|]; split; reflexivity
      | right; split; [reflexivity|]; split;
        [ rewrite statuses_cons, ?statuses_app, ?statuses_export_list; reflexivity
        | change (EMkdir ?d :: ?l) with ([EMkdir d] ++ l);
          rewrite !processes_app; intros E;
          apply app_eq_nil in E as [_ E]; apply app_eq_nil in E as [E _];
          exact (Hproc _ _ _ E) ] ].
Qed.

Lemma detected_manager_supported_witness :
  dry_run (Sample.settings false) = false
  /\ detect_package_manager (Sample.machine Sample.home_fs Sample.succeeding) (lit "linux")
     = lit "apt"
  /\ statuses (Backup.backup_packages (Sample.machine Sample.home_fs Sample.succeeding)
                 (Sample.settings false) Sample.backup_root
                 (detect_package_manager (Sample.machine Sample.home_fs Sample.succeeding)
                    (lit "linux"))) = [lit "ok"].
Proof.
  split; [reflexivity|]. split; [reflexivity|].
  destruct (detected_manager_supported (Sample.machine Sample.home_fs Sample.succeeding)
              (Sample.settings false) Sample.backup_root (lit "linux") eq_refl)
    as [[H _]|[_ [H _]]]; [discriminate H | exact H].
Defined.
